(** * Dashboard client (script.js): state reconciliation, rendering and
      countdown timers, embedded as state-passing functions.

    Conventions of the embedding.
    - A finite JavaScript number is an exact rational [Q]; [null],
      [undefined] and [NaN] are [None] where the source tests for them.
    - Strings are [string]; [toLowerCase] and [trim] are modelled on the
      ASCII range.
    - Objects used as dictionaries ([renamedMachines], [etaIntervals]) are
      [gmap]s keyed by the property name; machine ids are strings.
    - The page is a record [Page]: the application's globals together with
      the part of the document and of the browser's timer table that the
      script reads and writes.
    - A function that can throw runs in the monad [Js], which threads the
      page and either returns a value or raises. *)

From Stdlib Require Import ZArith QArith Qround Qminmax Qabs String Ascii DecimalString Lia Lqa.
From stdpp Require Import base option list gmap strings.

Open Scope string_scope.

(** ** JavaScript primitives used by the script *)

Module JS.

(** [Number.prototype.toString] of an integer value. *)
Definition showZ (z : Z) : string := NilZero.string_of_int (Z.to_int z).

Fixpoint repeat_str (n : nat) (fill : string) : string :=
  match n with
  | O => ""
  | S k => fill +:+ repeat_str k fill
  end.

(** [s.padStart(n, fill)] for a one-character [fill]. *)
Definition padStart (n : nat) (fill : string) (s : string) : string :=
  repeat_str (n - String.length s) fill +:+ s.

(** [Math.floor] on a finite number. *)
Definition floor (x : Q) : Z := Qfloor x.

(** Truncation toward zero, the rounding of the quotient in [%]. *)
Definition trunc (x : Q) : Z := Z.quot (Qnum x) (Zpos (Qden x)).

(** [x % y] for a non-zero [y]: the remainder has the sign of [x]. *)
Definition rem (x y : Q) : Q := (x - y * inject_Z (trunc (x / y)))%Q.

(** [!x] on a number that is not [NaN]. *)
Definition is_zero (x : Q) : bool := Z.eqb (Qnum x) 0.

(** [x < y] and [x >= y] on finite numbers. *)
Definition ltb (x y : Q) : bool := negb (Qle_bool y x).
Definition geb (x y : Q) : bool := Qle_bool y x.

(** [Math.min(x, y)]. *)
Definition min (x y : Q) : Q := if Qle_bool x y then x else y.

(** The value denoted by [x.toFixed(1)]: the integer [n] for which
    [n / 10 - x] is closest to zero, the larger [n] on a tie, computed on
    the absolute value with the sign put back in front. *)
Definition toFixed1 (x : Q) : Q :=
  if ltb x 0
  then (- (Qfloor ((- x) * 10 + (1 # 2)) # 10))%Q
  else (Qfloor (x * 10 + (1 # 2)) # 10)%Q.

(** [c.toLowerCase()] on ASCII. *)
Definition lower_ascii (c : ascii) : ascii :=
  let n := nat_of_ascii c in
  if (65 <=? n)%nat && (n <=? 90)%nat then ascii_of_nat (n + 32) else c.

Fixpoint toLowerCase (s : string) : string :=
  match s with
  | EmptyString => EmptyString
  | String c r => String (lower_ascii c) (toLowerCase r)
  end.

(** White space of the ASCII range: TAB, LF, VT, FF, CR and space. *)
Definition is_space (c : ascii) : bool :=
  let n := nat_of_ascii c in
  ((9 <=? n)%nat && (n <=? 13)%nat) || (n =? 32)%nat.

Fixpoint trimStart (s : string) : string :=
  match s with
  | EmptyString => EmptyString
  | String c r => if is_space c then trimStart r else s
  end.

Fixpoint trimEnd (s : string) : string :=
  match s with
  | EmptyString => EmptyString
  | String c r =>
      match trimEnd r with
      | EmptyString => if is_space c then EmptyString else String c EmptyString
      | r' => String c r'
      end
  end.

Definition trim (s : string) : string := trimEnd (trimStart s).

(** [s.includes(sub)]. *)
Fixpoint includes (s sub : string) : bool :=
  String.prefix sub s ||
  match s with
  | EmptyString => false
  | String _ r => includes r sub
  end.

(** Truthiness of a string: only the empty string is falsy. *)
Definition truthy (s : string) : bool :=
  match s with EmptyString => false | _ => true end.

(** [a || b] on strings. *)
Definition or_else (a b : string) : string := if truthy a then a else b.

(** [o || b] where [o] is a string or [undefined]. *)
Definition opt_or (o : option string) (b : string) : string :=
  match o with
  | Some a => or_else a b
  | None => b
  end.

End JS.

(** ** ETA countdown: [formatTime] *)

(** [formatTime(sec)]. [None] stands for an argument that is [null],
    [undefined] or [NaN]: [!sec] holds for each of them. *)
Definition formatTime (sec : option Q) : string :=
  match sec with
  | None => "0:00"
  | Some d =>
      if JS.is_zero d || JS.ltb d 0 then "0:00"
      else
        let m := JS.floor (d / 60) in
        let s := JS.floor (JS.rem d 60) in
        JS.showZ m +:+ ":" +:+ JS.padStart 2 "0" (JS.showZ s)
  end.

(** The reference definition, after the words of the specification: a
    negative or degenerate duration gives "0:00"; otherwise the minutes
    [floor(d/60)], a colon, and [floor(d mod 60)] on two digits, where
    [mod] is the mathematical remainder. *)
Definition Qmod (x y : Q) : Q := (x - y * inject_Z (Qfloor (x / y)))%Q.

Definition pad2 (s : string) : string :=
  if (String.length s <? 2)%nat then "0" +:+ s else s.

Definition formatTime_ref (sec : option Q) : string :=
  match sec with
  | None => "0:00"
  | Some d =>
      match Qlt_le_dec d 0 with
      | left _ => "0:00"
      | right _ =>
          JS.showZ (Qfloor (d / 60)) +:+ ":" +:+ pad2 (JS.showZ (Qfloor (Qmod d 60)))
      end
  end.

(** ** Data model: the payloads the backend delivers *)

(** A machine's current job, [machine.job]. *)
Record Job := {
  work_order : string;
  size : string;
  completed_qty : Q;
  total_qty : Q;
  remaining_time : option Q;
  progress_percent : option Q
}.

(** A queued job, [machine.next_job], as [handleNewJob] builds it. *)
Record NextJob := {
  nj_work_order : string;
  nj_pipe_size : string;
  nj_produced_qty : Q;
  nj_total_qty : Q;
  nj_remaining_time : option Q
}.

Record Machine := {
  m_id : string;
  m_name : string;
  m_status : string;
  m_job : option Job;
  m_next_job : option NextJob
}.

Record Location := {
  l_name : string;
  l_machines : list Machine
}.

(** The [new_job] member of a push message. *)
Record NewJob := {
  ev_machine_id : string;
  ev_work_order : string;
  ev_qty : Q;
  ev_pipe_size : string;
  ev_eta : option Q;
  ev_machine_name : string
}.

(** A parsed push message or [/dashboard] response; a key that is absent
    is [None]. The [work_orders] key only feeds the ERP table, which is
    outside this development, and is left out. *)
Record Message := {
  locations : option (list Location);
  new_job : option NewJob
}.

Record User := {
  username : string;
  password : string;
  location : string;
  role : string
}.

(** The reply of [POST /machine/{start|pause|stop}]. *)
Record ActionReply := {
  ar_ok : bool;
  ar_machine : option Machine
}.

(** ** The document *)

(** The job block of a card. [jv_eta] is the node of the span
    [eta-<id>]; its text lives in [eta_text]. *)
Record JobView := {
  jv_work_order : string;
  jv_size : string;
  jv_completed_qty : Q;
  jv_total_qty : Q;
  jv_eta : nat;
  jv_progress : Q;
  jv_color : string
}.

(** The markup [cardHTML] of a machine card, field by field. *)
Record CardView := {
  cv_title : string;                          (* text node of the h3 *)
  cv_edit : option (string * string * string); (* data-location, data-id, data-name *)
  cv_status : string;
  cv_job : option JobView;                    (* None: the "No Job" block *)
  cv_controls : option (string * string)      (* data-location, data-id *)
}.

(** The element [machine-<card_id>]. *)
Record CardEl := {
  card_id : string;
  card_class : string;
  card_view : CardView
}.

(** A [div.location]: its heading and its grid of cards. *)
Record LocationEl := {
  le_heading : string;
  le_grid : list CardEl
}.

Record AlertEl := {
  alert_text : string;
  alert_color : string
}.

(** The closure of the interval callback of [setupETACountdown]: the
    variables [id], [el] and [t] it captured. *)
Record Countdown := {
  cd_id : string;
  cd_el : option nat;
  cd_t : Q
}.

(** ** The page: globals of the script, document, browser *)

Record Page := {
  (* globals *)
  currentUser : option User;
  suppressNextWSRender : bool;
  dashboardCache : Message;
  renamedMachines : gmap string string;
  etaIntervals : gmap string nat;
  (* document: the filter controls (None: element absent), the children
     of #locations, the text of every eta span created so far (attached
     or not), the children of #alerts (None: element absent) *)
  filter_location : option string;
  filter_status : option string;
  search_machine : option string;
  locations_el : list LocationEl;
  eta_text : gmap nat string;
  next_node : nat;
  alerts_el : option (list AlertEl);
  (* browser: active intervals by handle, messages shown by alert() *)
  intervals : gmap nat Countdown;
  next_interval : nat;
  dialogs : list string
}.

Definition set_suppressNextWSRender (b : bool) (p : Page) : Page :=
  {| currentUser := currentUser p; suppressNextWSRender := b;
     dashboardCache := dashboardCache p; renamedMachines := renamedMachines p;
     etaIntervals := etaIntervals p; filter_location := filter_location p;
     filter_status := filter_status p; search_machine := search_machine p;
     locations_el := locations_el p; eta_text := eta_text p;
     next_node := next_node p; alerts_el := alerts_el p;
     intervals := intervals p; next_interval := next_interval p;
     dialogs := dialogs p |}.

Definition set_dashboardCache (c : Message) (p : Page) : Page :=
  {| currentUser := currentUser p; suppressNextWSRender := suppressNextWSRender p;
     dashboardCache := c; renamedMachines := renamedMachines p;
     etaIntervals := etaIntervals p; filter_location := filter_location p;
     filter_status := filter_status p; search_machine := search_machine p;
     locations_el := locations_el p; eta_text := eta_text p;
     next_node := next_node p; alerts_el := alerts_el p;
     intervals := intervals p; next_interval := next_interval p;
     dialogs := dialogs p |}.

Definition set_renamedMachines (r : gmap string string) (p : Page) : Page :=
  {| currentUser := currentUser p; suppressNextWSRender := suppressNextWSRender p;
     dashboardCache := dashboardCache p; renamedMachines := r;
     etaIntervals := etaIntervals p; filter_location := filter_location p;
     filter_status := filter_status p; search_machine := search_machine p;
     locations_el := locations_el p; eta_text := eta_text p;
     next_node := next_node p; alerts_el := alerts_el p;
     intervals := intervals p; next_interval := next_interval p;
     dialogs := dialogs p |}.

Definition set_etaIntervals (e : gmap string nat) (p : Page) : Page :=
  {| currentUser := currentUser p; suppressNextWSRender := suppressNextWSRender p;
     dashboardCache := dashboardCache p; renamedMachines := renamedMachines p;
     etaIntervals := e; filter_location := filter_location p;
     filter_status := filter_status p; search_machine := search_machine p;
     locations_el := locations_el p; eta_text := eta_text p;
     next_node := next_node p; alerts_el := alerts_el p;
     intervals := intervals p; next_interval := next_interval p;
     dialogs := dialogs p |}.

Definition set_locations_el (l : list LocationEl) (p : Page) : Page :=
  {| currentUser := currentUser p; suppressNextWSRender := suppressNextWSRender p;
     dashboardCache := dashboardCache p; renamedMachines := renamedMachines p;
     etaIntervals := etaIntervals p; filter_location := filter_location p;
     filter_status := filter_status p; search_machine := search_machine p;
     locations_el := l; eta_text := eta_text p;
     next_node := next_node p; alerts_el := alerts_el p;
     intervals := intervals p; next_interval := next_interval p;
     dialogs := dialogs p |}.

Definition set_eta_text (t : gmap nat string) (p : Page) : Page :=
  {| currentUser := currentUser p; suppressNextWSRender := suppressNextWSRender p;
     dashboardCache := dashboardCache p; renamedMachines := renamedMachines p;
     etaIntervals := etaIntervals p; filter_location := filter_location p;
     filter_status := filter_status p; search_machine := search_machine p;
     locations_el := locations_el p; eta_text := t;
     next_node := next_node p; alerts_el := alerts_el p;
     intervals := intervals p; next_interval := next_interval p;
     dialogs := dialogs p |}.

Definition set_next_node (n : nat) (p : Page) : Page :=
  {| currentUser := currentUser p; suppressNextWSRender := suppressNextWSRender p;
     dashboardCache := dashboardCache p; renamedMachines := renamedMachines p;
     etaIntervals := etaIntervals p; filter_location := filter_location p;
     filter_status := filter_status p; search_machine := search_machine p;
     locations_el := locations_el p; eta_text := eta_text p;
     next_node := n; alerts_el := alerts_el p;
     intervals := intervals p; next_interval := next_interval p;
     dialogs := dialogs p |}.

Definition set_alerts_el (a : option (list AlertEl)) (p : Page) : Page :=
  {| currentUser := currentUser p; suppressNextWSRender := suppressNextWSRender p;
     dashboardCache := dashboardCache p; renamedMachines := renamedMachines p;
     etaIntervals := etaIntervals p; filter_location := filter_location p;
     filter_status := filter_status p; search_machine := search_machine p;
     locations_el := locations_el p; eta_text := eta_text p;
     next_node := next_node p; alerts_el := a;
     intervals := intervals p; next_interval := next_interval p;
     dialogs := dialogs p |}.

Definition set_intervals (i : gmap nat Countdown) (p : Page) : Page :=
  {| currentUser := currentUser p; suppressNextWSRender := suppressNextWSRender p;
     dashboardCache := dashboardCache p; renamedMachines := renamedMachines p;
     etaIntervals := etaIntervals p; filter_location := filter_location p;
     filter_status := filter_status p; search_machine := search_machine p;
     locations_el := locations_el p; eta_text := eta_text p;
     next_node := next_node p; alerts_el := alerts_el p;
     intervals := i; next_interval := next_interval p;
     dialogs := dialogs p |}.

Definition set_next_interval (n : nat) (p : Page) : Page :=
  {| currentUser := currentUser p; suppressNextWSRender := suppressNextWSRender p;
     dashboardCache := dashboardCache p; renamedMachines := renamedMachines p;
     etaIntervals := etaIntervals p; filter_location := filter_location p;
     filter_status := filter_status p; search_machine := search_machine p;
     locations_el := locations_el p; eta_text := eta_text p;
     next_node := next_node p; alerts_el := alerts_el p;
     intervals := intervals p; next_interval := n;
     dialogs := dialogs p |}.

Definition set_dialogs (d : list string) (p : Page) : Page :=
  {| currentUser := currentUser p; suppressNextWSRender := suppressNextWSRender p;
     dashboardCache := dashboardCache p; renamedMachines := renamedMachines p;
     etaIntervals := etaIntervals p; filter_location := filter_location p;
     filter_status := filter_status p; search_machine := search_machine p;
     locations_el := locations_el p; eta_text := eta_text p;
     next_node := next_node p; alerts_el := alerts_el p;
     intervals := intervals p; next_interval := next_interval p;
     dialogs := d |}.

(** ** The monad of handlers: page passing with exceptions *)

Inductive exn :=
  | TypeError (msg : string)
  | SyntaxError
  | FetchError.

Inductive outcome (A : Type) :=
  | Returns (a : A)
  | Throws (e : exn).
Arguments Returns {A} a.
Arguments Throws {A} e.

Definition Js (A : Type) : Type := Page -> Page * outcome A.

#[global] Instance Js_ret : MRet Js := fun A a p => (p, Returns a).

#[global] Instance Js_bind : MBind Js := fun A B f m p =>
  match m p with
  | (p', Returns a) => f a p'
  | (p', Throws e) => (p', Throws e)
  end.

Definition get : Js Page := fun p => (p, Returns p).
Definition modify (f : Page -> Page) : Js unit := fun p => (f p, Returns tt).
Definition throw {A : Type} (e : exn) : Js A := fun p => (p, Throws e).

(** [try { body } catch (err) { handler(err) }]. *)
Definition try_catch {A : Type} (body : Js A) (handler : exn -> Js A) : Js A :=
  fun p =>
    match body p with
    | (p', Returns a) => (p', Returns a)
    | (p', Throws e) => handler e p'
    end.

(** [xs.forEach(f)], and [for (const x of xs)] without [break]. *)
Fixpoint forEach {A : Type} (xs : list A) (f : A -> Js unit) : Js unit :=
  match xs with
  | [] => mret tt
  | x :: r => f x;; forEach r f
  end.

(** The page a handler leaves behind, and how it ended. *)
Definition exec {A : Type} (m : Js A) (p : Page) : Page := fst (m p).
Definition result {A : Type} (m : Js A) (p : Page) : outcome A := snd (m p).

(** ** Document and browser primitives *)

(** [document.getElementById("machine-" + id)]: the first card of that id
    in document order, as (index of its grid, index in the grid). *)
Fixpoint find_card (id : string) (li : nat) (les : list LocationEl) : option (nat * nat) :=
  match les with
  | [] => None
  | le :: rest =>
      match list_find (fun c => card_id c = id) (le_grid le) with
      | Some (ci, _) => Some (li, ci)
      | None => find_card id (S li) rest
      end
  end.

Definition getElementById_machine (id : string) : Js (option (nat * nat)) :=
  p ← get; mret (find_card id 0 (locations_el p)).

(** The card at position [j] of the grid of index [i]. *)
Definition card_at (i j : nat) (p : Page) : option CardEl :=
  locations_el p !! i ≫= fun le => le_grid le !! j.

(** All cards under #locations in document order. *)
Definition cards (p : Page) : list CardEl :=
  concat (le_grid <$> locations_el p).

(** The span [eta-<id>] sits in the job block of the card [machine-<id>]. *)
Definition eta_span_of (id : string) (c : CardEl) : option nat :=
  if bool_decide (card_id c = id) then jv_eta <$> cv_job (card_view c) else None.

Fixpoint first_some {A B : Type} (f : A -> option B) (l : list A) : option B :=
  match l with
  | [] => None
  | x :: r => match f x with Some y => Some y | None => first_some f r end
  end.

(** [document.getElementById("eta-" + id)]. *)
Definition getElementById_eta (id : string) : Js (option nat) :=
  p ← get; mret (first_some (eta_span_of id) (cards p)).

(** [el.textContent = text]; the node may or may not be attached. *)
Definition set_textContent (el : nat) (text : string) : Js unit :=
  modify (fun p => set_eta_text (<[el := text]> (eta_text p)) p).

(** [card.innerHTML = cardHTML] on the card at (li, ci). *)
Definition update_card (li ci : nat) (v : CardView) (les : list LocationEl) : list LocationEl :=
  alter (fun le =>
           {| le_heading := le_heading le;
              le_grid := alter (fun c => {| card_id := card_id c;
                                            card_class := card_class c;
                                            card_view := v |}) ci (le_grid le) |})
        li les.

(** [parentGrid.appendChild(card)] on the grid of index li. *)
Definition append_card (li : nat) (c : CardEl) (les : list LocationEl) : list LocationEl :=
  alter (fun le => {| le_heading := le_heading le; le_grid := le_grid le ++ [c] |}) li les.

(** [clearInterval(h)]; [None] is [clearInterval(undefined)]. *)
Definition clearInterval (h : option nat) : Js unit :=
  modify (fun p =>
            match h with
            | Some k => set_intervals (delete k (intervals p)) p
            | None => p
            end).

(** [setInterval(callback, 1000)] for the countdown callback whose captured
    variables are [cd]; returns the new handle. *)
Definition setInterval (cd : Countdown) : Js nat :=
  p ← get;
  let h := next_interval p in
  modify (fun p => set_next_interval (S h) (set_intervals (<[h := cd]> (intervals p)) p));;
  mret h.

(** [alert(msg)]. *)
Definition window_alert (msg : string) : Js unit :=
  modify (fun p => set_dialogs (dialogs p ++ [msg]) p).

(** ** Alerts panel *)

(** [createAlert(message, level)]. The removal of the alert after ten
    seconds is not part of the model. *)
Definition createAlert (message : string) (level : Z) : Js unit :=
  p ← get;
  match alerts_el p with
  | None => mret tt
  | Some l =>
      let color := if (level =? 3)%Z then "#2196f3"
                   else if (level =? 2)%Z then "#f44336" else "#ff9800" in
      modify (set_alerts_el (Some ({| alert_text := message; alert_color := color |} :: l)))
  end.

(** [p >= a] and [p < b] where [p] may be [undefined] or [null]. *)
Definition opt_geb (p : option Q) (a : Q) : bool :=
  match p with Some x => JS.geb x a | None => false end.
Definition opt_ltb (p : option Q) (b : Q) : bool :=
  match p with Some x => JS.ltb x b | None => false end.

(** [handleAlerts(data)]. *)
Definition handleAlerts (data : Message) : Js unit :=
  p ← get;
  match alerts_el p with
  | None => mret tt
  | Some _ =>
      modify (set_alerts_el (Some []));;
      match locations data with
      | None => throw (TypeError "data.locations is undefined")
      | Some locs =>
          forEach locs (fun loc =>
            forEach (l_machines loc) (fun m =>
              match m_job m with
              | None => mret tt
              | Some j =>
                  let pr := progress_percent j in
                  q ← get;
                  let who := JS.opt_or (renamedMachines q !! m_id m) (m_name m) in
                  if opt_geb pr 75 && opt_ltb pr 90
                  then createAlert (who +:+ " reached 75% progress!") 1
                  else if opt_geb pr 90 && opt_ltb pr 100
                  then createAlert (who +:+ " reached 90% progress!") 2
                  else if opt_geb pr 100
                  then createAlert (who +:+ " completed!") 3
                  else mret tt
              end))
      end
  end.

(** ** ETA countdown *)

(** [setupETACountdown(id, sec)]. *)
Definition setupETACountdown (id : string) (sec : Q) : Js unit :=
  p ← get;
  clearInterval (etaIntervals p !! id);;
  let t := sec in
  el ← getElementById_eta id;
  match el with
  | None => mret tt
  | Some e =>
      set_textContent e (formatTime (Some t));;
      h ← setInterval {| cd_id := id; cd_el := el; cd_t := t |};
      modify (fun p => set_etaIntervals (<[id := h]> (etaIntervals p)) p)
  end.

(** One firing of the interval of handle [h]. An interval that was cleared
    does not fire. The callback tests the captured [el], writes
    [formatTime(t--)] and clears [etaIntervals[id]] once [t < 0]. *)
Definition eta_tick (h : nat) : Js unit :=
  p ← get;
  match intervals p !! h with
  | None => mret tt
  | Some cd =>
      match cd_el cd with
      | None => clearInterval (etaIntervals p !! cd_id cd)
      | Some e =>
          set_textContent e (formatTime (Some (cd_t cd)));;
          let t' := (cd_t cd - 1)%Q in
          modify (fun p => set_intervals
                             (<[h := {| cd_id := cd_id cd; cd_el := cd_el cd; cd_t := t' |}]>
                                (intervals p)) p);;
          if JS.ltb t' 0
          then (q ← get; clearInterval (etaIntervals q !! cd_id cd))
          else mret tt
      end
  end.

(** [n] consecutive firings of the interval [h]. *)
Fixpoint eta_ticks (n : nat) (h : nat) : Js unit :=
  match n with
  | O => mret tt
  | S k => eta_tick h;; eta_ticks k h
  end.

(** ** Machine cards *)

Definition upper_ascii (c : ascii) : ascii :=
  let n := nat_of_ascii c in
  if (97 <=? n)%nat && (n <=? 122)%nat then ascii_of_nat (n - 32) else c.

Fixpoint toUpperCase (s : string) : string :=
  match s with
  | EmptyString => EmptyString
  | String c r => String (upper_ascii c) (toUpperCase r)
  end.

(** [renamedMachines[machine.id] || machine.name]. *)
Definition displayNameOf (r : gmap string string) (machine : Machine) : string :=
  JS.opt_or (r !! m_id machine) (m_name machine).

(** The value of the local [progressPercent]. *)
Definition progressPercentOf (machine : Machine) : Q :=
  match m_job machine ≫= progress_percent with
  | Some x => JS.min (JS.toFixed1 x) 100
  | None => 0
  end.

(** The [background-color] of the progress bar. *)
Definition barColor (progressPercent : Q) : string :=
  if JS.geb progressPercent 90 then "red"
  else if JS.geb progressPercent 75 then "orange" else "green".

(** The value of the local [remainingTimeText]. *)
Definition remainingTimeTextOf (machine : Machine) : string :=
  match m_job machine ≫= remaining_time with
  | Some t => formatTime (Some t)
  | None => "N/A"
  end.

(** The markup [cardHTML]; [node] is the span the markup creates when
    there is a job. *)
Definition cardHTML (r : gmap string string) (user : User) (machine : Machine)
    (loc : string) (node : nat) : CardView :=
  let displayName := displayNameOf r machine in
  let progressPercent := progressPercentOf machine in
  {| cv_title := displayName;
     cv_edit := if bool_decide (role user = "admin")
                then Some (loc, m_id machine, displayName) else None;
     cv_status := toUpperCase (m_status machine);
     cv_job := (fun j => {| jv_work_order := work_order j;
                            jv_size := size j;
                            jv_completed_qty := completed_qty j;
                            jv_total_qty := total_qty j;
                            jv_eta := node;
                            jv_progress := progressPercent;
                            jv_color := barColor progressPercent |}) <$> m_job machine;
     cv_controls := if bool_decide (role user = "operator")
                    then Some (loc, m_id machine) else None |}.

(** [createOrUpdateMachineCard(machine, location, parentGrid)];
    [parentGrid] is the index of the grid under #locations. Reading
    [currentUser.role] throws when nobody is logged in. *)
Definition createOrUpdateMachineCard (machine : Machine) (loc : string)
    (parentGrid : nat) : Js unit :=
  card ← getElementById_machine (m_id machine);
  p ← get;
  user ← match currentUser p with
         | Some u => mret u
         | None => throw (TypeError "currentUser is null")
         end;
  let node := next_node p in
  let view := cardHTML (renamedMachines p) user machine loc node in
  (* parsing the markup creates the span of the job block *)
  match m_job machine with
  | Some _ =>
      modify (fun p => set_next_node (S node)
                         (set_eta_text (<[node := remainingTimeTextOf machine]> (eta_text p)) p))
  | None => mret tt
  end;;
  match card with
  | Some (li, ci) =>
      modify (fun p => set_locations_el (update_card li ci view (locations_el p)) p)
  | None =>
      modify (fun p => set_locations_el
                         (append_card parentGrid
                            {| card_id := m_id machine;
                               card_class := "machine status-" +:+ m_status machine;
                               card_view := view |}
                            (locations_el p)) p)
  end;;
  match m_job machine ≫= remaining_time with
  | Some t => setupETACountdown (m_id machine) t
  | None => mret tt
  end.

(** [renderLocation(location, machines)]. *)
Definition renderLocation (loc : string) (machines : list Machine) : Js unit :=
  p ← get;
  let grid := length (locations_el p) in
  modify (fun p => set_locations_el
                     (locations_el p ++ [{| le_heading := loc; le_grid := [] |}]) p);;
  forEach machines (fun m => createOrUpdateMachineCard m loc grid).

(** ** The render pass *)

(** The filter of the search box on one machine. *)
Definition matchesSearch (searchFilter : string) (m : Machine) : bool :=
  JS.includes (JS.toLowerCase (m_name m)) searchFilter
  || JS.includes (JS.toLowerCase (JS.opt_or (work_order <$> m_job m) "")) searchFilter.

(** The machines of one location that pass the status filter and the
    search filter. *)
Definition filterMachines (statusFilter searchFilter : string)
    (machines : list Machine) : list Machine :=
  let machines :=
    if negb (bool_decide (statusFilter = "all"))
    then filter (fun m => m_status m = statusFilter) machines
    else machines in
  if JS.truthy searchFilter
  then filter (fun m => matchesSearch searchFilter m = true) machines
  else machines.

(** The locations that pass the user's scope and the location filter. *)
Definition filterLocations (user : User) (locFilter : string)
    (locs : list Location) : list Location :=
  let visibleLocations :=
    if bool_decide (location user = "all") then locs
    else filter (fun l => l_name l = location user) locs in
  if negb (bool_decide (locFilter = "all"))
  then filter (fun l => l_name l = locFilter) visibleLocations
  else visibleLocations.

(** [renderDashboard(data)], on the [locations] member of [data]. *)
Definition renderDashboard (data_locations : option (list Location)) : Js unit :=
  p ← get;
  match currentUser p with
  | None => mret tt
  | Some user =>
      modify (set_locations_el []);;
      match data_locations with
      | None => mret tt
      | Some locs =>
          let locFilter := JS.opt_or (filter_location p) "all" in
          let statusFilter := JS.opt_or (filter_status p) "all" in
          let searchFilter :=
            JS.opt_or ((fun v => JS.toLowerCase (JS.trim v)) <$> search_machine p) "" in
          forEach (filterLocations user locFilter locs) (fun loc =>
            renderLocation (l_name loc)
              (filterMachines statusFilter searchFilter (l_machines loc)))
      end
  end.

(** ** New-job events *)

(** The job object [handleNewJob] stores as [machine.job]. *)
Definition newCurrentJob (ev : NewJob) : Job :=
  {| work_order := ev_work_order ev;
     size := ev_pipe_size ev;
     completed_qty := 0;
     total_qty := ev_qty ev;
     remaining_time := ev_eta ev;
     progress_percent := Some 0%Q |}.

(** The object [handleNewJob] stores as [machine.next_job]. *)
Definition newNextJob (ev : NewJob) : NextJob :=
  {| nj_work_order := ev_work_order ev;
     nj_pipe_size := ev_pipe_size ev;
     nj_produced_qty := 0;
     nj_total_qty := ev_qty ev;
     nj_remaining_time := ev_eta ev |}.

(** The assignment inside [if(machine)]: [machine.job = ...] when the
    machine has no job or is idle, [machine.next_job = ...] otherwise. *)
Definition assignJob (ev : NewJob) (machine : Machine) : Machine :=
  if negb (bool_decide (is_Some (m_job machine))) || bool_decide (m_status machine = "idle")
  then {| m_id := m_id machine; m_name := m_name machine; m_status := m_status machine;
          m_job := Some (newCurrentJob ev); m_next_job := m_next_job machine |}
  else {| m_id := m_id machine; m_name := m_name machine; m_status := m_status machine;
          m_job := m_job machine; m_next_job := Some (newNextJob ev) |}.

(** The machine object at (li, mi) of [dashboardCache.locations] is
    mutated in place: the cache keeps its shape and that one entry
    changes. *)
Definition write_machine (li mi : nat) (machine : Machine) (p : Page) : Page :=
  set_dashboardCache
    {| locations :=
         alter (fun l => {| l_name := l_name l;
                            l_machines := <[mi := machine]> (l_machines l) |}) li
           <$> locations (dashboardCache p);
       new_job := new_job (dashboardCache p) |}
    p.

(** The loop [for(const loc of dashboardCache.locations)] from the
    location of index [li] on; it ends at the first location that holds a
    machine of the event's id ([break]). *)
Fixpoint handleNewJob_scan (ev : NewJob) (li : nat) (locs : list Location) : Js unit :=
  match locs with
  | [] => mret tt
  | loc :: rest =>
      match list_find (fun m => m_id m = ev_machine_id ev) (l_machines loc) with
      | Some (mi, machine) =>
          let machine' := assignJob ev machine in
          modify (write_machine li mi machine');;
          machineEl ← getElementById_machine (ev_machine_id ev);
          match machineEl with
          | Some (grid, _) => createOrUpdateMachineCard machine' (l_name loc) grid
          | None => mret tt
          end
      | None => handleNewJob_scan ev (S li) rest
      end
  end.

(** [handleNewJob(job)]. Iterating [dashboardCache.locations] throws when
    the cache has no [locations]. *)
Definition handleNewJob (ev : NewJob) : Js unit :=
  p ← get;
  match locations (dashboardCache p) with
  | None => throw (TypeError "dashboardCache.locations is not iterable")
  | Some locs => handleNewJob_scan ev 0 locs
  end;;
  q ← get;
  createAlert ("✅ New Job Assigned to "
               +:+ JS.opt_or (renamedMachines q !! ev_machine_id ev) (ev_machine_name ev)
               +:+ ": " +:+ ev_work_order ev) 0.

(** ** Transports *)

(** [socket.onmessage]; [payload] is the result of [JSON.parse(e.data)],
    [None] when the text does not parse. After [dashboardCache = data]
    the names [data] and [dashboardCache] denote one object, so what
    [handleNewJob] writes into the cache is what the later reads of
    [data.locations] see. The metrics table, the ERP table and the
    production log are outside the model. *)
Definition socket_onmessage (payload : option Message) : Js unit :=
  try_catch
    (data ← match payload with
            | Some d => mret d
            | None => throw SyntaxError
            end;
     modify (set_dashboardCache data);;
     p ← get;
     if suppressNextWSRender p
     then modify (set_suppressNextWSRender false)
     else
       match new_job data with
       | Some ev => handleNewJob ev
       | None => mret tt
       end;;
       q ← get;
       match locations (dashboardCache q) with
       | Some locs => renderDashboard (Some locs)
       | None => mret tt
       end;;
       q' ← get;
       handleAlerts (dashboardCache q'))
    (fun _ => createAlert "WebSocket data error" 2).

(** [loadDashboard] from the point where the response of [GET /dashboard]
    is in: [Some data] for a parsed body of an ok response, [None] for a
    failed request. The guard on [currentUser] ran when the request was
    issued. The metrics table and the ERP table are outside the model. *)
Definition loadDashboard_done (response : option Message) : Js unit :=
  try_catch
    (data ← match response with
            | Some d => mret d
            | None => throw FetchError
            end;
     modify (set_dashboardCache data);;
     renderDashboard (locations data))
    (fun _ => createAlert "Backend not reachable. Retry in 3s" 2).

(** ** Machine actions *)

(** [machineAction(e, action, location, id)] from the point where the
    response is in: [Some reply] for a parsed body, [None] when [fetch] or
    [res.json()] rejects. *)
Definition machineAction_done (action loc id : string)
    (response : option ActionReply) : Js unit :=
  try_catch
    (data ← match response with
            | Some d => mret d
            | None => throw FetchError
            end;
     if negb (ar_ok data)
     then window_alert ("❌ " +:+ action +:+ " failed")
     else
       card ← getElementById_machine id;
       match card, ar_machine data with
       | Some (grid, _), Some machine => createOrUpdateMachineCard machine loc grid
       | _, _ => mret tt
       end)
    (fun _ => window_alert ("❌ " +:+ action +:+ " failed")).

(** ** Machine rename *)

(** [h3.childNodes[0].nodeValue = text] on a card whose title is not
    empty: the first child of the h3 is the text node of the title. *)
Definition set_title (text : string) (c : CardEl) : CardEl :=
  {| card_id := card_id c;
     card_class := card_class c;
     card_view :=
       {| cv_title := text;
          cv_edit := cv_edit (card_view c);
          cv_status := cv_status (card_view c);
          cv_job := cv_job (card_view c);
          cv_controls := cv_controls (card_view c) |} |}.

(** The statement [h3.childNodes[0].nodeValue = text] on the card at
    (li, ci). With an empty title the markup has no text node: the first
    child is the edit button when there is one, and assigning [nodeValue]
    of an element does nothing; with no child at all the statement
    throws. *)
Definition write_title (li ci : nat) (text : string) : Js unit :=
  p ← get;
  match card_at li ci p with
  | None => mret tt
  | Some c =>
      if JS.truthy (cv_title (card_view c))
      then modify (fun p => set_locations_el
                              (alter (fun le =>
                                        {| le_heading := le_heading le;
                                           le_grid := alter (set_title text) ci (le_grid le) |})
                                     li (locations_el p)) p)
      else match cv_edit (card_view c) with
           | Some _ => mret tt
           | None => throw (TypeError "h3.childNodes[0] is undefined")
           end
  end.

(** [editMachineName(e, location, machineId, oldName)]: [answer] is what
    [prompt] returned ([None] for cancel), [response] the [ok] member of
    the reply of [POST /machine/rename] ([None] when the request fails). *)
Definition editMachineName (loc machineId oldName : string)
    (answer : option string) (response : option bool) : Js unit :=
  match answer with
  | None => mret tt
  | Some newName =>
      if negb (JS.truthy newName) || bool_decide (JS.trim newName = oldName)
      then mret tt
      else
        try_catch
          (ok ← match response with
                | Some b => mret b
                | None => throw FetchError
                end;
           if negb ok
           then window_alert "❌ Rename failed"
           else
             modify (fun p => set_renamedMachines
                                (<[machineId := JS.trim newName]> (renamedMachines p)) p);;
             card ← getElementById_machine machineId;
             match card with
             | Some (li, ci) => write_title li ci (newName +:+ " ")
             | None => mret tt
             end;;
             createAlert ("✅ Machine renamed to " +:+ newName) 0)
          (fun _ => window_alert "❌ Rename error")
  end.

(** ** Vocabulary of the properties *)

(** The part of the page that card rendering never writes. *)
Definition app_state (p : Page) :=
  (currentUser p, suppressNextWSRender p, dashboardCache p, renamedMachines p,
   filter_location p, filter_status p, search_machine p, alerts_el p, dialogs p).

(** Triples for handlers: from a page satisfying [P], a normal end
    satisfies [Q] and an exceptional end satisfies [E]. *)
Definition hoare {A : Type} (P : Page -> Prop) (m : Js A)
    (Q : A -> Page -> Prop) (E : exn -> Page -> Prop) : Prop :=
  forall p, P p ->
    match m p with
    | (p', Returns a) => Q a p'
    | (p', Throws e) => E e p'
    end.

(** The element [createOrUpdateMachineCard] creates for a machine. *)
Definition card_of (machine : Machine) (view : CardView) : CardEl :=
  {| card_id := m_id machine;
     card_class := "machine status-" +:+ m_status machine;
     card_view := view |}.

(** The interval [h] is active, counts down for machine [id] on the span
    [e] with counter [t], and is the one recorded in [etaIntervals]. *)
Definition Running (h : nat) (id : string) (e : nat) (t : Q) (p : Page) : Prop :=
  intervals p !! h = Some {| cd_id := id; cd_el := Some e; cd_t := t |}
  ∧ etaIntervals p !! id = Some h.

(** Every card of machine [M] is titled [N]. *)
Definition Titled (M N : string) (p : Page) : Prop :=
  forall le c, le ∈ locations_el p -> c ∈ le_grid le -> card_id c = M ->
    cv_title (card_view c) = N.

(** User [u] is logged in, machine [M] carries the overlay name [N], and
    the suppression flag is down. *)
Definition LoggedIn (u : User) (M N : string) (p : Page) : Prop :=
  currentUser p = Some u ∧ renamedMachines p !! M = Some N
  ∧ suppressNextWSRender p = false.

(** ... and every card of [M] is titled [N]. *)
Definition Rendered (u : User) (M N : string) (p : Page) : Prop :=
  LoggedIn u M N p ∧ Titled M N p.

(** ... and the cached snapshot has its [locations]. *)
Definition Ready (u : User) (M N : string) (p : Page) : Prop :=
  LoggedIn u M N p ∧ is_Some (locations (dashboardCache p)).

(** The application state is [a]. *)
Definition Same (a : option User * bool * Message * gmap string string * option string
                     * option string * option string * option (list AlertEl) * list string)
    (p : Page) : Prop :=
  app_state p = a.

(** A full snapshot arriving by poll or by push. *)
Inductive Refresh :=
  | Poll (locs : list Location)
  | Push (locs : list Location) (ev : option NewJob).

Definition deliver (r : Refresh) : Js unit :=
  match r with
  | Poll locs => loadDashboard_done (Some {| locations := Some locs; new_job := None |})
  | Push locs ev => socket_onmessage (Some {| locations := Some locs; new_job := ev |})
  end.

(** The machine at position [j] of the location of index [i] of the
    cached snapshot. *)
Definition machine_at (i j : nat) (p : Page) : option Machine :=
  locations (dashboardCache p) ≫= fun locs => locs !! i ≫= fun loc => l_machines loc !! j.

(** The text of the alert [handleNewJob] posts. *)
Definition newJobAlert (r : gmap string string) (ev : NewJob) : AlertEl :=
  {| alert_text := "✅ New Job Assigned to "
                   +:+ JS.opt_or (r !! ev_machine_id ev) (ev_machine_name ev)
                   +:+ ": " +:+ ev_work_order ev;
     alert_color := "#ff9800" |}.

(** ** The claims as predicates *)

(** The display names of the cards under #locations, in document order. *)
Definition rendered_titles (p : Page) : list string :=
  (fun c => cv_title (card_view c)) <$> cards p.

(** Every card of machine [M] shows the overlay name recorded for [M]. *)
Definition renders_overlay (M : string) (p : Page) : Prop :=
  forall N c, renamedMachines p !! M = Some N -> c ∈ cards p -> card_id c = M ->
    cv_title (card_view c) = N.

(** A new-job event leaves no trace: state and cards as before, no
    exception, no alert in the panel and no dialog. *)
Definition dropped_silently (ev : NewJob) (p : Page) : Prop :=
  let p' := exec (handleNewJob ev) p in
  result (handleNewJob ev) p = Returns tt
  ∧ dashboardCache p' = dashboardCache p
  ∧ locations_el p' = locations_el p
  ∧ alerts_el p' = alerts_el p
  ∧ dialogs p' = dialogs p.

(** The record an action returned sits in the cached snapshot at
    position (li, mi). *)
Definition action_result_applied (li mi : nat) (returned : Machine) (p : Page) : Prop :=
  machine_at li mi p = Some returned.

(** ** Sample pages *)

Module Fixture.

(** Two entries of the table [users] of the script. *)
Definition operator : User :=
  {| username := "1111"; password := "1111"; location := "Modan"; role := "operator" |}.

Definition admin : User :=
  {| username := "Admin"; password := "12345"; location := "all"; role := "admin" |}.

(** A page right after login: empty cache, nothing rendered, the given
    values in the status filter and the search box. *)
Definition page_blank (u : User) (status search : string) : Page :=
  {| currentUser := Some u;
     suppressNextWSRender := false;
     dashboardCache := {| locations := None; new_job := None |};
     renamedMachines := ∅;
     etaIntervals := ∅;
     filter_location := Some "all";
     filter_status := Some status;
     search_machine := Some search;
     locations_el := [];
     eta_text := ∅;
     next_node := 0;
     alerts_el := Some [];
     intervals := ∅;
     next_interval := 0;
     dialogs := [] |}.

Definition job_A : Job :=
  {| work_order := "WO-1"; size := "20mm"; completed_qty := 5; total_qty := 10;
     remaining_time := Some 3%Q; progress_percent := Some (823 # 10)%Q |}.

Definition machine_A : Machine :=
  {| m_id := "1"; m_name := "A1"; m_status := "running";
     m_job := Some job_A; m_next_job := None |}.

Definition machine_B : Machine :=
  {| m_id := "2"; m_name := "B2"; m_status := "idle";
     m_job := None; m_next_job := None |}.

Definition modan : list Location :=
  [ {| l_name := "Modan"; l_machines := [machine_A; machine_B] |} ].

Definition snapshot : Message := {| locations := Some modan; new_job := None |}.

(** The operator's page once the first snapshot is in. *)
Definition page_live : Page :=
  exec (loadDashboard_done (Some snapshot)) (page_blank operator "all" "").

(** The admin's page once the first snapshot is in. *)
Definition page_admin : Page :=
  exec (loadDashboard_done (Some snapshot)) (page_blank admin "all" "").

Definition event_for (id : string) : NewJob :=
  {| ev_machine_id := id; ev_work_order := "WO-9"; ev_qty := 7;
     ev_pipe_size := "32mm"; ev_eta := Some 60%Q; ev_machine_name := "B2" |}.

(** The record a successful start of machine 2 returns. *)
Definition machine_B_started : Machine :=
  {| m_id := "2"; m_name := "B2"; m_status := "running";
     m_job := None; m_next_job := None |}.

(** The admin answers the rename prompt of machine 1 with one blank. *)
Definition page_blank_rename : Page :=
  exec (editMachineName "Modan" "1" "A1" (Some " ") (Some true)) page_admin.

(** The admin renames machine 1 to "Line A". *)
Definition page_renamed : Page :=
  exec (editMachineName "Modan" "1" "A1" (Some "Line A") (Some true)) page_admin.

(** The page of the admin with machine 1 renamed and a text in the
    search box. *)
Definition page_search (search : string) : Page :=
  set_renamedMachines {[ "1" := "Line A" ]} (page_blank admin "all" search).

(** A later snapshot in which machine 1 no longer appears. *)
Definition snapshot_without_A : Message :=
  {| locations := Some [ {| l_name := "Modan"; l_machines := [machine_B] |} ];
     new_job := None |}.

(** Two later refreshes of the renamed page: a poll, then a push that
    also carries a job for machine 1. *)
Definition refreshes : list Refresh :=
  [Poll modan; Push modan (Some (event_for "1"))].

Definition page_refreshed : Page := exec (forEach refreshes deliver) page_renamed.

(** The page after a refresh that follows the blank rename. *)
Definition page_blank_refreshed : Page :=
  exec (loadDashboard_done (Some snapshot)) page_blank_rename.

(** The reply to a successful start of machine 2, and the pages after a
    successful and after a failed start. *)
Definition start_reply : ActionReply :=
  {| ar_ok := true; ar_machine := Some machine_B_started |}.

Definition page_started : Page :=
  exec (machineAction_done "start" "Modan" "2" (Some start_reply)) page_live.

Definition page_start_failed : Page :=
  exec (machineAction_done "start" "Modan" "2" None) page_live.

(** The page after a new-job event for a machine nobody knows. *)
Definition page_unknown_job : Page := exec (handleNewJob (event_for "77")) page_live.

(** The live page once machine 1 has left the snapshot, and after the
    next firing of its countdown. *)
Definition page_A_removed : Page :=
  exec (loadDashboard_done (Some snapshot_without_A)) page_live.

Definition page_A_removed_ticked : Page := exec (eta_tick 0) page_A_removed.

(** A countdown of three seconds started on the card of machine 1. *)
Definition page_counting : Page := exec (setupETACountdown "1" 3%Q) page_live.

End Fixture.

(** ** Vocabulary of the further properties *)

(** A number below one hundred on two decimal digits. *)
Definition two_digits (s : Z) : string := JS.showZ (s / 10) +:+ JS.showZ (s mod 10).

(** The ids of the cards under #locations, in document order. *)
Definition card_ids (p : Page) : list string := card_id <$> cards p.

(** Every active interval is the one recorded for its machine in
    [etaIntervals], and its handle was handed out by [setInterval]. *)
Definition TimersOk (p : Page) : Prop :=
  forall h cd, intervals p !! h = Some cd ->
    etaIntervals p !! cd_id cd = Some h ∧ (h < next_interval p)%nat.

(** ** Login, logout and the location filter *)

Definition set_currentUser (u : option User) (p : Page) : Page :=
  {| currentUser := u; suppressNextWSRender := suppressNextWSRender p;
     dashboardCache := dashboardCache p; renamedMachines := renamedMachines p;
     etaIntervals := etaIntervals p; filter_location := filter_location p;
     filter_status := filter_status p; search_machine := search_machine p;
     locations_el := locations_el p; eta_text := eta_text p;
     next_node := next_node p; alerts_el := alerts_el p;
     intervals := intervals p; next_interval := next_interval p;
     dialogs := dialogs p |}.

Definition set_filter_location (v : option string) (p : Page) : Page :=
  {| currentUser := currentUser p; suppressNextWSRender := suppressNextWSRender p;
     dashboardCache := dashboardCache p; renamedMachines := renamedMachines p;
     etaIntervals := etaIntervals p; filter_location := v;
     filter_status := filter_status p; search_machine := search_machine p;
     locations_el := locations_el p; eta_text := eta_text p;
     next_node := next_node p; alerts_el := alerts_el p;
     intervals := intervals p; next_interval := next_interval p;
     dialogs := dialogs p |}.

(** The table [users] of the script. *)
Definition users : list User :=
  [ {| username := "1111"; password := "1111"; location := "Modan"; role := "operator" |};
    {| username := "2222"; password := "2222"; location := "Baldeya"; role := "operator" |};
    {| username := "3333"; password := "3333"; location := "Al-Khraj"; role := "operator" |};
    {| username := "Admin"; password := "12345"; location := "all"; role := "admin" |} ].

(** The values of the options [initFilters] leaves in the location
    select for a table [us] of users: "all", then every location other
    than "all" that is not an option yet. *)
Definition initFilters_options (us : list User) : list string :=
  foldl (fun opts u => if bool_decide (location u ∈ opts) then opts
                       else (opts ++ [location u])%list)
        ["all"] (filter (fun u => location u <> "all") us).

(** [initFilters()]. Rebuilding the options leaves the first one, "all",
    selected. The listeners are attached to the status filter and to the
    search box without a test for their presence. *)
Definition initFilters : Js unit :=
  p ← get;
  match filter_location p with
  | None => mret tt
  | Some _ =>
      modify (set_filter_location (Some "all"));;
      match filter_status p with
      | None => throw (TypeError "filter-status is null")
      | Some _ =>
          match search_machine p with
          | None => throw (TypeError "search-machine is null")
          | Some _ => mret tt
          end
      end
  end.

(** The submit handler of the login form on the values of the two
    fields, as far as the page goes: the assignment to [currentUser],
    the dialog and [initFilters]. Left out are [saveLogin]
    ([localStorage]), the two [classList] statements on the login and
    dashboard sections, the opening of the socket and the two requests
    issued at the end; the answers to these arrive as events. What is
    proved of this handler speaks of [currentUser] and of the dialogs
    only, which none of the statements left out touches. *)
Definition login_submit (username_value password_value : string) : Js unit :=
  let u := JS.trim username_value in
  let pw := JS.trim password_value in
  match list_find (fun x => username x = u ∧ password x = pw) users with
  | None => window_alert "Invalid login"
  | Some (_, user) => modify (set_currentUser (Some user));; initFilters
  end.

(** [logout()], as far as the page goes: the assignment to
    [currentUser], which comes first. [localStorage] and the two
    [classList] statements are left out. *)
Definition logout : Js unit := modify (set_currentUser None).

(** [restoreLogin()]; [saved] is the user stored by [saveLogin], if any. *)
Definition restoreLogin (saved : option User) : Js unit :=
  match saved with
  | Some u => modify (set_currentUser (Some u));; initFilters
  | None => mret tt
  end.

(** ** Events *)

(** What can happen to a page: an interval fires; a push message
    arrives; the replies to a poll (the locations of an ok response), to
    a machine action and to a rename come in; the socket opens ([sent]:
    whether [socket.send("ready")] went through; it throws when the
    global [socket] is by then null or another socket that is not open)
    or closes; the request for the production log fails; the login form
    is submitted; the user logs out; the page is loaded. *)
Inductive Event :=
  | Tick (h : nat)
  | PushMessage (payload : option Message)
  | PollDone (response : option (list Location))
  | ActionDone (action loc id : string) (response : option ActionReply)
  | RenameDone (loc machineId oldName : string) (answer : option string)
      (response : option bool)
  | SocketOpen (sent : bool)
  | SocketClose
  | LogsFailed
  | LoginSubmit (username_value password_value : string)
  | Logout
  | PageLoad (saved : option User).

Definition handle (ev : Event) : Js unit :=
  match ev with
  | Tick h => eta_tick h
  | PushMessage payload => socket_onmessage payload
  | PollDone response =>
      loadDashboard_done
        ((fun locs => {| locations := Some locs; new_job := None |}) <$> response)
  | ActionDone action loc id response => machineAction_done action loc id response
  | RenameDone loc machineId oldName answer response =>
      editMachineName loc machineId oldName answer response
  | SocketOpen sent =>
      if sent then createAlert "WebSocket connected" 0
      else throw (TypeError "socket.send")
  | SocketClose => createAlert "WebSocket disconnected. Reconnecting..." 2
  | LogsFailed => createAlert "Failed to fetch production logs" 2
  | LoginSubmit username_value password_value =>
      login_submit username_value password_value
  | Logout => logout
  | PageLoad saved => restoreLogin saved
  end.

(** An exception that escapes a handler ends that handler only. *)
Definition dispatch (ev : Event) : Js unit :=
  try_catch (handle ev) (fun _ => mret tt).

(** The handlers in which every statement that can throw sits inside a
    [try] block, or which cannot throw at all: the interval callback,
    [socket.onmessage], the continuations of [loadDashboard],
    [machineAction] and [editMachineName], [socket.onclose] and the
    [catch] branch of [loadProductionLogs]. The others call
    [socket.send], [initFilters] or [classList] methods unguarded. *)
Definition guarded (ev : Event) : bool :=
  match ev with
  | Tick _ | PushMessage _ | PollDone _ | ActionDone _ _ _ _
  | RenameDone _ _ _ _ _ | SocketClose | LogsFailed => true
  | _ => false
  end.

(** The progress alert of one machine: none without a job, without a
    progress value or below 75; otherwise the band of the value decides
    text and colour. *)
Definition progressAlert (r : gmap string string) (m : Machine) : option AlertEl :=
  match m_job m ≫= progress_percent with
  | None => None
  | Some pr =>
      let who := displayNameOf r m in
      if Qlt_le_dec pr 75 then None
      else if Qlt_le_dec pr 90
      then Some {| alert_text := who +:+ " reached 75% progress!"; alert_color := "#ff9800" |}
      else if Qlt_le_dec pr 100
      then Some {| alert_text := who +:+ " reached 90% progress!"; alert_color := "#f44336" |}
      else Some {| alert_text := who +:+ " completed!"; alert_color := "#2196f3" |}
  end.

(** [createAlert] prepends: the alert of a machine goes in front of those
    collected so far. *)
Definition add_alert (r : gmap string string) (acc : list AlertEl) (m : Machine)
  : list AlertEl :=
  match progressAlert r m with
  | Some a => a :: acc
  | None => acc
  end.

(** The progress alerts of a snapshot, the last machine's first. *)
Definition progressAlerts (r : gmap string string) (locs : list Location) : list AlertEl :=
  reverse (omap (progressAlert r) (concat (l_machines <$> locs))).

(** ** The text of the progress line *)

(** [String(x)] for a number [x] that is the whole number [n] of tenths:
    the integer part, then a point and the tenths digit unless that
    digit is 0. *)
Definition showTenths (n : Z) : string :=
  (if (n <? 0)%Z then "-" else "")
  +:+ JS.showZ (Z.abs n / 10)
  +:+ (if (Z.abs n mod 10 =? 0)%Z then "" else "." +:+ JS.showZ (Z.abs n mod 10)).

(** The string [x.toFixed(1)]: the rounded value with its tenths digit,
    whatever the digit. *)
Definition toFixed1_text (x : Q) : string :=
  let n := Qfloor (JS.toFixed1 x * 10) in
  (if JS.ltb x 0 then "-" else "")
  +:+ JS.showZ (Z.abs n / 10) +:+ "." +:+ JS.showZ (Z.abs n mod 10).

(** The text [${progressPercent}] of the line "Progress: ...%" in the job
    block: [progressPercent] is a Number by then, [Math.min] having
    converted the string of [toFixed(1)] back. *)
Definition jv_progress_text (jv : JobView) : string :=
  showTenths (Qfloor (jv_progress jv * 10)).

(** The values [renderDashboard] reads from the filter controls. *)
Definition locFilterOf (p : Page) : string := JS.opt_or (filter_location p) "all".
Definition statusFilterOf (p : Page) : string := JS.opt_or (filter_status p) "all".
Definition searchFilterOf (p : Page) : string :=
  JS.opt_or ((fun v => JS.toLowerCase (JS.trim v)) <$> search_machine p) "".

(** The locations [renderDashboard] renders for user [u], and the
    machines it renders of one of them. *)
Definition visibleLocations (u : User) (p : Page) (locs : list Location) : list Location :=
  filterLocations u (locFilterOf p) locs.

Definition visibleMachines (p : Page) (loc : Location) : list Machine :=
  filterMachines (statusFilterOf p) (searchFilterOf p) (l_machines loc).

(** The headings under #locations, in document order. *)
Definition headings (p : Page) : list string := le_heading <$> locations_el p.

(** Card [c] shows machine [m] of location [loc] as user [u] sees it. *)
Definition shows (r : gmap string string) (u : User) (loc : Location) (m : Machine)
    (c : CardEl) : Prop :=
  card_id c = m_id m
  ∧ exists node, card_view c = cardHTML r u m (l_name loc) node.

(** The state of a render pass for user [u] with overlay [r]:
    [processed] lists, in order, the locations that have their heading
    and the machines of each that have been rendered. *)
Definition Rendering (r : gmap string string) (u : User)
    (processed : list (Location * list Machine)) (p : Page) : Prop :=
  currentUser p = Some u
  ∧ renamedMachines p = r
  ∧ headings p = (fun x => l_name x.1) <$> processed
  ∧ (forall c, c ∈ cards p ->
       exists loc ms m, (loc, ms) ∈ processed ∧ m ∈ ms ∧ shows r u loc m c)
  ∧ (forall loc ms m, (loc, ms) ∈ processed -> m ∈ ms -> m_id m ∈ card_ids p).

(** The headings under #locations with the ids of the cards in their
    grids, in document order. *)
Definition layout (p : Page) : list (string * list string) :=
  (fun le => (le_heading le, card_id <$> le_grid le)) <$> locations_el p.

(** The layout a render pass aims at: one heading for each visible
    location, with one card for each visible machine. *)
Definition layoutOf (u : User) (p : Page) (locs : list Location)
    : list (string * list string) :=
  (fun loc => (l_name loc, m_id <$> visibleMachines p loc)) <$> visibleLocations u p locs.

(** The events that are neither a login, a page load nor the reply to
    a rename. *)
Definition unattended (ev : Event) : bool :=
  match ev with
  | LoginSubmit _ _ | PageLoad _ | RenameDone _ _ _ _ _ => false
  | _ => true
  end.

(** Nobody is logged in and the children of #locations are [les]. *)
Definition Frozen (les : list LocationEl) (q : Page) : Prop :=
  currentUser q = None ∧ locations_el q = les.

(** In addition the texts of the ETA spans are [texts]. *)
Definition FrozenTexts (les : list LocationEl) (texts : gmap nat string) (q : Page) : Prop :=
  Frozen les q ∧ eta_text q = texts.

Definition is_tick (ev : Event) : bool :=
  match ev with
  | Tick _ => true
  | _ => false
  end.

(** The names of the locations of the cached snapshot, in order. *)
Definition location_names (p : Page) : option (list string) :=
  (fun locs : list Location => l_name <$> locs) <$> locations (dashboardCache p).

(** What a rename of machine [M] may have done to the page [p]: the
    cache, the user and the timers are as in [p], the overlay differs
    at [M] at most, and a card differs by its title at most, and only if
    it is a card of [M]. *)
Definition RenameFrame (M : string) (p q : Page) : Prop :=
  dashboardCache q = dashboardCache p
  ∧ currentUser q = currentUser p
  ∧ intervals q = intervals p
  ∧ etaIntervals q = etaIntervals p
  ∧ eta_text q = eta_text p
  ∧ (forall id, id <> M -> renamedMachines q !! id = renamedMachines p !! id)
  ∧ (forall li ci,
       card_at li ci q = card_at li ci p
       ∨ exists c text, card_at li ci p = Some c ∧ card_id c = M
                        ∧ card_at li ci q = Some (set_title text c)).

(** Every handle recorded in [etaIntervals] was handed out by
    [setInterval], and no two machines share one. *)
Definition RegistryOk (p : Page) : Prop :=
  forall id h, etaIntervals p !! id = Some h ->
    (h < next_interval p)%nat
    ∧ forall id', etaIntervals p !! id' = Some h -> id' = id.

(** Machine [m], if its job has a remaining time [t], has a countdown
    running from [t] on the span of its card. *)
Definition Counting (m : Machine) (q : Page) : Prop :=
  forall j t, m_job m = Some j -> remaining_time j = Some t ->
    exists h e,
      Running h (m_id m) e t q
      ∧ exists c, c ∈ cards q ∧ card_id c = m_id m
                  ∧ jv_eta <$> cv_job (card_view c) = Some e.

(** The countdowns while a render pass is at work: the machines [done]
    have their cards, the grid in use is the last one. *)
Definition RenderTimers (u : User) (grids : nat) (done : list Machine) (q : Page) : Prop :=
  currentUser q = Some u
  ∧ length (locations_el q) = grids
  ∧ TimersOk q ∧ RegistryOk q ∧ NoDup (card_ids q)
  ∧ (NoDup (m_id <$> done) -> forall m, m ∈ done -> Counting m q).

(** What the push flow relies on between its steps: a user, the rename
    overlay [r], the alerts panel and a cache with [locations]. *)
Definition PushReady (u : User) (r : gmap string string) (q : Page) : Prop :=
  currentUser q = Some u ∧ renamedMachines q = r
  ∧ is_Some (alerts_el q) ∧ is_Some (locations (dashboardCache q)).

(** ** A sample session *)

Module Scenario.

(** The page as loaded: nobody logged in, the filter controls and the
    alerts panel in place, nothing rendered, no interval running. *)
Definition page_loaded : Page :=
  {| currentUser := None;
     suppressNextWSRender := false;
     dashboardCache := {| locations := None; new_job := None |};
     renamedMachines := ∅;
     etaIntervals := ∅;
     filter_location := Some "all";
     filter_status := Some "all";
     search_machine := Some "";
     locations_el := [];
     eta_text := ∅;
     next_node := 0;
     alerts_el := Some [];
     intervals := ∅;
     next_interval := 0;
     dialogs := [] |}.

(** The operator of Modan logs in, a poll and a push with a new job for
    machine 2 arrive, the countdown of machine 1 fires, machine 2 is
    started, the operator logs out and one more push arrives. *)
Definition session : list Event :=
  [ LoginSubmit " 1111" "1111 ";
    PollDone (Some Fixture.modan);
    PushMessage (Some {| locations := Some Fixture.modan;
                         new_job := Some (Fixture.event_for "2") |});
    Tick 2;
    ActionDone "start" "Modan" "2" (Some Fixture.start_reply);
    Logout;
    PushMessage (Some Fixture.snapshot) ].

Definition page_after_session : Page := exec (forEach session dispatch) page_loaded.

(** The operator's page with the status filter on "idle", and the card
    of machine 2 a render pass puts on it. *)
Definition page_idle : Page := Fixture.page_blank Fixture.operator "idle" "".

Definition card_B : CardEl :=
  card_of Fixture.machine_B (cardHTML ∅ Fixture.operator Fixture.machine_B "Modan" 0).

(** The operator's page after a first poll. *)
Definition page_polled : Page :=
  exec (forEach [PollDone (Some Fixture.modan)] dispatch)
    (Fixture.page_blank Fixture.operator "all" "").

(** The live page after the user has logged out. *)
Definition page_left : Page := set_currentUser None Fixture.page_live.

(** A machine whose job stands at [x] percent, and the operator's page
    once a snapshot with that machine alone is in. *)
Definition machine_at_percent (x : Q) : Machine :=
  {| m_id := "1"; m_name := "A1"; m_status := "running";
     m_job := Some {| work_order := "WO-1"; size := "20mm"; completed_qty := 5;
                      total_qty := 10; remaining_time := Some 3%Q;
                      progress_percent := Some x |};
     m_next_job := None |}.

Definition page_at_percent (x : Q) : Page :=
  exec (loadDashboard_done
          (Some {| locations := Some [ {| l_name := "Modan";
                                          l_machines := [machine_at_percent x] |} ];
                   new_job := None |}))
    (Fixture.page_blank Fixture.operator "all" "").

(** The text of the progress line on the first card of a page. *)
Definition progress_line (p : Page) : option string :=
  card_at 0 0 p ≫= fun c => jv_progress_text <$> cv_job (card_view c).


End Scenario.

(** * Properties *)

#[local] Arguments formatTime : simpl never.
#[local] Arguments setupETACountdown : simpl never.

Lemma string_of_uint_nonempty (d : Decimal.uint) :
  (1 <= String.length (NilZero.string_of_uint d))%nat.
Proof. destruct d; simpl; lia. Qed.

Lemma showZ_nonempty (z : Z) : (1 <= String.length (JS.showZ z))%nat.
Proof.
  unfold JS.showZ. destruct (Z.to_int z) as [d|d]; simpl.
  - apply string_of_uint_nonempty.
  - lia.
Qed.

Lemma padStart_pad2 (s : string) :
  (1 <= String.length s)%nat -> JS.padStart 2 "0" s = pad2 s.
Proof.
  intros H. unfold JS.padStart, pad2.
  destruct s as [|a [|b r]]; simpl in *; try lia; reflexivity.
Qed.

Lemma Qnum_div60_nonneg (d : Q) : (0 <= d)%Q -> (0 <= Qnum (d / 60))%Z.
Proof.
  intros H. unfold Qle in H. simpl in *. lia.
Qed.

Lemma trunc_floor_nonneg (x : Q) : (0 <= Qnum x)%Z -> JS.trunc x = Qfloor x.
Proof.
  intros H. unfold JS.trunc. destruct x as [n d]; simpl in *.
  apply Z.quot_div_nonneg; lia.
Qed.

Lemma is_zero_Qeq (d : Q) : JS.is_zero d = true <-> (d == 0)%Q.
Proof.
  unfold JS.is_zero, Qeq. simpl. rewrite Z.eqb_eq. lia.
Qed.

Lemma ltb_lt (x y : Q) : JS.ltb x y = true <-> (x < y)%Q.
Proof.
  unfold JS.ltb. rewrite negb_true_iff. 
  destruct (Qle_bool y x) eqn:E.
  - apply Qle_bool_iff in E. split; [discriminate|]. intros H. exfalso. apply (Qlt_not_le _ _ H E).
  - split; [|reflexivity]. intros _. apply Qnot_le_lt. intros H.
    apply Qle_bool_iff in H. congruence.
Qed.

Lemma geb_le (x y : Q) : JS.geb x y = true <-> (y <= x)%Q.
Proof. unfold JS.geb. apply Qle_bool_iff. Qed.

Lemma formatTime_ref_zero (d : Q) : (d == 0)%Q -> formatTime_ref (Some d) = "0:00".
Proof.
  intros H. unfold formatTime_ref.
  destruct (Qlt_le_dec d 0) as [_|_]; [reflexivity|].
  assert (H1 : Qfloor (d / 60) = 0%Z).
  { rewrite (Qfloor_comp (d / 60) 0); [reflexivity|]. rewrite H. reflexivity. }
  assert (H2 : Qfloor (Qmod d 60) = 0%Z).
  { unfold Qmod. rewrite H1. rewrite (Qfloor_comp _ 0); [reflexivity|]. rewrite H. reflexivity. }
  rewrite H1, H2. reflexivity.
Qed.

Lemma formatTime_eq_ref (sec : option Q) : formatTime sec = formatTime_ref sec.
Proof.
  destruct sec as [d|]; [|reflexivity].
  unfold formatTime.
  destruct (JS.is_zero d) eqn:Ez; simpl.
  - symmetry. apply formatTime_ref_zero. by apply is_zero_Qeq.
  - unfold formatTime_ref. destruct (Qlt_le_dec d 0) as [Hlt|Hle].
    + apply ltb_lt in Hlt. by rewrite Hlt.
    + destruct (JS.ltb d 0) eqn:El.
      { apply ltb_lt in El. exfalso. apply (Qlt_not_le _ _ El Hle). }
      unfold JS.floor, JS.rem, Qmod.
      rewrite (trunc_floor_nonneg (d / 60)) by (by apply Qnum_div60_nonneg).
      rewrite padStart_pad2 by apply showZ_nonempty.
      reflexivity.
Qed.

(** C8: [formatTime] equals the reference definition: "0:00" for a
    negative or degenerate duration, and for [d >= 0] the minutes
    [floor(d/60)], a colon and [floor(d mod 60)] on two digits. *)
Theorem formatTime_matches_reference (sec : option Q) :
  formatTime sec = formatTime_ref sec.
Proof. apply formatTime_eq_ref. Qed.

Lemma formatTime_negative (d : Q) : (d < 0)%Q -> formatTime (Some d) = "0:00".
Proof.
  intros H. rewrite formatTime_eq_ref. unfold formatTime_ref.
  destruct (Qlt_le_dec d 0) as [|Hle]; [reflexivity|].
  exfalso. apply (Qlt_not_le _ _ H Hle).
Qed.

Lemma formatTime_nonneg (d : Q) :
  (0 <= d)%Q ->
  formatTime (Some d)
  = JS.showZ (Qfloor (d / 60)) +:+ ":" +:+ pad2 (JS.showZ (Qfloor (Qmod d 60))).
Proof.
  intros H. rewrite formatTime_eq_ref. unfold formatTime_ref.
  destruct (Qlt_le_dec d 0) as [Hlt|]; [|reflexivity].
  exfalso. apply (Qlt_not_le _ _ Hlt H).
Qed.

Example formatTime_125 : formatTime (Some 125%Q) = "2:05".
Proof. reflexivity. Qed.

Example formatTime_fraction : formatTime (Some (1259 # 10)%Q) = "2:05".
Proof. reflexivity. Qed.

Example formatTime_hour : formatTime (Some 3600%Q) = "60:00".
Proof. reflexivity. Qed.

Example formatTime_zero : formatTime (Some 0%Q) = "0:00".
Proof. reflexivity. Qed.

Lemma Qmod_comp (a b : Q) : (a == b)%Q -> (Qmod a 60 == Qmod b 60)%Q.
Proof.
  intros H. unfold Qmod.
  rewrite (Qfloor_comp (a / 60) (b / 60)) by (rewrite H; reflexivity).
  rewrite H. reflexivity.
Qed.

Lemma formatTime_ref_comp (a b : Q) :
  (a == b)%Q -> formatTime_ref (Some a) = formatTime_ref (Some b).
Proof.
  intros H. unfold formatTime_ref.
  destruct (Qlt_le_dec a 0) as [Ha|Ha], (Qlt_le_dec b 0) as [Hb|Hb].
  - reflexivity.
  - rewrite H in Ha. exfalso. apply (Qlt_not_le _ _ Ha Hb).
  - rewrite H in Ha. exfalso. apply (Qlt_not_le _ _ Hb Ha).
  - rewrite (Qfloor_comp (a / 60) (b / 60)) by (rewrite H; reflexivity).
    rewrite (Qfloor_comp (Qmod a 60) (Qmod b 60)) by (by apply Qmod_comp).
    reflexivity.
Qed.

Lemma formatTime_comp (a b : Q) :
  (a == b)%Q -> formatTime (Some a) = formatTime (Some b).
Proof. intros H. rewrite !formatTime_eq_ref. by apply formatTime_ref_comp. Qed.

Lemma Qfloor_unit (x : Q) : (0 <= x)%Q -> (x < 1)%Q -> Qfloor x = 0%Z.
Proof.
  intros H0 H1.
  pose proof (Qfloor_le x) as Hl. pose proof (Qlt_floor x) as Hu.
  assert (Ha : (inject_Z (Qfloor x) < inject_Z 1)%Q) by (eapply Qle_lt_trans; eauto).
  assert (Hb : (inject_Z 0 < inject_Z (Qfloor x + 1))%Q) by (eapply Qle_lt_trans; eauto).
  rewrite <- Zlt_Qlt in Ha, Hb. lia.
Qed.

Lemma formatTime_below_one (d : Q) : (d < 1)%Q -> formatTime (Some d) = "0:00".
Proof.
  intros H. rewrite formatTime_eq_ref. unfold formatTime_ref.
  destruct (Qlt_le_dec d 0) as [|Hd]; [reflexivity|].
  assert (H1 : Qfloor (d / 60) = 0%Z).
  { apply Qfloor_unit.
    - unfold Qle in *. simpl in *. lia.
    - unfold Qlt, Qle in *. simpl in *. lia. }
  assert (H2 : Qfloor (Qmod d 60) = 0%Z).
  { unfold Qmod. rewrite H1.
    rewrite (Qfloor_comp _ d) by (simpl; ring).
    by apply Qfloor_unit. }
  rewrite H1, H2. reflexivity.
Qed.

Lemma bind_run {A B : Type} (m : Js A) (k : A -> Js B) (p : Page) :
  (m ≫= k) p = match m p with
               | (p', Returns a) => k a p'
               | (p', Throws e) => (p', Throws e)
               end.
Proof. reflexivity. Qed.

Lemma seq_run {A B : Type} (m : Js A) (k : Js B) (p : Page) :
  (m;; k) p = match m p with
              | (p', Returns _) => k p'
              | (p', Throws e) => (p', Throws e)
              end.
Proof. reflexivity. Qed.

Lemma setupETACountdown_present (id : string) (s : Q) (e : nat) (p : Page) :
  first_some (eta_span_of id) (cards p) = Some e ->
  let p0 := exec (setupETACountdown id s) p in
  result (setupETACountdown id s) p = Returns tt
  ∧ eta_text p0 !! e = Some (formatTime (Some s))
  ∧ Running (next_interval p) id e s p0
  ∧ locations_el p0 = locations_el p.
Proof.
  intros He. unfold exec, result, Running, setupETACountdown, getElementById_eta,
    clearInterval, set_textContent, setInterval, modify, get, mbind, mret, Js_bind, Js_ret.
  unfold cards in *.
  destruct (etaIntervals p !! id); simpl; rewrite He; simpl;
    rewrite !lookup_insert_eq; auto.
Qed.

Lemma eta_tick_stopped (h : nat) (p : Page) :
  intervals p !! h = None -> eta_tick h p = (p, Returns tt).
Proof.
  intros H. unfold eta_tick, get, mbind, mret, Js_bind, Js_ret. by rewrite H.
Qed.

Lemma eta_ticks_stopped (n h : nat) (p : Page) :
  intervals p !! h = None -> eta_ticks n h p = (p, Returns tt).
Proof.
  induction n as [|n IH]; intros H; simpl; [reflexivity|].
  unfold mbind, Js_bind. rewrite eta_tick_stopped by done. by apply IH.
Qed.

Lemma eta_tick_running (h : nat) (id : string) (e : nat) (t : Q) (p : Page) :
  Running h id e t p ->
  let p' := exec (eta_tick h) p in
  result (eta_tick h) p = Returns tt
  ∧ eta_text p' !! e = Some (formatTime (Some t))
  ∧ (if JS.ltb (t - 1) 0 then intervals p' !! h = None
     else Running h id e (t - 1) p').
Proof.
  intros [Hi He]. unfold exec, result, Running, eta_tick, clearInterval, set_textContent,
    modify, get, mbind, mret, Js_bind, Js_ret.
  rewrite Hi. simpl. destruct (JS.ltb (t - 1) 0) eqn:El; simpl; rewrite ?He; simpl;
    rewrite ?lookup_insert_eq, ?lookup_delete_eq; auto.
Qed.

Lemma Qnat_succ (k : nat) :
  (inject_Z (Z.of_nat (S k)) == inject_Z (Z.of_nat k) + 1)%Q.
Proof. rewrite Nat2Z.inj_succ, <- Z.add_1_r, inject_Z_plus. reflexivity. Qed.

Lemma eta_ticks_running (k : nat) : forall (h : nat) (id : string) (e : nat) (t : Q) (p : Page),
  Running h id e t p ->
  let p' := exec (eta_ticks (S k) h) p in
  result (eta_ticks (S k) h) p = Returns tt
  ∧ eta_text p' !! e = Some (formatTime (Some (t - inject_Z (Z.of_nat k))%Q))
  ∧ (is_Some (intervals p' !! h) <-> (0 <= t - inject_Z (Z.of_nat (S k)))%Q).
Proof.
  induction k as [|k IH]; intros h id e t p Hrun.
  - destruct (eta_tick_running h id e t p Hrun) as (Hr & Ht & Hc).
    unfold exec, result in *. simpl. unfold mbind, Js_bind, mret, Js_ret.
    destruct (eta_tick h p) as [p1 o1]; simpl in Hr, Ht, Hc. subst o1. simpl.
    split; [done|]. split.
    { rewrite Ht. f_equal. apply formatTime_comp.
      change (inject_Z (Z.of_nat 0)) with 0%Q. lra. }
        destruct (JS.ltb (t - 1) 0) eqn:El.
    + rewrite Hc. apply ltb_lt in El. split; [by intros [? ?]|].
      intros H. exfalso. change (inject_Z (Z.of_nat 1)) with 1%Q in H. lra.
    + destruct Hc as [Hc _]. rewrite Hc. split; [|by eauto]. intros _.
      change (inject_Z (Z.of_nat 1)) with 1%Q.
      destruct (Qlt_le_dec (t - 1) 0) as [Hlt|]; [|done].
      apply ltb_lt in Hlt. congruence.
  - destruct (eta_tick_running h id e t p Hrun) as (Hr & Ht & Hc).
    unfold exec, result in *.
    change (eta_ticks (S (S k)) h p) with ((eta_tick h;; eta_ticks (S k) h) p).
    rewrite !seq_run.
    destruct (eta_tick h p) as [p1 o1]; simpl in Hr, Ht, Hc. subst o1.
    pose proof (Qnat_succ k) as Hk. pose proof (Qnat_succ (S k)) as Hk1.
    destruct (JS.ltb (t - 1) 0) eqn:El.
    + rewrite eta_ticks_stopped by done. cbn [fst snd]. apply ltb_lt in El.
      assert (0 <= inject_Z (Z.of_nat k))%Q.
      { change 0%Q with (inject_Z 0). rewrite <- Zle_Qle. lia. }
      split; [done|]. split.
      { rewrite Ht. f_equal. rewrite !formatTime_below_one; [done| lra | lra]. }
      rewrite Hc. split; [by intros [? ?]|].
      intros H'. exfalso. lra.
    + specialize (IH h id e (t - 1)%Q p1 Hc). cbv zeta in IH.
      destruct IH as (IH1 & IH2 & IH3).
      split; [done|]. split.
      { rewrite IH2. f_equal. apply formatTime_comp. lra. }
      rewrite IH3. split; intros; lra.
Qed.

Ltac js_unfold :=
  unfold exec, result, getElementById_machine, getElementById_eta, clearInterval,
    set_textContent, setInterval, window_alert, modify, get, throw, try_catch,
    mbind, mret, Js_bind, Js_ret in *.

Lemma setupETACountdown_frame (id : string) (s : Q) (p : Page) :
  (setupETACountdown id s p).2 = Returns tt
  ∧ app_state (setupETACountdown id s p).1 = app_state p
  ∧ locations_el (setupETACountdown id s p).1 = locations_el p.
Proof.
  unfold setupETACountdown, app_state. js_unfold. unfold cards.
  destruct (etaIntervals p !! id); simpl;
    destruct (first_some _ _); simpl; auto.
Qed.

Lemma createOrUpdateMachineCard_run (machine : Machine) (loc : string) (g : nat)
    (p : Page) (u : User) :
  currentUser p = Some u ->
  let view := cardHTML (renamedMachines p) u machine loc (next_node p) in
  let p' := (createOrUpdateMachineCard machine loc g p).1 in
  (createOrUpdateMachineCard machine loc g p).2 = Returns tt
  ∧ app_state p' = app_state p
  ∧ locations_el p' =
      match find_card (m_id machine) 0 (locations_el p) with
      | Some (li, ci) => update_card li ci view (locations_el p)
      | None => append_card g (card_of machine view) (locations_el p)
      end.
Proof.
  intros Hu. unfold createOrUpdateMachineCard, app_state. js_unfold. rewrite Hu.
  destruct (m_job machine) as [j|] eqn:Ej; simpl;
    destruct (find_card (m_id machine) 0 (locations_el p)) as [[li ci]|] eqn:Ec; simpl;
    try destruct (remaining_time j); simpl; rewrite ?Hu; auto;
    match goal with |- context [setupETACountdown ?i ?s ?q] =>
      destruct (setupETACountdown_frame i s q) as (H1 & H2 & H3);
      destruct (setupETACountdown i s q) as [p2 o2]; simpl in *; subst o2;
      unfold app_state in H2; simpl in H2; rewrite H3;
      rewrite Hu in H2; inversion H2; auto
    end.
Qed.

Lemma createOrUpdateMachineCard_logged_out (machine : Machine) (loc : string) (g : nat)
    (p : Page) :
  currentUser p = None ->
  createOrUpdateMachineCard machine loc g p = (p, Throws (TypeError "currentUser is null")).
Proof.
  intros Hu. unfold createOrUpdateMachineCard. js_unfold. by rewrite Hu.
Qed.

Section Hoare.
Context {A : Type}.
Implicit Types (P : Page -> Prop) (Q : A -> Page -> Prop) (E : exn -> Page -> Prop).

Lemma hoare_ret P Q E (a : A) :
  (forall p, P p -> Q a p) -> hoare P (mret a) Q E.
Proof. intros H p HP. by apply H. Qed.

Lemma hoare_throw P Q E (e : exn) :
  (forall p, P p -> E e p) -> hoare P (throw e) Q E.
Proof. intros H p HP. by apply H. Qed.

Lemma hoare_conseq P P' Q Q' E E' (m : Js A) :
  hoare P' m Q' E' ->
  (forall p, P p -> P' p) ->
  (forall a p, Q' a p -> Q a p) ->
  (forall e p, E' e p -> E e p) ->
  hoare P m Q E.
Proof.
  intros H HP HQ HE p Hp. specialize (H p (HP p Hp)).
  destruct (m p) as [p' [a|e]]; auto.
Qed.

Lemma hoare_try_catch P Q E E' (body : Js A) (handler : exn -> Js A) :
  hoare P body Q E' ->
  (forall e, hoare (E' e) (handler e) Q E) ->
  hoare P (try_catch body handler) Q E.
Proof.
  intros Hb Hh p Hp. unfold try_catch. specialize (Hb p Hp).
  destruct (body p) as [p' [a|e]]; [done|]. by apply Hh.
Qed.
End Hoare.

Lemma hoare_bind {A B : Type} (P : Page -> Prop) (R : A -> Page -> Prop)
    (Q : B -> Page -> Prop) (E : exn -> Page -> Prop) (m : Js A) (k : A -> Js B) :
  hoare P m R E -> (forall a, hoare (R a) (k a) Q E) -> hoare P (m ≫= k) Q E.
Proof.
  intros Hm Hk p Hp. rewrite bind_run. specialize (Hm p Hp).
  destruct (m p) as [p' [a|e]]; [|done]. by apply Hk.
Qed.

Lemma hoare_get (P : Page -> Prop) (E : exn -> Page -> Prop) :
  hoare P get (fun a p => P p ∧ a = p) E.
Proof. intros p Hp. by split. Qed.

Lemma hoare_modify (P : Page -> Prop) (Q : unit -> Page -> Prop)
    (E : exn -> Page -> Prop) (f : Page -> Page) :
  (forall p, P p -> Q tt (f p)) -> hoare P (modify f) Q E.
Proof. intros H p Hp. by apply H. Qed.

Lemma hoare_forEach {A : Type} (I : Page -> Prop) (E : exn -> Page -> Prop)
    (xs : list A) (f : A -> Js unit) :
  (forall x, x ∈ xs -> hoare I (f x) (fun _ => I) E) ->
  hoare I (forEach xs f) (fun _ => I) E.
Proof.
  induction xs as [|x xs IH]; intros H.
  - by apply hoare_ret.
  - simpl. eapply hoare_bind.
    + apply H. by left.
    + intros u. apply IH. intros y Hy. apply H. by right.
Qed.

(** Running a triple. *)
Lemma hoare_exec {A : Type} (I : Page -> Prop) (m : Js A) (p : Page) :
  hoare I m (fun _ => I) (fun _ => I) -> I p -> I (exec m p).
Proof.
  intros H Hp. specialize (H p Hp). unfold exec. by destruct (m p) as [p' [a|e]].
Qed.

Lemma hoare_returns {A : Type} (P : Page -> Prop) (Q : A -> Page -> Prop)
    (m : Js A) (p : Page) :
  hoare P m Q (fun _ _ => False) -> P p ->
  exists a, result m p = Returns a ∧ Q a (exec m p).
Proof.
  intros H Hp. specialize (H p Hp). unfold exec, result.
  destruct (m p) as [p' [a|e]]; [eauto|done].
Qed.

Lemma elem_of_alter {A : Type} (f : A -> A) (i : nat) (l : list A) (x : A) :
  x ∈ alter f i l -> x ∈ l ∨ exists y, l !! i = Some y ∧ x = f y.
Proof.
  intros Hx. apply list_elem_of_lookup in Hx as [k Hk].
  destruct (decide (i = k)) as [->|Hne].
  - rewrite list_lookup_alter_eq in Hk. destruct (l !! k) as [y|] eqn:Ey; [|done].
    right. exists y. split; [done|]. simpl in Hk. congruence.
  - rewrite list_lookup_alter_ne in Hk by done. left. apply list_elem_of_lookup. eauto.
Qed.

Lemma find_card_Some (id : string) (les : list LocationEl) :
  forall k li ci, find_card id k les = Some (li, ci) ->
  exists le c, les !! (li - k)%nat = Some le ∧ le_grid le !! ci = Some c
               ∧ card_id c = id ∧ (k <= li)%nat.
Proof.
  induction les as [|le les IH]; intros k li ci H; simpl in H; [done|].
  destruct (list_find _ (le_grid le)) as [[i c]|] eqn:Ef.
  - inversion H; subst. apply list_find_Some in Ef as (Hc & Hid & _).
    exists le, c. rewrite Nat.sub_diag. repeat split; auto.
  - apply IH in H as (le' & c & H1 & H2 & H3 & H4).
    exists le', c. replace (li - k)%nat with (S (li - S k)) by lia.
    repeat split; auto. lia.
Qed.

Lemma concat_grid_elem (les : list LocationEl) (c : CardEl) :
  c ∈ concat (le_grid <$> les) <-> exists le, le ∈ les ∧ c ∈ le_grid le.
Proof.
  induction les as [|le les IH]; simpl.
  - split; [by intros ?%elem_of_nil|]. by intros (? & ?%elem_of_nil & _).
  - rewrite elem_of_app, IH. split.
    + intros [H|(le' & H1 & H2)]; [exists le|exists le']; split; auto; by constructor.
    + intros (le' & H1 & H2). apply elem_of_cons in H1 as [->|H1]; eauto.
Qed.

Lemma cards_elem (p : Page) (c : CardEl) :
  c ∈ cards p <-> exists le, le ∈ locations_el p ∧ c ∈ le_grid le.
Proof. apply concat_grid_elem. Qed.

(** Rendering leaves the application state alone. *)
Section RenderFrame.
Variable a : option User * bool * Message * gmap string string * option string
             * option string * option string * option (list AlertEl) * list string.

Lemma createOrUpdateMachineCard_same (machine : Machine) (loc : string) (g : nat) :
  hoare (Same a) (createOrUpdateMachineCard machine loc g)
    (fun _ => Same a) (fun _ => Same a).
Proof.
  intros p Hp. destruct (currentUser p) as [u|] eqn:Hu.
  - destruct (createOrUpdateMachineCard_run machine loc g p u Hu) as (H1 & H2 & _).
    destruct (createOrUpdateMachineCard machine loc g p) as [p' o]. simpl in *. subst o.
    unfold Same in *. congruence.
  - by rewrite createOrUpdateMachineCard_logged_out.
Qed.

Lemma renderLocation_same (loc : string) (machines : list Machine) :
  hoare (Same a) (renderLocation loc machines) (fun _ => Same a) (fun _ => Same a).
Proof.
  unfold renderLocation. eapply hoare_bind; [apply hoare_get|].
  intros p0. cbv zeta. eapply hoare_bind.
  - apply (hoare_modify _ (fun _ => Same a)). by intros p [Hp _].
  - intros tt0. apply hoare_forEach. intros m _. apply createOrUpdateMachineCard_same.
Qed.

Lemma renderDashboard_same (data_locations : option (list Location)) :
  hoare (Same a) (renderDashboard data_locations) (fun _ => Same a) (fun _ => Same a).
Proof.
  unfold renderDashboard. eapply hoare_bind; [apply hoare_get|].
  intros p0 p [Hp ->]. destruct (currentUser p); [|done].
  rewrite seq_run. unfold modify at 1.
  destruct data_locations as [locs|]; [|done]. cbv zeta.
  match goal with |- context [forEach ?xs ?f] =>
    pose proof (hoare_forEach (Same a) (fun _ => Same a) xs f) as Hloop end.
  apply Hloop; [|done]. intros loc _. apply renderLocation_same.
Qed.
End RenderFrame.

Lemma renderDashboard_app_state (data_locations : option (list Location)) (p : Page) :
  app_state (exec (renderDashboard data_locations) p) = app_state p.
Proof.
  apply (hoare_exec (Same (app_state p))); [|done].
  apply renderDashboard_same.
Qed.

Section Overlay.
Variables (u : User) (M N : string).
Hypothesis N_truthy : N <> "".

Lemma displayNameOf_overlay (r : gmap string string) (machine : Machine) :
  r !! M = Some N -> m_id machine = M -> displayNameOf r machine = N.
Proof.
  intros Hr Hid. unfold displayNameOf. rewrite Hid, Hr. simpl.
  unfold JS.or_else. destruct N; [done|reflexivity].
Qed.

Lemma createOrUpdateMachineCard_ready (machine : Machine) (loc : string) (g : nat) :
  hoare (Ready u M N) (createOrUpdateMachineCard machine loc g)
    (fun _ => Ready u M N) (fun _ _ => False).
Proof.
  intros p [(Hu & Hr & Hs) Hc].
  destruct (createOrUpdateMachineCard_run machine loc g p u Hu) as (H1 & H2 & _).
  destruct (createOrUpdateMachineCard machine loc g p) as [p' o]. simpl in *. subst o.
  unfold app_state in H2. inversion H2. repeat split; congruence.
Qed.

Lemma createOrUpdateMachineCard_titled (machine : Machine) (loc : string) (g : nat) :
  hoare (Rendered u M N) (createOrUpdateMachineCard machine loc g)
    (fun _ => Rendered u M N) (fun _ _ => False).
Proof.
  intros p [(Hu & Hr & Hs) Ht].
  destruct (createOrUpdateMachineCard_run machine loc g p u Hu) as (H1 & H2 & H3).
  destruct (createOrUpdateMachineCard machine loc g p) as [p' o]. simpl in *. subst o.
  unfold app_state in H2. inversion H2 as [[Eu Es Ec Er Efl Efs Esm Ea Ed]].
  split; [repeat split; congruence|].
  intros le c Hle Hc Hid. rewrite H3 in Hle.
  destruct (find_card (m_id machine) 0 (locations_el p)) as [[li ci]|] eqn:Ef.
  - apply find_card_Some in Ef as (le0 & c0 & Hl0 & Hc0 & Hid0 & _).
    rewrite Nat.sub_0_r in Hl0.
    apply elem_of_alter in Hle as [Hle|(y & Hy & ->)]; [by eapply Ht|].
    simpl in Hc. apply elem_of_alter in Hc as [Hc|(c1 & Hc1 & ->)].
    + eapply Ht; [|done..]. apply list_elem_of_lookup. eauto.
    + simpl in *. assert (y = le0) as -> by congruence.
      assert (c1 = c0) as -> by congruence.
      apply displayNameOf_overlay; congruence.
  - apply elem_of_alter in Hle as [Hle|(y & Hy & ->)]; [by eapply Ht|].
    simpl in Hc. apply elem_of_app in Hc as [Hc|Hc].
    + eapply Ht; [|done..]. apply list_elem_of_lookup. eauto.
    + apply list_elem_of_singleton in Hc as ->. simpl in *.
      by apply displayNameOf_overlay.
Qed.

Lemma renderLocation_titled (loc : string) (machines : list Machine) :
  hoare (Rendered u M N) (renderLocation loc machines)
    (fun _ => Rendered u M N) (fun _ _ => False).
Proof.
  unfold renderLocation. eapply hoare_bind; [apply hoare_get|].
  intros p0. cbv zeta. eapply hoare_bind.
  - apply (hoare_modify _ (fun _ => Rendered u M N)). intros p [[Hl Ht] _].
    split; [done|]. intros le c Hle Hc. simpl in Hle.
    apply elem_of_app in Hle as [Hle|Hle]; [by eapply Ht|].
    apply list_elem_of_singleton in Hle as ->. simpl in Hc. by apply elem_of_nil in Hc.
  - intros tt0. apply hoare_forEach. intros m _. apply createOrUpdateMachineCard_titled.
Qed.

Lemma renderDashboard_titled (data_locations : option (list Location)) :
  hoare (LoggedIn u M N) (renderDashboard data_locations)
    (fun _ => Rendered u M N) (fun _ _ => False).
Proof.
  unfold renderDashboard. eapply hoare_bind; [apply hoare_get|].
  intros p0 p [Hl ->]. rewrite (proj1 Hl).
  assert (HI : Rendered u M N (set_locations_el [] p)).
  { split; [done|]. intros le c Hle. simpl in Hle. by apply elem_of_nil in Hle. }
  rewrite seq_run. unfold modify at 1.
  destruct data_locations as [locs|]; [|done].
  cbv zeta.
  match goal with |- context [forEach ?xs ?f] =>
    pose proof (hoare_forEach (Rendered u M N) (fun _ _ => False) xs f) as Hloop end.
  apply Hloop; [|done]. intros loc _. apply renderLocation_titled.
Qed.

(** Handlers that only write the alerts panel. *)
Lemma createAlert_keeps (P : Page -> Prop) (E : exn -> Page -> Prop)
    (message : string) (level : Z) :
  (forall p a, P p -> P (set_alerts_el a p)) ->
  hoare P (createAlert message level) (fun _ => P) E.
Proof.
  intros HP p Hp. unfold createAlert. rewrite bind_run. unfold get.
  destruct (alerts_el p); [|done]. by apply HP.
Qed.

Lemma handleAlerts_keeps (P : Page -> Prop) (data : Message) (locs : list Location) :
  (forall p a, P p -> P (set_alerts_el a p)) ->
  locations data = Some locs ->
  hoare P (handleAlerts data) (fun _ => P) (fun _ _ => False).
Proof.
  intros HP Hd. unfold handleAlerts. eapply hoare_bind; [apply hoare_get|].
  intros p0 p [Hp ->]. destruct (alerts_el p); [|done].
  rewrite seq_run. unfold modify at 1. rewrite Hd.
  match goal with |- context [forEach ?xs ?f] =>
    pose proof (hoare_forEach P (fun _ _ => False) xs f) as Hloop end.
  apply Hloop; [|by apply HP]. intros loc _.
  apply hoare_forEach. intros m _.
  destruct (m_job m); [|by apply hoare_ret].
  eapply hoare_bind; [apply hoare_get|]. intros q. cbv zeta.
  repeat case_match; try (by apply hoare_ret; intros ? [? _]);
    (eapply (hoare_conseq _ P _ (fun _ => P) _ (fun _ _ => False));
     [apply createAlert_keeps, HP | by intros ? [? _] | done | done]).
Qed.

Lemma Rendered_alerts (p : Page) (a : option (list AlertEl)) :
  Rendered u M N p -> Rendered u M N (set_alerts_el a p).
Proof. by intros [Hl Ht]. Qed.

Lemma Ready_alerts (p : Page) (a : option (list AlertEl)) :
  Ready u M N p -> Ready u M N (set_alerts_el a p).
Proof. done. Qed.

Lemma handleNewJob_scan_ready (ev : NewJob) (locs : list Location) :
  forall k, hoare (Ready u M N) (handleNewJob_scan ev k locs)
              (fun _ => Ready u M N) (fun _ _ => False).
Proof.
  induction locs as [|loc rest IH]; intros k; simpl; [by apply hoare_ret|].
  destruct (list_find _ (l_machines loc)) as [[mi machine]|]; [|apply IH].
  cbv zeta. eapply hoare_bind.
  { apply (hoare_modify _ (fun _ => Ready u M N)). intros p [Hl [ls Hc]].
    split; [done|]. simpl. rewrite Hc. by eexists. }
  intros tt0. eapply hoare_bind.
  { unfold getElementById_machine. eapply hoare_bind; [apply hoare_get|].
    intros q. apply (hoare_ret _ (fun _ => Ready u M N)). by intros p [Hp _]. }
  intros [[g ci]|]; [apply createOrUpdateMachineCard_ready|by apply hoare_ret].
Qed.

Lemma handleNewJob_ready (ev : NewJob) :
  hoare (Ready u M N) (handleNewJob ev) (fun _ => Ready u M N) (fun _ _ => False).
Proof.
  unfold handleNewJob. eapply hoare_bind; [apply hoare_get|].
  intros p0. eapply hoare_bind.
  - intros p [[Hl [locs Hc]] ->]. rewrite Hc.
    apply handleNewJob_scan_ready. split; [done|by eexists].
  - intros tt0. eapply hoare_bind; [apply hoare_get|]. intros q.
    eapply (hoare_conseq _ (Ready u M N) _ (fun _ => Ready u M N) _ (fun _ _ => False));
      [apply createAlert_keeps, Ready_alerts | by intros ? [? _] | done | done].
Qed.

Lemma loadDashboard_done_titled (locs : list Location) :
  hoare (LoggedIn u M N)
    (loadDashboard_done (Some {| locations := Some locs; new_job := None |}))
    (fun _ => Rendered u M N) (fun _ _ => False).
Proof.
  unfold loadDashboard_done. eapply (hoare_try_catch _ _ _ (fun _ _ => False)); [|by intros e p Hp].
  eapply hoare_bind; [by apply (hoare_ret _ (fun _ => LoggedIn u M N))|].
  intros d. eapply hoare_bind.
  { apply (hoare_modify _ (fun _ => LoggedIn u M N)). by intros p Hp. }
  intros tt0. apply renderDashboard_titled.
Qed.

Lemma socket_onmessage_titled (locs : list Location) (ev : option NewJob) :
  hoare (LoggedIn u M N)
    (socket_onmessage (Some {| locations := Some locs; new_job := ev |}))
    (fun _ => Rendered u M N) (fun _ _ => False).
Proof.
  unfold socket_onmessage. eapply (hoare_try_catch _ _ _ (fun _ _ => False)); [|by intros e p Hp].
  eapply hoare_bind.
  { by apply (hoare_ret _ (fun d p => LoggedIn u M N p
                             ∧ d = {| locations := Some locs; new_job := ev |})). }
  intros d. eapply hoare_bind.
  { apply (hoare_modify _ (fun _ p => Ready u M N p
                             ∧ d = {| locations := Some locs; new_job := ev |})).
    intros p [Hp ->]. split; [|done]. split; [done|by eexists]. }
  intros tt0. eapply hoare_bind; [apply hoare_get|].
  intros p0 p [[Hp ->] ->]. rewrite (proj2 (proj2 (proj1 Hp))). revert p Hp.
  change (hoare (Ready u M N)
    (match new_job {| locations := Some locs; new_job := ev |} with
     | Some e => handleNewJob e | None => mret tt end;;
     q ← get;
     match locations (dashboardCache q) with
     | Some locs => renderDashboard (Some locs)
     | None => mret tt
     end;;
     q' ← get; handleAlerts (dashboardCache q'))
    (fun _ => Rendered u M N) (fun _ _ => False)).
  eapply (hoare_bind _ (fun _ => Ready u M N)).
  { simpl. destruct ev as [e|]; [apply handleNewJob_ready|by apply hoare_ret]. }
  intros tt1. eapply hoare_bind; [apply hoare_get|]. intros q.
  eapply (hoare_bind _ (fun _ p => Rendered u M N p
                            ∧ is_Some (locations (dashboardCache p)))).
  { intros p [[Hl [ls Hc]] ->]. rewrite Hc.
    pose proof (renderDashboard_titled (Some ls) p Hl) as Hr.
    assert (Hf : dashboardCache (renderDashboard (Some ls) p).1 = dashboardCache p).
    { pose proof (renderDashboard_app_state (Some ls) p) as Hf.
      unfold app_state, exec in Hf. by inversion Hf. }
    destruct (renderDashboard (Some ls) p) as [p' [a|e]]; [|done].
    split; [done|]. simpl in Hf. rewrite Hf, Hc. by eexists. }
  intros tt2. eapply hoare_bind; [apply hoare_get|].
  intros q' p [[HI [ls Hc]] ->].
  apply (handleAlerts_keeps (Rendered u M N) _ ls Rendered_alerts Hc). done.
Qed.

Lemma deliver_titled (r : Refresh) :
  hoare (LoggedIn u M N) (deliver r) (fun _ => Rendered u M N) (fun _ _ => False).
Proof.
  destruct r; [apply loadDashboard_done_titled|apply socket_onmessage_titled].
Qed.

Lemma refreshes_titled (rs : list Refresh) :
  rs <> [] ->
  hoare (LoggedIn u M N) (forEach rs deliver) (fun _ => Rendered u M N) (fun _ _ => False).
Proof.
  destruct rs as [|r rs]; [done|]. intros _. revert r.
  induction rs as [|r' rs IH]; intros r; simpl.
  - eapply hoare_bind; [apply deliver_titled|]. intros tt0. by apply hoare_ret.
  - eapply hoare_bind; [apply deliver_titled|]. intros tt0.
    eapply hoare_conseq; [apply (IH r')|by intros p [Hp _]|done..].
Qed.
End Overlay.

(** *** New-job events *)

Lemma createOrUpdateMachineCard_cache (machine : Machine) (loc : string) (g : nat) (p : Page) :
  dashboardCache (createOrUpdateMachineCard machine loc g p).1 = dashboardCache p.
Proof.
  pose proof (createOrUpdateMachineCard_same (app_state p) machine loc g p eq_refl) as H.
  destruct (createOrUpdateMachineCard machine loc g p) as [p' [a|e]]; simpl;
    unfold app_state in H; by inversion H.
Qed.

Lemma createAlert_run (message : string) (level : Z) (p : Page) :
  let color := if (level =? 3)%Z then "#2196f3"
               else if (level =? 2)%Z then "#f44336" else "#ff9800" in
  let p' := (createAlert message level p).1 in
  (createAlert message level p).2 = Returns tt
  ∧ alerts_el p' = cons {| alert_text := message; alert_color := color |} <$> alerts_el p
  ∧ dashboardCache p' = dashboardCache p
  ∧ locations_el p' = locations_el p
  ∧ renamedMachines p' = renamedMachines p
  ∧ dialogs p' = dialogs p
  ∧ intervals p' = intervals p
  ∧ etaIntervals p' = etaIntervals p
  ∧ eta_text p' = eta_text p.
Proof.
  unfold createAlert. js_unfold. destruct (alerts_el p) eqn:E; simpl; rewrite ?E; auto 10.
Qed.

(** A scan over locations none of which holds the machine changes nothing. *)
Lemma handleNewJob_scan_absent (ev : NewJob) (locs : list Location) :
  forall k p,
    (forall loc m, loc ∈ locs -> m ∈ l_machines loc -> m_id m <> ev_machine_id ev) ->
    handleNewJob_scan ev k locs p = (p, Returns tt).
Proof.
  induction locs as [|loc rest IH]; intros k p H; simpl; [done|].
  assert (Hn : list_find (fun m => m_id m = ev_machine_id ev) (l_machines loc) = None).
  { apply list_find_None, Forall_forall. intros m Hm. apply (H loc); [by left|done]. }
  rewrite Hn. apply IH. intros loc' m Hl. apply H. by right.
Qed.

(** The scan stops at the first location that holds the machine; the cache
    entry of that machine is rewritten and nothing else in the cache is. *)
Lemma handleNewJob_scan_found (ev : NewJob) (before : list Location) (loc : Location)
    (after : list Location) (mi : nat) (m : Machine) :
  forall k p,
    (forall loc' m', loc' ∈ before -> m' ∈ l_machines loc' -> m_id m' <> ev_machine_id ev) ->
    l_machines loc !! mi = Some m ->
    m_id m = ev_machine_id ev ->
    (forall mi' m', (mi' < mi)%nat -> l_machines loc !! mi' = Some m' ->
                    m_id m' <> ev_machine_id ev) ->
    dashboardCache (handleNewJob_scan ev k (before ++ loc :: after) p).1
    = dashboardCache (write_machine (k + length before) mi (assignJob ev m) p).
Proof.
  induction before as [|b before IH]; intros k p Hb Hm Hid Hfirst; simpl.
  - assert (Hf : list_find (fun m => m_id m = ev_machine_id ev) (l_machines loc)
                 = Some (mi, m)).
    { apply list_find_Some. split; [done|]. split; [done|].
      intros j y Hy Hj. by apply (Hfirst j). }
    rewrite Hf. cbv zeta. rewrite Nat.add_0_r.
    rewrite seq_run. unfold modify at 1. rewrite bind_run.
    unfold getElementById_machine. rewrite bind_run. unfold get at 1.
    unfold mret at 1, Js_ret at 1.
    destruct (find_card _ _ _) as [[g ci]|]; [|done].
    apply createOrUpdateMachineCard_cache.
  - assert (Hn : list_find (fun m => m_id m = ev_machine_id ev) (l_machines b) = None).
    { apply list_find_None, Forall_forall. intros x Hx. apply (Hb b); [by left|done]. }
    rewrite Hn. rewrite IH; try done.
    + by replace (S k + length before)%nat with (k + S (length before))%nat by lia.
    + intros loc' m' Hl. apply Hb. by right.
Qed.

Lemma handleNewJob_cache_after_scan (ev : NewJob) (p : Page) (locs : list Location) :
  locations (dashboardCache p) = Some locs ->
  dashboardCache (handleNewJob ev p).1 = dashboardCache (handleNewJob_scan ev 0 locs p).1.
Proof.
  intros Hc. unfold handleNewJob. rewrite bind_run. unfold get at 1. rewrite Hc.
  rewrite seq_run. destruct (handleNewJob_scan ev 0 locs p) as [p1 [[]|e]]; [|done].
  rewrite bind_run. unfold get at 1. simpl.
  by destruct (createAlert_run
    ("✅ New Job Assigned to "
     +:+ JS.opt_or (renamedMachines p1 !! ev_machine_id ev) (ev_machine_name ev)
     +:+ ": " +:+ ev_work_order ev) 0 p1) as (_ & _ & H & _).
Qed.

Lemma write_machine_lookup (li mi : nat) (m' : Machine) (p : Page)
    (locs : list Location) (loc : Location) (m : Machine) :
  locations (dashboardCache p) = Some locs ->
  locs !! li = Some loc -> l_machines loc !! mi = Some m ->
  machine_at li mi (write_machine li mi m' p) = Some m'.
Proof.
  intros Hc Hl Hm. unfold machine_at, write_machine. simpl. rewrite Hc. simpl.
  rewrite list_lookup_alter_eq, Hl. simpl.
  apply list_lookup_insert_eq. by eapply lookup_lt_Some.
Qed.

Lemma assignJob_current (ev : NewJob) (m : Machine) :
  m_job m = None ∨ m_status m = "idle" ->
  assignJob ev m = {| m_id := m_id m; m_name := m_name m; m_status := m_status m;
                      m_job := Some (newCurrentJob ev); m_next_job := m_next_job m |}.
Proof.
  intros H. unfold assignJob.
  destruct H as [H|H]; rewrite H.
  - by rewrite bool_decide_eq_false_2 by (by intros [? ?]).
  - rewrite (bool_decide_eq_true_2 ("idle" = "idle")) by done. by rewrite orb_true_r.
Qed.

Lemma assignJob_queued (ev : NewJob) (m : Machine) :
  m_job m <> None -> m_status m <> "idle" ->
  assignJob ev m = {| m_id := m_id m; m_name := m_name m; m_status := m_status m;
                      m_job := m_job m; m_next_job := Some (newNextJob ev) |}.
Proof.
  intros Hj Hs. unfold assignJob.
  rewrite bool_decide_eq_true_2 by (destruct (m_job m); [by eexists|done]).
  by rewrite bool_decide_eq_false_2.
Qed.

Lemma handleNewJob_first_match (p : Page) (ev : NewJob) (locs : list Location)
    (li mi : nat) (loc : Location) (m : Machine) :
  locations (dashboardCache p) = Some locs ->
  locs !! li = Some loc ->
  l_machines loc !! mi = Some m ->
  m_id m = ev_machine_id ev ->
  (forall li' loc' m', (li' < li)%nat -> locs !! li' = Some loc' -> m' ∈ l_machines loc' ->
                       m_id m' <> ev_machine_id ev) ->
  (forall mi' m', (mi' < mi)%nat -> l_machines loc !! mi' = Some m' ->
                  m_id m' <> ev_machine_id ev) ->
  dashboardCache (exec (handleNewJob ev) p)
  = dashboardCache (write_machine li mi (assignJob ev m) p).
Proof.
  intros Hc Hl Hm Hid Hbefore Hfirst. unfold exec.
  rewrite (handleNewJob_cache_after_scan ev p locs Hc).
  rewrite <- (take_drop_middle locs li loc Hl).
  rewrite (handleNewJob_scan_found ev (take li locs) loc (drop (S li) locs) mi m 0 p);
    try done.
  - rewrite length_take_le; [done|]. apply lookup_lt_Some in Hl. lia.
  - intros loc' m' Hin Hm'. apply list_elem_of_lookup in Hin as [i Hi].
    assert (i < li)%nat.
    { apply lookup_lt_Some in Hi. rewrite length_take in Hi. lia. }
    apply (Hbefore i loc' m'); [done| |done]. by rewrite lookup_take_lt in Hi.
Qed.

(** C2: a new-job event whose machine id matches a machine of the current
    snapshot is routed on that machine. The machine [m] sits at position
    [mi] of location [li] and is the first of that id in scan order (the
    only one when ids are unique). After [handleNewJob] the machine at
    that position keeps its id, name and status; if it had no job or was
    idle its current job is the event's, with completed quantity 0 and
    progress percent 0, and its queued job is untouched; otherwise its
    current job is untouched and the event is its queued next job. *)
Theorem handleNewJob_routes (p : Page) (ev : NewJob) (locs : list Location)
    (li mi : nat) (loc : Location) (m : Machine) :
  locations (dashboardCache p) = Some locs ->
  locs !! li = Some loc ->
  l_machines loc !! mi = Some m ->
  m_id m = ev_machine_id ev ->
  (forall li' loc' m', (li' < li)%nat -> locs !! li' = Some loc' -> m' ∈ l_machines loc' ->
                       m_id m' <> ev_machine_id ev) ->
  (forall mi' m', (mi' < mi)%nat -> l_machines loc !! mi' = Some m' ->
                  m_id m' <> ev_machine_id ev) ->
  exists m',
    machine_at li mi (exec (handleNewJob ev) p) = Some m'
    ∧ m_id m' = m_id m ∧ m_name m' = m_name m ∧ m_status m' = m_status m
    ∧ (m_job m = None ∨ m_status m = "idle" ->
       m_job m' = Some {| work_order := ev_work_order ev;
                          size := ev_pipe_size ev;
                          completed_qty := 0;
                          total_qty := ev_qty ev;
                          remaining_time := ev_eta ev;
                          progress_percent := Some 0%Q |}
       ∧ m_next_job m' = m_next_job m)
    ∧ (m_job m <> None ∧ m_status m <> "idle" ->
       m_job m' = m_job m
       ∧ m_next_job m' = Some {| nj_work_order := ev_work_order ev;
                                 nj_pipe_size := ev_pipe_size ev;
                                 nj_produced_qty := 0;
                                 nj_total_qty := ev_qty ev;
                                 nj_remaining_time := ev_eta ev |}).
Proof.
  intros Hc Hl Hm Hid Hbefore Hfirst.
  exists (assignJob ev m).
  assert (Hat : machine_at li mi (exec (handleNewJob ev) p) = Some (assignJob ev m)).
  { unfold machine_at.
    rewrite (handleNewJob_first_match p ev locs li mi loc m) by done.
    by apply (write_machine_lookup li mi _ p locs loc m). }
  split; [done|].
  assert (Hsame : m_id (assignJob ev m) = m_id m ∧ m_name (assignJob ev m) = m_name m
                  ∧ m_status (assignJob ev m) = m_status m).
  { unfold assignJob. by case_match. }
  destruct Hsame as (? & ? & ?). repeat split; try done.
  - by rewrite assignJob_current.
  - by rewrite assignJob_current.
  - destruct H2. by rewrite assignJob_queued.
  - destruct H2. by rewrite assignJob_queued.
Qed.

Lemma handleNewJob_absent_run (p : Page) (ev : NewJob) (locs : list Location) :
  locations (dashboardCache p) = Some locs ->
  (forall loc m, loc ∈ locs -> m ∈ l_machines loc -> m_id m <> ev_machine_id ev) ->
  handleNewJob ev p
  = createAlert ("✅ New Job Assigned to "
                 +:+ JS.opt_or (renamedMachines p !! ev_machine_id ev) (ev_machine_name ev)
                 +:+ ": " +:+ ev_work_order ev) 0 p.
Proof.
  intros Hc Hnone. unfold handleNewJob.
  rewrite bind_run. unfold get at 1. rewrite Hc.
  by rewrite seq_run, (handleNewJob_scan_absent ev locs 0 p Hnone).
Qed.

(** [handleNewJob] taken alone, on an unknown machine: when the cached
    snapshot has a [locations] array and no machine in it has the event's
    machine id, the call returns normally, leaves the cached snapshot and
    every card as they were and opens no dialog; it posts the alert "New
    Job Assigned to ..." (overlay name of the id, else the event's
    machine name) to the alerts panel when the panel exists. *)
Theorem handleNewJob_unknown_machine (p : Page) (ev : NewJob) (locs : list Location) :
  locations (dashboardCache p) = Some locs ->
  (forall loc m, loc ∈ locs -> m ∈ l_machines loc -> m_id m <> ev_machine_id ev) ->
  let p' := exec (handleNewJob ev) p in
  result (handleNewJob ev) p = Returns tt
  ∧ dashboardCache p' = dashboardCache p
  ∧ locations_el p' = locations_el p
  ∧ dialogs p' = dialogs p
  ∧ alerts_el p' = cons (newJobAlert (renamedMachines p) ev) <$> alerts_el p.
Proof.
  intros Hc Hnone. unfold exec, result.
  rewrite (handleNewJob_absent_run p ev locs Hc Hnone).
  destruct (createAlert_run
    ("✅ New Job Assigned to "
     +:+ JS.opt_or (renamedMachines p !! ev_machine_id ev) (ev_machine_name ev)
     +:+ ": " +:+ ev_work_order ev) 0 p) as (H1 & H2 & H3 & H4 & H5 & H6 & _).
  repeat split; assumption.
Qed.

(** *** Machine actions *)

Lemma machineAction_done_failed (action loc id : string) (response : option ActionReply)
    (p : Page) :
  response = None ∨ (exists r, response = Some r ∧ ar_ok r = false) ->
  machineAction_done action loc id response p
  = (set_dialogs (dialogs p ++ ["❌ " +:+ action +:+ " failed"]) p, Returns tt).
Proof.
  intros [->|(r & -> & Hr)]; unfold machineAction_done; js_unfold; [done|].
  by rewrite Hr.
Qed.

Lemma machineAction_done_success (action loc id : string) (m : Machine) (p : Page)
    (g ci : nat) :
  find_card id 0 (locations_el p) = Some (g, ci) ->
  machineAction_done action loc id (Some {| ar_ok := true; ar_machine := Some m |}) p
  = try_catch (createOrUpdateMachineCard m loc g)
      (fun _ => window_alert ("❌ " +:+ action +:+ " failed")) p.
Proof.
  intros Hf. unfold machineAction_done, try_catch.
  rewrite !bind_run. unfold mret at 1, Js_ret at 1. cbn [ar_ok negb ar_machine].
  rewrite bind_run. unfold getElementById_machine. rewrite bind_run.
  unfold get at 1. unfold mret at 1, Js_ret at 1. by rewrite Hf.
Qed.

Lemma machineAction_done_cache (action loc id : string) (response : option ActionReply)
    (p : Page) :
  dashboardCache (exec (machineAction_done action loc id response) p) = dashboardCache p.
Proof.
  unfold exec.
  destruct response as [[ok om]|]; [destruct ok|].
  - destruct (find_card id 0 (locations_el p)) as [[g ci]|] eqn:Hf.
    + destruct om as [m|].
      * rewrite (machineAction_done_success action loc id m p g ci Hf). unfold try_catch.
        pose proof (createOrUpdateMachineCard_cache m loc g p) as Hc.
        destruct (createOrUpdateMachineCard m loc g p) as [p' [a|e]]; simpl in *; done.
      * unfold machineAction_done. js_unfold. simpl. by rewrite Hf.
    + unfold machineAction_done. js_unfold. simpl. rewrite Hf. by destruct om.
  - rewrite machineAction_done_failed; [done|]. right. by eexists.
  - rewrite machineAction_done_failed; [done|]. by left.
Qed.

Lemma card_at_update_card_eq (g ci : nat) (v : CardView) (p : Page) (c : CardEl)
    (les : list LocationEl) :
  locations_el p = update_card g ci v les ->
  (les !! g ≫= fun le => le_grid le !! ci) = Some c ->
  card_at g ci p
  = Some {| card_id := card_id c; card_class := card_class c; card_view := v |}.
Proof.
  intros H Hc. unfold card_at. rewrite H. unfold update_card.
  rewrite list_lookup_alter_eq.
  destruct (les !! g) as [le|]; [|done]. simpl in *.
  rewrite list_lookup_alter_eq, Hc. done.
Qed.

Lemma card_at_update_card_ne (g ci i j : nat) (v : CardView) (p : Page)
    (les : list LocationEl) :
  locations_el p = update_card g ci v les ->
  (i, j) <> (g, ci) ->
  card_at i j p = (les !! i ≫= fun le => le_grid le !! j).
Proof.
  intros H Hne. unfold card_at. rewrite H. unfold update_card.
  destruct (decide (g = i)) as [->|Hg].
  - rewrite list_lookup_alter_eq. destruct (les !! i) as [le|]; [|done]. simpl.
    rewrite list_lookup_alter_ne; [done|]. congruence.
  - by rewrite list_lookup_alter_ne.
Qed.

(** C5, amended: a start, pause or stop never writes the cached snapshot,
    neither on success nor on failure. On success with the record of the
    targeted machine, a user logged in and the machine's card present,
    the handler returns normally, opens no dialog, gives that card the
    markup of the returned record and leaves every other card where and
    as it was. On failure (no reply, or [ok] false) the only change to
    the page is the dialog "<action> failed". *)
Theorem machineAction_done_scoped (p : Page) (action loc id : string)
    (response : option ActionReply) :
  let p' := exec (machineAction_done action loc id response) p in
  dashboardCache p' = dashboardCache p
  ∧ (forall m u g ci c,
       response = Some {| ar_ok := true; ar_machine := Some m |} ->
       m_id m = id ->
       currentUser p = Some u ->
       find_card id 0 (locations_el p) = Some (g, ci) ->
       card_at g ci p = Some c ->
       result (machineAction_done action loc id response) p = Returns tt
       ∧ dialogs p' = dialogs p
       ∧ card_at g ci p'
         = Some {| card_id := id; card_class := card_class c;
                   card_view := cardHTML (renamedMachines p) u m loc (next_node p) |}
       ∧ (forall i j, (i, j) <> (g, ci) -> card_at i j p' = card_at i j p))
  ∧ (response = None ∨ (exists r, response = Some r ∧ ar_ok r = false) ->
     result (machineAction_done action loc id response) p = Returns tt
     ∧ p' = set_dialogs (dialogs p ++ ["❌ " +:+ action +:+ " failed"]) p).
Proof.
  split; [apply machineAction_done_cache|]. split.
  - intros m u g ci c -> Hid Hu Hf Hc. unfold exec, result.
    rewrite (machineAction_done_success action loc id m p g ci Hf). unfold try_catch.
    destruct (createOrUpdateMachineCard_run m loc g p u Hu) as (H1 & H2 & H3).
    rewrite Hid, Hf in H3.
    destruct (createOrUpdateMachineCard m loc g p) as [p' o]. cbn [fst snd] in *. subst o.
    unfold app_state in H2. inversion H2.
    apply find_card_Some in Hf as (le0 & c0 & Hl0 & Hc0 & Hid0 & _).
    rewrite Nat.sub_0_r in Hl0.
    assert (c0 = c) as ->.
    { unfold card_at in Hc. rewrite Hl0 in Hc. simpl in Hc. congruence. }
    cbn [fst snd].
    repeat split; try done.
    + rewrite (card_at_update_card_eq g ci _ p' c (locations_el p) H3 Hc). by rewrite Hid0, ?H5.
    + intros i j Hne. by rewrite (card_at_update_card_ne g ci i j _ p' (locations_el p) H3 Hne).
  - intros H. unfold exec, result. by rewrite machineAction_done_failed.
Qed.

(** *** Push messages *)

(** C1: a push message that carries [new_job] and no [locations] is
    applied as a patch, and every known location and machine stays in the
    state. The code does otherwise, whatever the page held before (with
    the suppression flag down): [dashboardCache = data] replaces the
    cached snapshot by the message, so the state afterwards is the message
    itself and has no locations; [handleNewJob] then throws on
    [dashboardCache.locations], the handler catches it, no card is
    touched, and the alerts panel, when present, gains "WebSocket data
    error". *)
Theorem push_new_job_without_locations (p : Page) (ev : NewJob) :
  let msg := {| locations := None; new_job := Some ev |} in
  let p0 := set_suppressNextWSRender false p in
  let p' := exec (socket_onmessage (Some msg)) p0 in
  result (socket_onmessage (Some msg)) p0 = Returns tt
  ∧ dashboardCache p' = msg
  ∧ locations (dashboardCache p') = None
  ∧ locations_el p' = locations_el p
  ∧ alerts_el p'
    = cons {| alert_text := "WebSocket data error"; alert_color := "#f44336" |}
        <$> alerts_el p.
Proof.
  unfold socket_onmessage, handleNewJob, createAlert. js_unfold.
  destruct (alerts_el p) eqn:E; simpl; rewrite E; auto.
Qed.

(** Any push message without [locations] ends in the error alert when the
    alerts panel exists, with or without a new job: [handleAlerts] empties
    the panel and then throws on [data.locations]. *)
Lemma push_without_locations_errors (p : Page) (l : list AlertEl) :
  alerts_el p = Some l ->
  alerts_el (exec (socket_onmessage (Some {| locations := None; new_job := None |}))
               (set_suppressNextWSRender false p))
  = Some [ {| alert_text := "WebSocket data error"; alert_color := "#f44336" |} ].
Proof.
  intros Hl. unfold socket_onmessage, handleAlerts, createAlert. js_unfold.
  simpl. rewrite Hl. simpl. reflexivity.
Qed.

(** In the push flow the alert that [handleNewJob] posts does not outlive
    the handler: [handleAlerts] runs later in the same handler and empties
    the panel before it posts the progress alerts. *)
Example push_flow_clears_new_job_alert :
  alerts_el (exec (socket_onmessage
                     (Some {| locations := Some Fixture.modan;
                              new_job := Some (Fixture.event_for "77") |}))
               Fixture.page_live)
  = Some [ {| alert_text := "A1 reached 75% progress!"; alert_color := "#ff9800" |} ].
Proof. vm_compute. reflexivity. Qed.

(** *** Progress display *)

Lemma tenths_div (n : Z) : (n # 10 == inject_Z n * (1 # 10))%Q.
Proof. unfold Qeq. simpl. lia. Qed.

Lemma floor_bounds (y : Q) :
  (inject_Z (Qfloor y) <= y)%Q ∧ (y < inject_Z (Qfloor y) + 1)%Q.
Proof.
  split; [apply Qfloor_le|].
  pose proof (Qlt_floor y) as H. rewrite inject_Z_plus in H. exact H.
Qed.

Lemma inject_Z_lt_le (a b : Z) : (inject_Z a < inject_Z b + 1)%Q -> (inject_Z a <= inject_Z b)%Q.
Proof.
  intros H. rewrite <- Zle_Qle.
  assert (H' : (inject_Z a < inject_Z (b + 1))%Q) by (rewrite inject_Z_plus; exact H).
  rewrite <- Zlt_Qlt in H'. lia.
Qed.

(** [toFixed(1)] is within half a tenth of its argument. *)
Lemma toFixed1_close (x : Q) : (Qabs (JS.toFixed1 x - x) <= 1 # 20)%Q.
Proof.
  unfold JS.toFixed1. apply Qabs_Qle_condition.
  destruct (JS.ltb x 0) eqn:E.
  - destruct (floor_bounds (- x * 10 + (1 # 2))) as [H1 H2].
    rewrite tenths_div. split; lra.
  - destruct (floor_bounds (x * 10 + (1 # 2))) as [H1 H2].
    rewrite tenths_div. split; lra.
Qed.

Lemma toFixed1_tenths (x : Q) : exists n : Z, (JS.toFixed1 x == n # 10)%Q.
Proof.
  unfold JS.toFixed1. destruct (JS.ltb x 0).
  - exists (- Qfloor (- x * 10 + (1 # 2)))%Z. reflexivity.
  - eexists. reflexivity.
Qed.

Lemma toFixed1_le_100 (x : Q) : (x <= 100)%Q -> (JS.toFixed1 x <= 100)%Q.
Proof.
  intros Hx. unfold JS.toFixed1. destruct (JS.ltb x 0) eqn:E.
  - apply ltb_lt in E.
    destruct (floor_bounds (- x * 10 + (1 # 2))) as [H1 H2].
    assert (H0 : (inject_Z 0 <= inject_Z (Qfloor (- x * 10 + (1 # 2))))%Q).
    { apply inject_Z_lt_le. change (inject_Z 0) with 0%Q. lra. }
    change (inject_Z 0) with 0%Q in H0. rewrite tenths_div. lra.
  - destruct (floor_bounds (x * 10 + (1 # 2))) as [H1 H2].
    assert (H0 : (inject_Z (Qfloor (x * 10 + (1 # 2))) <= inject_Z 1000)%Q).
    { apply inject_Z_lt_le. change (inject_Z 1000) with 1000%Q. lra. }
    change (inject_Z 1000) with 1000%Q in H0. rewrite tenths_div. lra.
Qed.

Lemma toFixed1_ge_100 (x : Q) : (100 < x)%Q -> (100 <= JS.toFixed1 x)%Q.
Proof.
  intros Hx. unfold JS.toFixed1.
  destruct (JS.ltb x 0) eqn:E; [apply ltb_lt in E; lra|].
  destruct (floor_bounds (x * 10 + (1 # 2))) as [H1 H2].
  assert (H0 : (inject_Z 1000 <= inject_Z (Qfloor (x * 10 + (1 # 2))))%Q).
  { apply inject_Z_lt_le. change (inject_Z 1000) with 1000%Q. lra. }
  change (inject_Z 1000) with 1000%Q in H0. rewrite tenths_div. lra.
Qed.

Lemma min_le (x y : Q) : (x <= y)%Q -> JS.min x y = x.
Proof. intros H. unfold JS.min. apply Qle_bool_iff in H. by rewrite H. Qed.

Lemma min_gt (x y : Q) : (y < x)%Q -> JS.min x y = y.
Proof.
  intros H. unfold JS.min. destruct (Qle_bool x y) eqn:E; [|done].
  apply Qle_bool_iff in E. lra.
Qed.

Lemma Qmin_cases (x y : Q) :
  ((x <= y)%Q ∧ Qmin x y = x) ∨ ((y < x)%Q ∧ Qmin x y = y).
Proof.
  unfold Qmin, GenericMinMax.gmin. destruct (Qcompare x y) eqn:E.
  - left. split; [|done]. apply Qeq_alt in E. rewrite E. apply Qle_refl.
  - left. split; [|done]. apply Qlt_alt in E. by apply Qlt_le_weak.
  - right. split; [|done]. by apply Qgt_alt in E.
Qed.

(** Clamping after rounding is rounding after clamping. *)
Lemma clamp_round_commute (x : Q) :
  (JS.min (JS.toFixed1 x) 100 == JS.toFixed1 (Qmin x 100))%Q.
Proof.
  destruct (Qmin_cases x 100) as [[Hle ->]|[Hgt ->]].
  - rewrite min_le; [reflexivity|]. by apply toFixed1_le_100.
  - assert (H100 : (JS.toFixed1 100 == 100)%Q) by reflexivity.
    rewrite H100. pose proof (toFixed1_ge_100 x Hgt) as Hge.
    unfold JS.min. destruct (Qle_bool _ _) eqn:E; [|reflexivity].
    apply Qle_bool_iff in E. lra.
Qed.

Lemma clamp_close (x : Q) :
  (Qabs (JS.min (JS.toFixed1 x) 100 - Qmin x 100) <= 1 # 20)%Q.
Proof.
  destruct (Qmin_cases x 100) as [[Hle ->]|[Hgt ->]].
  - rewrite min_le by (by apply toFixed1_le_100). apply toFixed1_close.
  - pose proof (toFixed1_ge_100 x Hgt) as Hge.
    apply Qabs_Qle_condition.
    unfold JS.min. destruct (Qle_bool _ _) eqn:E.
    + apply Qle_bool_iff in E. split; lra.
    + split; lra.
Qed.

Lemma clamp_tenths (x : Q) : exists n : Z, (JS.min (JS.toFixed1 x) 100 == n # 10)%Q.
Proof.
  unfold JS.min. destruct (Qle_bool _ _); [apply toFixed1_tenths|].
  exists 1000%Z. reflexivity.
Qed.

Lemma barColor_bands (v : Q) :
  ((90 <= v)%Q -> barColor v = "red")
  ∧ ((75 <= v)%Q ∧ (v < 90)%Q -> barColor v = "orange")
  ∧ ((v < 75)%Q -> barColor v = "green").
Proof.
  unfold barColor.
  destruct (JS.geb v 90) eqn:E90; destruct (JS.geb v 75) eqn:E75;
    try apply geb_le in E90; try apply geb_le in E75;
    repeat split; try done; intros; try lra.
  all: try (assert (JS.geb v 90 = true) by (apply geb_le; lra); congruence).
  all: try (assert (JS.geb v 75 = true) by (apply geb_le; lra); congruence).
Qed.

(** The number behind the progress line: on a card rendered with a job
    whose progress percent is [x], the value of [progressPercent] is
    [min(x, 100)] rounded to tenths: it equals [toFixed(1)] of the
    clamped value, is a whole number of tenths and lies within 0.05 of
    [min(x, 100)]. The bar is red when that value is at least 90, orange
    when it is at least 75 and below 90, and green below 75. *)
Theorem card_progress_display (r : gmap string string) (user : User) (machine : Machine)
    (loc : string) (node : nat) (j : Job) (x : Q) :
  m_job machine = Some j ->
  progress_percent j = Some x ->
  exists jv,
    cv_job (cardHTML r user machine loc node) = Some jv
    ∧ (jv_progress jv == JS.toFixed1 (Qmin x 100))%Q
    ∧ (exists n : Z, (jv_progress jv == n # 10)%Q)
    ∧ (Qabs (jv_progress jv - Qmin x 100) <= 1 # 20)%Q
    ∧ ((90 <= jv_progress jv)%Q -> jv_color jv = "red")
    ∧ ((75 <= jv_progress jv)%Q ∧ (jv_progress jv < 90)%Q -> jv_color jv = "orange")
    ∧ ((jv_progress jv < 75)%Q -> jv_color jv = "green").
Proof.
  intros Hj Hx. unfold cardHTML. rewrite Hj. simpl. eexists. split; [reflexivity|].
  simpl. unfold progressPercentOf. rewrite Hj. simpl. rewrite Hx.
  split; [apply clamp_round_commute|].
  split; [apply clamp_tenths|].
  split; [apply clamp_close|].
  apply barColor_bands.
Qed.

(** *** Countdown *)

(** C10: after [setupETACountdown(id, s)] with the span [eta-<id>] present
    as [e], the span shows [formatTime(s)] and the interval is active;
    after [n >= 1] firings the span shows [formatTime(s - (n - 1))], so
    the first firing repeats [formatTime(s)]; the interval is still
    active after [n] firings exactly when the counter [s - n] is not
    below 0; once it is cancelled the span shows "0:00"; and it is
    cancelled after finitely many firings. *)
Theorem countdown_display (p : Page) (id : string) (s : Q) (e : nat) :
  result (getElementById_eta id) p = Returns (Some e) ->
  let h := next_interval p in
  let p0 := exec (setupETACountdown id s) p in
  eta_text p0 !! e = Some (formatTime (Some s))
  ∧ is_Some (intervals p0 !! h)
  ∧ (forall n : nat, (1 <= n)%nat ->
       let pn := exec (eta_ticks n h) p0 in
       eta_text pn !! e = Some (formatTime (Some (s - (inject_Z (Z.of_nat n) - 1))%Q))
       ∧ (is_Some (intervals pn !! h) <-> (0 <= s - inject_Z (Z.of_nat n))%Q)
       ∧ (intervals pn !! h = None -> eta_text pn !! e = Some "0:00"))
  ∧ (exists n : nat, (1 <= n)%nat ∧ intervals (exec (eta_ticks n h) p0) !! h = None).
Proof.
  intros He h p0.
  assert (He' : first_some (eta_span_of id) (cards p) = Some e).
  { unfold result, getElementById_eta in He. js_unfold. simpl in He. congruence. }
  destruct (setupETACountdown_present id s e p He') as (_ & Ht & Hrun & _).
  fold p0 in Ht, Hrun. fold h in Hrun.
  assert (Hticks : forall n : nat, (1 <= n)%nat ->
            eta_text (exec (eta_ticks n h) p0) !! e
            = Some (formatTime (Some (s - (inject_Z (Z.of_nat n) - 1))%Q))
            ∧ (is_Some (intervals (exec (eta_ticks n h) p0) !! h)
               <-> (0 <= s - inject_Z (Z.of_nat n))%Q)).
  { intros [|k] Hn; [lia|].
    destruct (eta_ticks_running k h id e s p0 Hrun) as (_ & H1 & H2).
    split; [|exact H2]. rewrite H1. f_equal. apply formatTime_comp.
    pose proof (Qnat_succ k). lra. }
  split; [done|]. split; [destruct Hrun as [-> _]; by eexists|]. split.
  - intros n Hn pn. destruct (Hticks n Hn) as [H1 H2]. fold pn in H1, H2.
    split; [done|]. split; [done|]. intros Hnone. rewrite H1. f_equal.
    apply formatTime_below_one.
    destruct (Qlt_le_dec (s - inject_Z (Z.of_nat n)) 0) as [Hlt|Hge]; [lra|].
    apply H2 in Hge. rewrite Hnone in Hge. by destruct Hge.
  - exists (S (Z.to_nat (Qfloor s))). split; [lia|].
    destruct (Hticks (S (Z.to_nat (Qfloor s))) ltac:(lia)) as [_ H2].
    destruct (intervals _ !! h) eqn:E; [|done]. exfalso.
    assert (H3 : (0 <= s - inject_Z (Z.of_nat (S (Z.to_nat (Qfloor s)))))%Q).
    { apply H2. by eexists. }
    destruct (floor_bounds s) as [_ Hs].
    assert (H4 : (inject_Z (Qfloor s) <= inject_Z (Z.of_nat (Z.to_nat (Qfloor s))))%Q).
    { rewrite <- Zle_Qle. lia. }
    pose proof (Qnat_succ (Z.to_nat (Qfloor s))). lra.
Qed.

(** *** Rename overlay *)

Lemma write_title_keeps (P : Page -> Prop) (li ci : nat) (text : string) :
  (forall p les, P p -> P (set_locations_el les p)) ->
  hoare P (write_title li ci text) (fun _ => P) (fun _ => P).
Proof.
  intros HP p Hp. unfold write_title. js_unfold.
  destruct (card_at li ci p) as [c|]; [|done].
  destruct (JS.truthy _); [by apply HP|]. by destruct (cv_edit _).
Qed.

Lemma editMachineName_sets_overlay (loc M oldName newName : string) (p : Page) :
  newName <> "" -> JS.trim newName <> oldName ->
  let p' := exec (editMachineName loc M oldName (Some newName) (Some true)) p in
  renamedMachines p' !! M = Some (JS.trim newName)
  ∧ currentUser p' = currentUser p
  ∧ suppressNextWSRender p' = suppressNextWSRender p.
Proof.
  intros Hn Ht.
  pose (Inv := fun q : Page =>
                 renamedMachines q !! M = Some (JS.trim newName)
                 ∧ currentUser q = currentUser p
                 ∧ suppressNextWSRender q = suppressNextWSRender p).
  assert (H : hoare (fun q => q = p)
                (editMachineName loc M oldName (Some newName) (Some true))
                (fun _ => Inv) (fun _ => Inv)).
  { unfold editMachineName.
    assert (JS.truthy newName = true) as -> by (by destruct newName).
    rewrite bool_decide_eq_false_2 by done. cbn [negb orb].
    apply (hoare_try_catch _ _ _ (fun _ => Inv)).
    - eapply hoare_bind.
      { by apply (hoare_ret _ (fun ok q => q = p ∧ ok = true)). }
      intros [|]; [|by intros q [_ ?]]. cbn [negb].
      eapply hoare_bind.
      { apply (hoare_modify _ (fun _ => Inv)). intros q [-> _].
        unfold Inv. simpl. by rewrite lookup_insert_eq. }
      intros tt0. eapply hoare_bind.
      { unfold getElementById_machine. eapply hoare_bind; [apply hoare_get|].
        intros q0. apply (hoare_ret _ (fun _ => Inv)). by intros q [Hq _]. }
      intros card. eapply (hoare_bind _ (fun _ => Inv)).
      { destruct card as [[li ci]|]; [|by apply hoare_ret].
        apply write_title_keeps. by intros q les Hq. }
      intros tt1. apply createAlert_keeps. by intros q al Hq.
    - intros e. apply (hoare_modify _ (fun _ => Inv)). by intros q Hq. }
  specialize (H p eq_refl). unfold exec.
  by destruct (editMachineName loc M oldName (Some newName) (Some true) p) as [q [[]|e]].
Qed.

(** A non-empty overlay name survives refreshes: once machine [M]
    carries the overlay name [N] and [N] is not empty, every later
    sequence of full snapshots, polled or pushed, ends normally, keeps
    the overlay, and leaves every card of [M] titled [N], whatever name
    the snapshots carry, as long as the user stays logged in. (No handler
    ever raises the suppression flag.) *)
Theorem rename_overlay_survives_refresh (p : Page) (u : User) (M N : string)
    (rs : list Refresh) :
  currentUser p = Some u ->
  suppressNextWSRender p = false ->
  renamedMachines p !! M = Some N ->
  N <> "" ->
  rs <> [] ->
  let p' := exec (forEach rs deliver) p in
  result (forEach rs deliver) p = Returns tt
  ∧ renamedMachines p' !! M = Some N
  ∧ (forall c, c ∈ cards p' -> card_id c = M -> cv_title (card_view c) = N).
Proof.
  intros Hu Hs Hr HN Hrs.
  pose proof (refreshes_titled u M N HN rs Hrs p) as H.
  unfold exec, result. destruct (forEach rs deliver p) as [p' [[]|e]].
  - destruct H as [(_ & Hr' & _) Ht]; [done|]. split; [done|]. split; [done|].
    intros c Hc Hid. apply cards_elem in Hc as (le & Hle & Hc). by eapply Ht.
  - by destruct H.
Qed.

(** The admin renames machine 1 to "Line A"; after a poll and a push of
    the unchanged snapshot the cards read "Line A" and "B2". *)
Lemma rename_overlay_survives_refresh_witness :
  renamedMachines Fixture.page_renamed !! "1" = Some "Line A"
  ∧ rendered_titles Fixture.page_refreshed = ["Line A"; "B2"]
  ∧ (forall c, c ∈ cards Fixture.page_refreshed ->
       card_id c = "1" -> cv_title (card_view c) = "Line A").
Proof.
  split; [reflexivity|]. split; [vm_compute; reflexivity|].
  apply (rename_overlay_survives_refresh Fixture.page_renamed Fixture.admin "1" "Line A"
           Fixture.refreshes);
    [reflexivity | reflexivity | reflexivity | discriminate | discriminate].
Defined.

(** The blank answer: the admin answers the rename prompt of machine 1
    with a single blank, the backend accepts, and the overlay recorded
    for machine 1 is the empty name; after the next full snapshot the
    card of machine 1 is titled "A1", the name carried in the snapshot,
    not the overlay. *)
Lemma blank_rename_not_rendered : ~ renders_overlay "1" Fixture.page_blank_refreshed.
Proof.
  intros H.
  specialize (H "" (card_of Fixture.machine_A
                      (cardHTML {[ "1" := "" ]} Fixture.admin Fixture.machine_A "Modan" 1))).
  assert (Hx : "A1" = "").
  { apply H; [reflexivity| |reflexivity]. vm_compute. left. }
  discriminate.
Qed.

(** *** Witnesses and counterexamples for the new-job claims *)

(** On the live page an event for the idle machine 2 becomes its current
    job, and an event for the busy machine 1 becomes its queued job. *)
Lemma handleNewJob_routes_witness :
  (exists m',
     machine_at 0 1 (exec (handleNewJob (Fixture.event_for "2")) Fixture.page_live) = Some m'
     ∧ m_job m' = Some {| work_order := "WO-9"; size := "32mm"; completed_qty := 0;
                          total_qty := 7; remaining_time := Some 60%Q;
                          progress_percent := Some 0%Q |}
     ∧ m_next_job m' = None)
  ∧ (exists m',
       machine_at 0 0 (exec (handleNewJob (Fixture.event_for "1")) Fixture.page_live) = Some m'
       ∧ m_job m' = Some Fixture.job_A
       ∧ m_next_job m' = Some {| nj_work_order := "WO-9"; nj_pipe_size := "32mm";
                                 nj_produced_qty := 0; nj_total_qty := 7;
                                 nj_remaining_time := Some 60%Q |}).
Proof.
  split.
  - destruct (handleNewJob_routes Fixture.page_live (Fixture.event_for "2") Fixture.modan
                0 1 {| l_name := "Modan"; l_machines := [Fixture.machine_A; Fixture.machine_B] |}
                Fixture.machine_B)
      as (m' & Hat & _ & _ & _ & Hcur & _).
    + reflexivity.
    + reflexivity.
    + reflexivity.
    + reflexivity.
    + intros li' loc' m'' Hlt. lia.
    + intros mi' m'' Hlt Hm. assert (mi' = 0)%nat as -> by lia.
      simpl in Hm. inversion Hm. discriminate.
    + exists m'. split; [exact Hat|]. apply Hcur. left. reflexivity.
  - destruct (handleNewJob_routes Fixture.page_live (Fixture.event_for "1") Fixture.modan
                0 0 {| l_name := "Modan"; l_machines := [Fixture.machine_A; Fixture.machine_B] |}
                Fixture.machine_A)
      as (m' & Hat & _ & _ & _ & _ & Hq).
    + reflexivity.
    + reflexivity.
    + reflexivity.
    + reflexivity.
    + intros li' loc' m'' Hlt. lia.
    + intros mi' m'' Hlt. lia.
    + exists m'. split; [exact Hat|]. apply Hq. split; discriminate.
Defined.

(** Between [handleNewJob] and the [handleAlerts] that follows it in the
    message handler the panel does hold the new-job alert: on the live
    page, after [handleNewJob] alone for the unknown machine 77, the
    alerts panel has gained an entry. *)
Lemma unknown_machine_alerts :
  ~ dropped_silently (Fixture.event_for "77") Fixture.page_live.
Proof.
  intros (_ & _ & _ & Ha & _). vm_compute in Ha. discriminate.
Qed.

(** On the live page the event for machine 77 changes nothing but the
    alerts panel. *)
Lemma handleNewJob_unknown_machine_witness :
  result (handleNewJob (Fixture.event_for "77")) Fixture.page_live = Returns tt
  ∧ dashboardCache Fixture.page_unknown_job = dashboardCache Fixture.page_live
  ∧ locations_el Fixture.page_unknown_job = locations_el Fixture.page_live
  ∧ dialogs Fixture.page_unknown_job = dialogs Fixture.page_live
  ∧ alerts_el Fixture.page_unknown_job
    = Some [ {| alert_text := "✅ New Job Assigned to B2: WO-9"; alert_color := "#ff9800" |} ].
Proof.
  apply (handleNewJob_unknown_machine Fixture.page_live (Fixture.event_for "77") Fixture.modan).
  - reflexivity.
  - intros loc m Hl Hm.
    apply list_elem_of_singleton in Hl as ->. simpl in Hm.
    apply elem_of_cons in Hm as [->|Hm]; [discriminate|].
    apply list_elem_of_singleton in Hm as ->. discriminate.
Defined.

(** *** Witnesses and counterexamples for machine actions *)

(** Counterexample to C5 as stated: machine 2 is idle in the cached
    snapshot, its start succeeds and returns the record with status
    running, and afterwards the cached snapshot does not hold the returned
    record at the machine's position. *)
Lemma start_not_written_to_cache :
  ~ action_result_applied 0 1 Fixture.machine_B_started Fixture.page_started.
Proof. unfold action_result_applied. vm_compute. discriminate. Qed.

(** A successful start of machine 2 re-renders its card only; a failed
    one opens the dialog; the cached snapshot is the same in both. *)
Lemma machineAction_done_scoped_witness :
  dashboardCache Fixture.page_started = dashboardCache Fixture.page_live
  ∧ (cv_status ∘ card_view <$> card_at 0 1 Fixture.page_started) = Some "RUNNING"
  ∧ card_at 0 0 Fixture.page_started = card_at 0 0 Fixture.page_live
  ∧ dialogs Fixture.page_start_failed = ["❌ start failed"]
  ∧ dashboardCache Fixture.page_start_failed = dashboardCache Fixture.page_live.
Proof.
  destruct (machineAction_done_scoped Fixture.page_live "start" "Modan" "2"
              (Some Fixture.start_reply)) as (Hc & Hok & _).
  destruct (machineAction_done_scoped Fixture.page_live "start" "Modan" "2" None)
    as (Hc' & _ & Hfail).
  destruct (Hok Fixture.machine_B_started Fixture.operator 0%nat 1%nat
              {| card_id := "2"; card_class := "machine status-idle";
                 card_view := cardHTML ∅ Fixture.operator Fixture.machine_B "Modan" 1 |})
    as (_ & _ & Hcard & Hothers); [reflexivity..|].
  destruct Hfail as [_ Hq]; [by left|].
  split; [exact Hc|]. split.
  { unfold Fixture.page_started. rewrite Hcard. reflexivity. }
  split; [apply Hothers; discriminate|].
  split; [|exact Hc']. unfold Fixture.page_start_failed. rewrite Hq. reflexivity.
Defined.

(** *** The render pass: filters *)

(** The two examples of the filter composition. *)
Example status_filter_example :
  rendered_titles (exec (renderDashboard (Some Fixture.modan))
                     (Fixture.page_blank Fixture.admin "running" "")) = ["A1"].
Proof. vm_compute. reflexivity. Qed.

Example search_filter_example :
  rendered_titles (exec (renderDashboard (Some Fixture.modan))
                     (Fixture.page_blank Fixture.admin "all" "b")) = ["B2"].
Proof. vm_compute. reflexivity. Qed.

(** C6: the render pass filters by location, by status and by a
    case-insensitive search on the machine's display name or the current
    job's work order. The code searches [m.name], the name carried in
    the snapshot, and never consults the rename overlay: with machine 1
    renamed to "Line A", an empty search renders the cards "Line A" and
    "B2", the search text "line" renders no card although the display
    name "Line A" contains it, and the search text "a1" renders the card
    titled "Line A". *)
Theorem search_ignores_rename_overlay :
  rendered_titles (exec (renderDashboard (Some Fixture.modan)) (Fixture.page_search ""))
  = ["Line A"; "B2"]
  ∧ rendered_titles (exec (renderDashboard (Some Fixture.modan)) (Fixture.page_search "line"))
    = []
  ∧ rendered_titles (exec (renderDashboard (Some Fixture.modan)) (Fixture.page_search "a1"))
    = ["Line A"].
Proof. repeat split; vm_compute; reflexivity. Qed.

(** *** Countdown after the card is gone *)

(** The test on [el] in the interval callback reads the element captured
    when the countdown was set up, which is never null: a running
    countdown keeps running whatever happens to the document. *)
Lemma eta_tick_ignores_document (h : nat) (id : string) (e : nat) (t : Q) (p : Page)
    (les : list LocationEl) :
  Running h id e t p -> (0 <= t - 1)%Q ->
  Running h id e (t - 1) (exec (eta_tick h) (set_locations_el les p)).
Proof.
  intros Hrun Ht.
  destruct (eta_tick_running h id e t (set_locations_el les p) Hrun) as (_ & _ & H).
  destruct (JS.ltb (t - 1) 0) eqn:E; [|done].
  apply ltb_lt in E. lra.
Qed.

(** C7: a countdown whose display element no longer exists cancels itself
    on its next tick. On the live page the countdown of machine 1 runs
    under handle 0 on the span of its card; after a snapshot without
    machine 1 the span [eta-1] is gone from the document (only the card
    "B2" is left), and the next firing of the interval returns normally,
    leaves the interval active with its counter decremented and writes
    "0:03" into the detached span. *)
Theorem countdown_outlives_card :
  etaIntervals Fixture.page_live !! "1" = Some 0%nat
  ∧ result (getElementById_eta "1") Fixture.page_live = Returns (Some 0%nat)
  ∧ result (getElementById_eta "1") Fixture.page_A_removed = Returns None
  ∧ rendered_titles Fixture.page_A_removed = ["B2"]
  ∧ result (eta_tick 0) Fixture.page_A_removed = Returns tt
  ∧ intervals Fixture.page_A_removed_ticked !! 0%nat
    = Some {| cd_id := "1"; cd_el := Some 0%nat; cd_t := (3 - 1)%Q |}
  ∧ eta_text Fixture.page_A_removed_ticked !! 0%nat = Some "0:03".
Proof. repeat split; vm_compute; reflexivity. Qed.

(** *** Witnesses for the display claims *)

(** Machine 1 at 82.3 percent: displayed 82.3, orange bar. *)
Lemma card_progress_display_witness :
  exists jv,
    cv_job (cardHTML ∅ Fixture.operator Fixture.machine_A "Modan" 0) = Some jv
    ∧ (jv_progress jv == 823 # 10)%Q
    ∧ jv_color jv = "orange".
Proof.
  destruct (card_progress_display ∅ Fixture.operator Fixture.machine_A "Modan" 0
              Fixture.job_A (823 # 10)%Q eq_refl eq_refl)
    as (jv & Hjv & Hval & _ & _ & _ & Horange & _).
  exists jv. split; [exact Hjv|]. split; [rewrite Hval; reflexivity|].
  apply Horange. rewrite Hval. split; vm_compute; [discriminate|reflexivity].
Defined.

(** A countdown from 3 on the card of machine 1. *)
Lemma countdown_display_witness :
  eta_text Fixture.page_counting !! 0%nat = Some "0:03"
  ∧ eta_text (exec (eta_ticks 1 1) Fixture.page_counting) !! 0%nat = Some "0:03"
  ∧ eta_text (exec (eta_ticks 2 1) Fixture.page_counting) !! 0%nat = Some "0:02"
  ∧ is_Some (intervals (exec (eta_ticks 3 1) Fixture.page_counting) !! 1%nat)
  ∧ exists n : nat,
      (1 <= n)%nat ∧ intervals (exec (eta_ticks n 1) Fixture.page_counting) !! 1%nat = None.
Proof.
  destruct (countdown_display Fixture.page_live "1" 3%Q 0%nat eq_refl)
    as (H0 & _ & Hn & Hend).
  split; [exact H0|].
  split; [exact (proj1 (Hn 1%nat ltac:(lia)))|].
  split; [exact (proj1 (Hn 2%nat ltac:(lia)))|].
  split; [|exact Hend].
  apply (proj1 (proj2 (Hn 3%nat ltac:(lia)))). vm_compute. discriminate.
Defined.

(** * Further properties *)

(** *** The shape of a formatted duration *)

Lemma Qfloor_unique (x : Q) (z : Z) :
  (inject_Z z <= x)%Q -> (x < inject_Z z + 1)%Q -> Qfloor x = z.
Proof.
  intros H1 H2. destruct (floor_bounds x) as [H3 H4].
  assert (Ha : (inject_Z z <= inject_Z (Qfloor x))%Q) by (apply inject_Z_lt_le; lra).
  assert (Hb : (inject_Z (Qfloor x) <= inject_Z z)%Q) by (apply inject_Z_lt_le; lra).
  rewrite <- Zle_Qle in Ha, Hb. lia.
Qed.

Lemma pad2_two_digits (s : Z) : (0 <= s < 60)%Z -> pad2 (JS.showZ s) = two_digits s.
Proof.
  intros H. rewrite <- (Z2Nat.id s) by lia.
  assert (Hn : (Z.to_nat s < 60)%nat) by lia.
  remember (Z.to_nat s) as n eqn:En. clear En H.
  do 60 (destruct n as [|n]; [reflexivity|]). lia.
Qed.

(** X1: For a duration of zero or more seconds [formatTime] prints the
    whole minutes, a colon and the remaining whole seconds on exactly
    two digits: with [m] minutes and [s] seconds, [60 m + s] is the
    duration rounded down and [s] is below sixty. *)
Theorem formatTime_shape (d : Q) :
  (0 <= d)%Q ->
  exists m s : Z,
    (0 <= m)%Z ∧ (0 <= s < 60)%Z ∧ (60 * m + s)%Z = Qfloor d
    ∧ formatTime (Some d) = JS.showZ m +:+ ":" +:+ two_digits s.
Proof.
  intros Hd. rewrite formatTime_nonneg by done.
  set (m := Qfloor (d / 60)).
  destruct (floor_bounds (d / 60)) as [H1 H2]. fold m in H1, H2.
  assert (Hm1 : (inject_Z m * 60 <= d)%Q).
  { assert (d / 60 * 60 == d)%Q by (field). lra. }
  assert (Hm2 : (d < (inject_Z m + 1) * 60)%Q).
  { assert (d / 60 * 60 == d)%Q by (field). lra. }
  set (s := (Qfloor d - 60 * m)%Z).
  assert (Hs : Qfloor (Qmod d 60) = s).
  { unfold Qmod. fold m. apply Qfloor_unique; unfold s.
    - destruct (floor_bounds d) as [H3 H4].
      unfold Z.sub; rewrite inject_Z_plus, inject_Z_opp, inject_Z_mult. change (inject_Z 60) with 60%Q. lra.
    - destruct (floor_bounds d) as [H3 H4].
      unfold Z.sub; rewrite inject_Z_plus, inject_Z_opp, inject_Z_mult. change (inject_Z 60) with 60%Q. lra. }
  destruct (floor_bounds d) as [H3 H4].
  assert (Hlo : (inject_Z (60 * m) <= inject_Z (Qfloor d))%Q).
  { apply inject_Z_lt_le. rewrite inject_Z_mult. change (inject_Z 60) with 60%Q. lra. }
  assert (Hhi : (inject_Z (Qfloor d) <= inject_Z (60 * m + 59))%Q).
  { apply inject_Z_lt_le. rewrite inject_Z_plus, inject_Z_mult.
    change (inject_Z 60) with 60%Q. change (inject_Z 59) with 59%Q. lra. }
  rewrite <- Zle_Qle in Hlo, Hhi.
  assert (Hm0 : (0 <= m)%Z).
  { assert (Hx : (inject_Z 0 <= inject_Z m)%Q).
    { apply inject_Z_lt_le. change (inject_Z 0) with 0%Q. lra. }
    by rewrite <- Zle_Qle in Hx. }
  exists m, s. split; [done|]. split; [unfold s; lia|]. split; [unfold s; lia|].
  rewrite Hs, pad2_two_digits by (unfold s; lia). reflexivity.
Qed.

Lemma formatTime_shape_witness :
  exists m s : Z,
    (0 <= m)%Z ∧ (0 <= s < 60)%Z ∧ (60 * m + s)%Z = Qfloor 125
    ∧ formatTime (Some 125%Q) = JS.showZ m +:+ ":" +:+ two_digits s.
Proof. apply (formatTime_shape 125). unfold Qle. simpl. lia. Defined.

(** *** Card ids under updates of the document *)

Lemma ids_alter_view (ci : nat) (v : CardView) (g : list CardEl) :
  card_id <$> alter (fun c => {| card_id := card_id c; card_class := card_class c;
                                 card_view := v |}) ci g
  = card_id <$> g.
Proof.
  rewrite (list_fmap_alter card_id _ id); [|by apply Forall_true].
  by apply list_alter_id.
Qed.

Lemma concat_ids_update_card (li ci : nat) (v : CardView) (les : list LocationEl) :
  card_id <$> concat (le_grid <$> update_card li ci v les)
  = card_id <$> concat (le_grid <$> les).
Proof.
  unfold update_card. revert li. induction les as [|le les IH]; intros [|li]; try done.
  - csimpl. by rewrite !fmap_app, ids_alter_view.
  - csimpl. rewrite !fmap_app. f_equal. apply IH.
Qed.

Lemma concat_ids_append_card (li : nat) (c : CardEl) (les : list LocationEl) :
  (li < length les)%nat ->
  card_id <$> concat (le_grid <$> append_card li c les)
  ≡ₚ card_id c :: (card_id <$> concat (le_grid <$> les)).
Proof.
  unfold append_card. revert li. induction les as [|le les IH]; intros [|li] Hli;
    csimpl in *; try lia.
  - rewrite !fmap_app. csimpl.
    rewrite <- (assoc_L app). rewrite (Permutation_app_comm _ ([card_id c] ++ _)).
    simpl. constructor. apply Permutation_app_comm.
  - rewrite !fmap_app, IH by lia. by rewrite Permutation_middle.
Qed.

Lemma concat_ids_append_card_ge (li : nat) (c : CardEl) (les : list LocationEl) :
  (length les <= li)%nat -> append_card li c les = les.
Proof.
  unfold append_card. revert li. induction les as [|le les IH]; intros [|li] Hli;
    csimpl in *; try done; try lia. f_equal. apply IH. lia.
Qed.

Lemma find_card_None (id : string) (les : list LocationEl) :
  forall k, find_card id k les = None -> id ∉ card_id <$> concat (le_grid <$> les).
Proof.
  induction les as [|le les IH]; intros k H; csimpl in *.
  - by intros ?%elem_of_nil.
  - destruct (list_find _ (le_grid le)) as [[i c]|] eqn:Ef; [done|].
    rewrite fmap_app, elem_of_app. intros [Hin|Hin].
    + apply list_elem_of_fmap in Hin as (c & -> & Hc).
      apply list_find_None in Ef. rewrite Forall_forall in Ef. by apply (Ef c).
    + by apply (IH (S k)).
Qed.

Lemma find_card_elem (id : string) (les : list LocationEl) (k li ci : nat) :
  find_card id k les = Some (li, ci) -> id ∈ card_id <$> concat (le_grid <$> les).
Proof.
  intros H. apply find_card_Some in H as (le & c & Hle & Hc & Hid & _).
  apply list_elem_of_fmap. exists c. split; [done|].
  apply concat_grid_elem. exists le. split; apply list_elem_of_lookup; eauto.
Qed.

(** *** The timer table and the card ids are kept consistent *)

Lemma TimersOk_start (id : string) (e : nat) (s : Q) (old : option nat)
    (ivs : gmap nat Countdown) (etas : gmap string nat) (next : nat) :
  (forall h cd, ivs !! h = Some cd -> etas !! cd_id cd = Some h ∧ (h < next)%nat) ->
  etas !! id = old ->
  forall h cd,
    <[next := {| cd_id := id; cd_el := Some e; cd_t := s |}]>
      (match old with Some k => delete k ivs | None => ivs end) !! h = Some cd ->
    <[id := next]> etas !! cd_id cd = Some h ∧ (h < S next)%nat.
Proof.
  intros Hok Hold h cd Hh.
  destruct (decide (next = h)) as [<-|Hne].
  - rewrite lookup_insert_eq in Hh. inversion Hh; subst. simpl.
    rewrite lookup_insert_eq. split; [done|lia].
  - rewrite lookup_insert_ne in Hh by done.
    assert (Hin : ivs !! h = Some cd ∧ old <> Some h).
    { destruct old as [k|].
      - destruct (decide (k = h)) as [->|Hk].
        + by rewrite lookup_delete_eq in Hh.
        + rewrite lookup_delete_ne in Hh by done. split; [done|congruence].
      - done. }
    destruct Hin as [Hin Hno]. destruct (Hok h cd Hin) as [He Hlt].
    split; [|lia]. destruct (decide (id = cd_id cd)) as [Heq|Hid].
    + rewrite <- Heq, Hold in He. congruence.
    + by rewrite lookup_insert_ne.
Qed.

Lemma TimersOk_stop (old : option nat) (ivs : gmap nat Countdown)
    (etas : gmap string nat) (next : nat) :
  (forall h cd, ivs !! h = Some cd -> etas !! cd_id cd = Some h ∧ (h < next)%nat) ->
  forall h cd,
    (match old with Some k => delete k ivs | None => ivs end) !! h = Some cd ->
    etas !! cd_id cd = Some h ∧ (h < next)%nat.
Proof.
  intros Hok h cd Hh. apply Hok. destruct old as [k|]; [|done].
  destruct (decide (k = h)) as [->|Hk].
  - by rewrite lookup_delete_eq in Hh.
  - by rewrite lookup_delete_ne in Hh.
Qed.

Lemma TimersOk_setupETACountdown (id : string) (s : Q) (p : Page) :
  TimersOk p -> TimersOk (setupETACountdown id s p).1.
Proof.
  intros Hok. unfold setupETACountdown. js_unfold. unfold cards.
  destruct (etaIntervals p !! id) as [h0|] eqn:E0; simpl;
    destruct (first_some _ _) as [e|]; simpl.
  - intros h cd. simpl. apply (TimersOk_start id e s (Some h0)); done.
  - intros h cd. simpl. apply (TimersOk_stop (Some h0)); done.
  - intros h cd. simpl. apply (TimersOk_start id e s None); done.
  - done.
Qed.

Lemma TimersOk_eta_tick (h : nat) (p : Page) : TimersOk p -> TimersOk (eta_tick h p).1.
Proof.
  intros Hok. unfold eta_tick. js_unfold.
  destruct (intervals p !! h) as [cd|] eqn:Eh; [|done].
  destruct (Hok h cd Eh) as [He Hlt].
  assert (Hupd : forall k c,
            <[h := {| cd_id := cd_id cd; cd_el := cd_el cd; cd_t := (cd_t cd - 1)%Q |}]>
              (intervals p) !! k = Some c ->
            etaIntervals p !! cd_id c = Some k ∧ (k < next_interval p)%nat).
  { intros k c Hk. destruct (decide (h = k)) as [<-|Hne].
    - rewrite lookup_insert_eq in Hk. inversion Hk; subst. simpl. done.
    - rewrite lookup_insert_ne in Hk by done. by apply Hok. }
  destruct (cd_el cd) as [e|]; simpl.
  - destruct (JS.ltb (cd_t cd - 1) 0); simpl.
    + rewrite He. intros k c Hk. simpl in Hk.
      apply (TimersOk_stop (Some h) _ _ _ Hupd k c Hk).
    + exact Hupd.
  - rewrite He. intros k c Hk. simpl in Hk. apply (TimersOk_stop (Some h) _ _ _ Hok k c Hk).
Qed.

Lemma eta_tick_frame (h : nat) (p : Page) :
  (eta_tick h p).2 = Returns tt
  ∧ app_state (eta_tick h p).1 = app_state p
  ∧ locations_el (eta_tick h p).1 = locations_el p.
Proof.
  unfold eta_tick, app_state. js_unfold.
  destruct (intervals p !! h) as [cd|]; [|done].
  destruct (cd_el cd); simpl.
  - destruct (JS.ltb _ _); simpl; [|done]. by destruct (etaIntervals p !! cd_id cd).
  - by destruct (etaIntervals p !! cd_id cd).
Qed.

Lemma createOrUpdateMachineCard_timers (machine : Machine) (loc : string) (g : nat)
    (p : Page) :
  TimersOk p -> TimersOk (createOrUpdateMachineCard machine loc g p).1.
Proof.
  intros Hok. destruct (currentUser p) as [u|] eqn:Hu;
    [|by rewrite createOrUpdateMachineCard_logged_out].
  unfold createOrUpdateMachineCard. js_unfold. rewrite Hu.
  destruct (m_job machine) as [j|] eqn:Ej; simpl;
    destruct (find_card (m_id machine) 0 (locations_el p)) as [[li ci]|] eqn:Ec; simpl;
    try destruct (remaining_time j); simpl; rewrite ?Hu; try exact Hok;
    match goal with |- context [setupETACountdown ?i ?s ?q] =>
      pose proof (TimersOk_setupETACountdown i s q Hok) as H;
      destruct (setupETACountdown i s q) as [p2 o2]; simpl in *; by destruct o2
    end.
Qed.

Lemma createOrUpdateMachineCard_ids (machine : Machine) (loc : string) (g : nat)
    (p : Page) :
  NoDup (card_ids p) -> NoDup (card_ids (createOrUpdateMachineCard machine loc g p).1).
Proof.
  intros Hnd. destruct (currentUser p) as [u|] eqn:Hu;
    [|by rewrite createOrUpdateMachineCard_logged_out].
  destruct (createOrUpdateMachineCard_run machine loc g p u Hu) as (_ & _ & H3).
  unfold card_ids, cards in *. rewrite H3.
  destruct (find_card (m_id machine) 0 (locations_el p)) as [[li ci]|] eqn:Ef.
  - by rewrite concat_ids_update_card.
  - destruct (decide (g < length (locations_el p))%nat) as [Hg|Hg].
    + rewrite concat_ids_append_card by done. simpl.
      apply NoDup_cons. split; [by eapply find_card_None|done].
    + rewrite concat_ids_append_card_ge by lia. done.
Qed.

Lemma createOrUpdateMachineCard_flag (machine : Machine) (loc : string) (g : nat)
    (p : Page) :
  suppressNextWSRender (createOrUpdateMachineCard machine loc g p).1
  = suppressNextWSRender p.
Proof.
  pose proof (createOrUpdateMachineCard_same (app_state p) machine loc g p eq_refl) as H.
  destruct (createOrUpdateMachineCard machine loc g p) as [p' [a|e]]; simpl;
    unfold Same, app_state in H; by inversion H.
Qed.

(** *** Invariants of the event handlers *)

Lemma ids_new_location (loc : string) (les : list LocationEl) :
  card_id <$> concat (le_grid <$> (les ++ [{| le_heading := loc; le_grid := [] |}])%list)
  = card_id <$> concat (le_grid <$> les).
Proof. rewrite fmap_app, concat_app. simpl. by rewrite !app_nil_r. Qed.

Lemma ids_set_title (li ci : nat) (text : string) (les : list LocationEl) :
  card_id <$> concat (le_grid <$>
      alter (fun le => {| le_heading := le_heading le;
                          le_grid := alter (set_title text) ci (le_grid le) |}) li les)
  = card_id <$> concat (le_grid <$> les).
Proof.
  revert li. induction les as [|le les IH]; intros [|li]; try done.
  - csimpl. rewrite !fmap_app. f_equal.
    rewrite (list_fmap_alter card_id _ id); [|by apply Forall_true].
    by apply list_alter_id.
  - csimpl. rewrite !fmap_app. f_equal. apply IH.
Qed.

(** A property of the timer table, of the card ids and of the
    suppression flag that the document operations of the script keep is
    kept by every handler. *)
Section Invariant.
Variable Inv : Page -> Prop.
Hypothesis Inv_frame : forall p q,
  intervals q = intervals p -> etaIntervals q = etaIntervals p ->
  next_interval q = next_interval p -> locations_el q = locations_el p ->
  suppressNextWSRender q = suppressNextWSRender p -> Inv p -> Inv q.
Hypothesis Inv_lower : forall p, Inv p -> Inv (set_suppressNextWSRender false p).
Hypothesis Inv_document : forall p les,
  sublist (card_id <$> concat (le_grid <$> les)) (card_ids p) ->
  Inv p -> Inv (set_locations_el les p).
Hypothesis Inv_card : forall machine loc g p,
  Inv p -> Inv (createOrUpdateMachineCard machine loc g p).1.
Hypothesis Inv_tick : forall h p, Inv p -> Inv (eta_tick h p).1.

Lemma Inv_alerts (p : Page) (a : option (list AlertEl)) : Inv p -> Inv (set_alerts_el a p).
Proof. by apply Inv_frame. Qed.

Lemma createOrUpdateMachineCard_inv (machine : Machine) (loc : string) (g : nat) :
  hoare Inv (createOrUpdateMachineCard machine loc g) (fun _ => Inv) (fun _ => Inv).
Proof.
  intros p Hp. pose proof (Inv_card machine loc g p Hp) as H.
  by destruct (createOrUpdateMachineCard machine loc g p) as [p' [a|e]].
Qed.

Lemma renderLocation_inv (loc : string) (machines : list Machine) :
  hoare Inv (renderLocation loc machines) (fun _ => Inv) (fun _ => Inv).
Proof.
  unfold renderLocation. eapply hoare_bind; [apply hoare_get|].
  intros p0. cbv zeta. eapply hoare_bind.
  - apply (hoare_modify _ (fun _ => Inv)). intros p [Hp _].
    apply Inv_document; [|done]. by rewrite ids_new_location.
  - intros tt0. apply hoare_forEach. intros m _. apply createOrUpdateMachineCard_inv.
Qed.

Lemma renderDashboard_inv (data_locations : option (list Location)) :
  hoare Inv (renderDashboard data_locations) (fun _ => Inv) (fun _ => Inv).
Proof.
  unfold renderDashboard. eapply hoare_bind; [apply hoare_get|].
  intros p0 p [Hp ->]. destruct (currentUser p); [|done].
  assert (Hw : Inv (set_locations_el [] p)).
  { apply Inv_document; [|done]. apply sublist_nil_l. }
  rewrite seq_run. unfold modify at 1.
  destruct data_locations as [locs|]; [|done]. cbv zeta.
  match goal with |- context [forEach ?xs ?f] =>
    pose proof (hoare_forEach Inv (fun _ => Inv) xs f) as Hloop end.
  apply Hloop; [|done]. intros loc _. apply renderLocation_inv.
Qed.

Lemma handleAlerts_inv (data : Message) :
  hoare Inv (handleAlerts data) (fun _ => Inv) (fun _ => Inv).
Proof.
  destruct (locations data) as [locs|] eqn:Hd.
  - eapply hoare_conseq;
      [by apply (handleAlerts_keeps Inv data locs); [intros; by apply Inv_alerts|]
      |done|done|done].
  - unfold handleAlerts. eapply hoare_bind; [apply hoare_get|].
    intros p0 p [Hp ->]. destruct (alerts_el p); [|done].
    rewrite seq_run. unfold modify at 1. rewrite Hd. by apply Inv_alerts.
Qed.

Lemma createAlert_inv (E : exn -> Page -> Prop) (message : string) (level : Z) :
  hoare Inv (createAlert message level) (fun _ => Inv) E.
Proof. apply createAlert_keeps. intros. by apply Inv_alerts. Qed.

Lemma getElementById_machine_inv (id : string) (E : exn -> Page -> Prop) :
  hoare Inv (getElementById_machine id) (fun _ => Inv) E.
Proof.
  unfold getElementById_machine. eapply hoare_bind; [apply hoare_get|].
  intros q. apply hoare_ret. by intros p [Hp _].
Qed.

Lemma handleNewJob_scan_inv (ev : NewJob) (locs : list Location) :
  forall k, hoare Inv (handleNewJob_scan ev k locs) (fun _ => Inv) (fun _ => Inv).
Proof.
  induction locs as [|loc rest IH]; intros k; simpl; [by apply hoare_ret|].
  destruct (list_find _ (l_machines loc)) as [[mi machine]|]; [|apply IH].
  cbv zeta. eapply hoare_bind.
  { apply (hoare_modify _ (fun _ => Inv)). intros p Hp. by apply (Inv_frame p). }
  intros tt0. eapply hoare_bind; [apply getElementById_machine_inv|].
  intros [[g ci]|]; [apply createOrUpdateMachineCard_inv|by apply hoare_ret].
Qed.

Lemma handleNewJob_inv (ev : NewJob) :
  hoare Inv (handleNewJob ev) (fun _ => Inv) (fun _ => Inv).
Proof.
  unfold handleNewJob. eapply hoare_bind; [apply hoare_get|].
  intros p0. eapply (hoare_bind _ (fun _ => Inv)).
  - intros p [Hp ->]. destruct (locations (dashboardCache p)) as [locs|]; [|done].
    by apply handleNewJob_scan_inv.
  - intros tt0. eapply hoare_bind; [apply hoare_get|]. intros q.
    eapply (hoare_conseq _ Inv _ (fun _ => Inv) _ (fun _ => Inv));
      [apply createAlert_inv | by intros ? [? _] | done | done].
Qed.

Lemma socket_onmessage_inv (payload : option Message) :
  hoare Inv (socket_onmessage payload) (fun _ => Inv) (fun _ _ => False).
Proof.
  unfold socket_onmessage. apply (hoare_try_catch _ _ _ (fun _ => Inv)).
  2:{ intros e. apply createAlert_inv. }
  eapply (hoare_bind _ (fun _ => Inv)).
  { destruct payload; [by apply hoare_ret|by apply hoare_throw]. }
  intros data. eapply (hoare_bind _ (fun _ => Inv)).
  { apply hoare_modify. intros p Hp. by apply (Inv_frame p). }
  intros tt0. eapply hoare_bind; [apply hoare_get|]. intros p0.
  destruct (suppressNextWSRender p0).
  { apply hoare_modify. intros p [Hp _]. by apply Inv_lower. }
  eapply (hoare_bind _ (fun _ => Inv)).
  { destruct (new_job data).
    - eapply hoare_conseq; [apply handleNewJob_inv|by intros ? [? _]|done|done].
    - apply hoare_ret. by intros ? [? _]. }
  intros tt1. eapply hoare_bind; [apply hoare_get|]. intros q.
  eapply (hoare_bind _ (fun _ => Inv)).
  { intros p [Hp ->]. destruct (locations (dashboardCache p)); [|done].
    by apply renderDashboard_inv. }
  intros tt2. eapply hoare_bind; [apply hoare_get|]. intros q'.
  eapply hoare_conseq; [apply handleAlerts_inv | by intros ? [? _] | done | done].
Qed.

Lemma loadDashboard_done_inv (response : option Message) :
  hoare Inv (loadDashboard_done response) (fun _ => Inv) (fun _ _ => False).
Proof.
  unfold loadDashboard_done. apply (hoare_try_catch _ _ _ (fun _ => Inv)).
  2:{ intros e. apply createAlert_inv. }
  eapply (hoare_bind _ (fun _ => Inv)).
  { destruct response; [by apply hoare_ret|by apply hoare_throw]. }
  intros data. eapply (hoare_bind _ (fun _ => Inv)).
  { apply hoare_modify. intros p Hp. by apply (Inv_frame p). }
  intros tt0. apply renderDashboard_inv.
Qed.

Lemma window_alert_inv (E : exn -> Page -> Prop) (msg : string) :
  hoare Inv (window_alert msg) (fun _ => Inv) E.
Proof. apply hoare_modify. intros p Hp. by apply (Inv_frame p). Qed.

Lemma machineAction_done_inv (action loc id : string) (response : option ActionReply) :
  hoare Inv (machineAction_done action loc id response) (fun _ => Inv) (fun _ _ => False).
Proof.
  unfold machineAction_done. apply (hoare_try_catch _ _ _ (fun _ => Inv)).
  2:{ intros e. apply window_alert_inv. }
  eapply (hoare_bind _ (fun _ => Inv)).
  { destruct response; [by apply hoare_ret|by apply hoare_throw]. }
  intros data. destruct (negb (ar_ok data)); [apply window_alert_inv|].
  eapply (hoare_bind _ (fun _ => Inv)); [apply getElementById_machine_inv|].
  intros [[g ci]|]; [|by apply hoare_ret].
  destruct (ar_machine data); [apply createOrUpdateMachineCard_inv|by apply hoare_ret].
Qed.

Lemma editMachineName_inv (loc machineId oldName : string) (answer : option string)
    (response : option bool) :
  hoare Inv (editMachineName loc machineId oldName answer response)
    (fun _ => Inv) (fun _ _ => False).
Proof.
  unfold editMachineName. destruct answer as [newName|]; [|by apply hoare_ret].
  destruct (negb (JS.truthy newName) || bool_decide (JS.trim newName = oldName));
    [by apply hoare_ret|].
  apply (hoare_try_catch _ _ _ (fun _ => Inv)).
  2:{ intros e. apply window_alert_inv. }
  eapply (hoare_bind _ (fun _ => Inv)).
  { destruct response; [by apply hoare_ret|by apply hoare_throw]. }
  intros ok. destruct (negb ok); [apply window_alert_inv|].
  eapply (hoare_bind _ (fun _ => Inv)).
  { apply hoare_modify. intros p Hp. by apply (Inv_frame p). }
  intros tt0. eapply (hoare_bind _ (fun _ => Inv)); [apply getElementById_machine_inv|].
  intros card. eapply (hoare_bind _ (fun _ => Inv)).
  { destruct card as [[li ci]|]; [|by apply hoare_ret].
    unfold write_title. eapply hoare_bind; [apply hoare_get|].
    intros q p [Hp ->]. destruct (card_at li ci p) as [c|]; [|done].
    destruct (JS.truthy _).
    - apply Inv_document; [|done]. by rewrite ids_set_title.
    - by destruct (cv_edit _). }
  intros tt1. apply createAlert_inv.
Qed.

Lemma eta_tick_inv (h : nat) :
  hoare Inv (eta_tick h) (fun _ => Inv) (fun _ _ => False).
Proof.
  intros p Hp. destruct (eta_tick_frame h p) as (H1 & _).
  pose proof (Inv_tick h p Hp) as H.
  destruct (eta_tick h p) as [p' o]. simpl in *. by subst o.
Qed.

Lemma initFilters_inv : hoare Inv initFilters (fun _ => Inv) (fun _ => Inv).
Proof.
  unfold initFilters. eapply hoare_bind; [apply hoare_get|].
  intros p0 p [Hp ->]. destruct (filter_location p); [|done].
  rewrite seq_run. unfold modify at 1.
  assert (H : Inv (set_filter_location (Some "all") p)) by by apply (Inv_frame p).
  destruct (filter_status p); [|done]. by destruct (search_machine p).
Qed.

Lemma login_submit_inv (username_value password_value : string) :
  hoare Inv (login_submit username_value password_value) (fun _ => Inv) (fun _ => Inv).
Proof.
  unfold login_submit. cbv zeta. destruct (list_find _ users) as [[i user]|].
  - eapply hoare_bind; [|intros tt0; apply initFilters_inv].
    apply hoare_modify. intros p Hp. by apply (Inv_frame p).
  - apply window_alert_inv.
Qed.

Lemma restoreLogin_inv (saved : option User) :
  hoare Inv (restoreLogin saved) (fun _ => Inv) (fun _ => Inv).
Proof.
  unfold restoreLogin. destruct saved as [u|]; [|by apply hoare_ret].
  eapply hoare_bind; [|intros tt0; apply initFilters_inv].
  apply hoare_modify. intros p Hp. by apply (Inv_frame p).
Qed.

Lemma handle_guarded (ev : Event) :
  guarded ev = true ->
  hoare Inv (handle ev) (fun _ => Inv) (fun _ _ => False).
Proof.
  intros Hev. destruct ev; try discriminate Hev; simpl.
  - apply eta_tick_inv.
  - apply socket_onmessage_inv.
  - apply loadDashboard_done_inv.
  - apply machineAction_done_inv.
  - apply editMachineName_inv.
  - apply createAlert_inv.
  - apply createAlert_inv.
Qed.

Lemma handle_inv (ev : Event) : hoare Inv (handle ev) (fun _ => Inv) (fun _ => Inv).
Proof.
  destruct (guarded ev) eqn:Hev.
  - eapply hoare_conseq; [by apply handle_guarded|done|done|done].
  - destruct ev; try discriminate Hev; simpl.
    + destruct sent; [apply createAlert_inv|by apply hoare_throw].
    + apply login_submit_inv.
    + unfold logout. apply hoare_modify. intros p Hp. by apply (Inv_frame p).
    + apply restoreLogin_inv.
Qed.

Lemma dispatch_inv (ev : Event) : hoare Inv (dispatch ev) (fun _ => Inv) (fun _ _ => False).
Proof.
  unfold dispatch. apply (hoare_try_catch _ _ _ (fun _ => Inv)); [apply handle_inv|].
  intros e. by apply hoare_ret.
Qed.

Lemma dispatches_inv (evs : list Event) :
  hoare Inv (forEach evs dispatch) (fun _ => Inv) (fun _ _ => False).
Proof. apply hoare_forEach. intros ev _. apply dispatch_inv. Qed.

End Invariant.

(** *** What holds after every sequence of events *)

Lemma TimersOk_events (evs : list Event) :
  hoare TimersOk (forEach evs dispatch) (fun _ => TimersOk) (fun _ _ => False).
Proof.
  apply dispatches_inv.
  - intros p q Hi He Hn _ _ Hp h cd. rewrite Hi, He, Hn. apply Hp.
  - done.
  - done.
  - intros. by apply createOrUpdateMachineCard_timers.
  - intros. by apply TimersOk_eta_tick.
Qed.

Lemma unique_ids_events (evs : list Event) :
  hoare (fun p => NoDup (card_ids p)) (forEach evs dispatch)
    (fun _ p => NoDup (card_ids p)) (fun _ _ => False).
Proof.
  apply dispatches_inv.
  - intros p q _ _ _ Hl _. unfold card_ids, cards. by rewrite Hl.
  - done.
  - intros p les Hs Hp. by eapply sublist_NoDup.
  - intros. by apply createOrUpdateMachineCard_ids.
  - intros h p Hp. destruct (eta_tick_frame h p) as (_ & _ & Hl).
    unfold card_ids, cards in *. by rewrite Hl.
Qed.

Lemma flag_down_events (evs : list Event) :
  hoare (fun p => suppressNextWSRender p = false) (forEach evs dispatch)
    (fun _ p => suppressNextWSRender p = false) (fun _ _ => False).
Proof.
  apply dispatches_inv.
  - intros p q _ _ _ _ Hf. by rewrite Hf.
  - done.
  - done.
  - intros machine loc g p Hp. by rewrite createOrUpdateMachineCard_flag.
  - intros h p Hp. destruct (eta_tick_frame h p) as (_ & Ha & _).
    unfold app_state in Ha. inversion Ha. congruence.
Qed.

(** X2: From a page whose timer table is consistent (in particular one
    on which no interval runs yet), after every sequence of events every
    active countdown is the one recorded in [etaIntervals] for its
    machine; so no machine ever has two countdowns running. *)
Theorem one_countdown_per_machine (p : Page) (evs : list Event) :
  TimersOk p ->
  let p' := exec (forEach evs dispatch) p in
  (forall h cd, intervals p' !! h = Some cd -> etaIntervals p' !! cd_id cd = Some h)
  ∧ (forall h1 h2 cd1 cd2,
       intervals p' !! h1 = Some cd1 -> intervals p' !! h2 = Some cd2 ->
       cd_id cd1 = cd_id cd2 -> h1 = h2).
Proof.
  intros Hp p'.
  destruct (hoare_returns _ _ _ p (TimersOk_events evs) Hp) as (a & _ & Ht).
  fold p' in Ht. split.
  - intros h cd H. by destruct (Ht h cd H).
  - intros h1 h2 cd1 cd2 H1 H2 Hid.
    destruct (Ht h1 cd1 H1) as [E1 _]. destruct (Ht h2 cd2 H2) as [E2 _].
    rewrite Hid in E1. congruence.
Qed.

Lemma one_countdown_per_machine_witness :
  (forall h cd, intervals Scenario.page_after_session !! h = Some cd ->
                etaIntervals Scenario.page_after_session !! cd_id cd = Some h)
  ∧ (forall h1 h2 cd1 cd2,
       intervals Scenario.page_after_session !! h1 = Some cd1 ->
       intervals Scenario.page_after_session !! h2 = Some cd2 ->
       cd_id cd1 = cd_id cd2 -> h1 = h2).
Proof.
  apply (one_countdown_per_machine Scenario.page_loaded Scenario.session).
  intros h cd H. simpl in H. by rewrite lookup_empty in H.
Defined.

(** X3: If the cards under #locations have pairwise different ids, they
    still have after every sequence of events: the script never puts two
    elements of one id [machine-<id>] into the document. *)
Theorem card_ids_stay_unique (p : Page) (evs : list Event) :
  NoDup (card_ids p) -> NoDup (card_ids (exec (forEach evs dispatch) p)).
Proof.
  intros Hp.
  by destruct (hoare_returns _ _ _ p (unique_ids_events evs) Hp) as (a & _ & H).
Qed.

Lemma card_ids_stay_unique_witness : NoDup (card_ids Scenario.page_after_session).
Proof.
  apply (card_ids_stay_unique Scenario.page_loaded Scenario.session).
  vm_compute. constructor.
Defined.

(** X4: No handler raises [suppressNextWSRender]: once the flag is down
    it is down after every sequence of events, so the early return of
    [socket.onmessage] is never taken. *)
Theorem suppression_never_raised (p : Page) (evs : list Event) :
  suppressNextWSRender p = false ->
  suppressNextWSRender (exec (forEach evs dispatch) p) = false.
Proof.
  intros Hp.
  by destruct (hoare_returns _ _ _ p (flag_down_events evs) Hp) as (a & _ & H).
Qed.

Lemma suppression_never_raised_witness :
  suppressNextWSRender Scenario.page_after_session = false.
Proof.
  apply (suppression_never_raised Scenario.page_loaded Scenario.session). reflexivity.
Defined.

(** X5: The handlers in which every statement that can throw sits inside
    a [try] block never let an exception escape, whatever the page and
    whatever arrives: a countdown tick, a push message, a poll answer,
    an action reply, a rename, the closing of the socket and a failed
    request for the production log all end normally. (The handlers that
    call [socket.send], [initFilters] or [classList] methods outside a
    [try] are not covered.) *)
Theorem handlers_catch_everything (ev : Event) (p : Page) :
  guarded ev = true -> result (handle ev) p = Returns tt.
Proof.
  intros Hev.
  assert (H : hoare (fun _ => True) (handle ev) (fun _ _ => True) (fun _ _ => False)).
  { by apply (handle_guarded (fun _ => True)). }
  destruct (hoare_returns _ _ _ p H I) as ([] & Hr & _). exact Hr.
Qed.

Lemma handlers_catch_everything_witness :
  result (handle (PushMessage None)) Scenario.page_loaded = Returns tt.
Proof. apply handlers_catch_everything. reflexivity. Defined.

(** *** The alerts panel *)

(** A loop whose effect on the page is a fold. *)
Lemma hoare_forEach_fold {A S : Type} (J : S -> Page -> Prop) (E : exn -> Page -> Prop)
    (step : S -> A -> S) (xs : list A) (f : A -> Js unit) :
  (forall x acc, hoare (J acc) (f x) (fun _ => J (step acc x)) E) ->
  forall acc, hoare (J acc) (forEach xs f) (fun _ => J (foldl step acc xs)) E.
Proof.
  intros Hf. induction xs as [|x xs IH]; intros acc; simpl.
  - by apply hoare_ret.
  - eapply hoare_bind; [apply Hf|]. intros u. apply IH.
Qed.

Lemma foldl_add_alert (r : gmap string string) (ms : list Machine) :
  forall acc, foldl (add_alert r) acc ms = (reverse (omap (progressAlert r) ms) ++ acc)%list.
Proof.
  induction ms as [|m ms IH]; intros acc; simpl; [done|].
  rewrite IH. unfold add_alert. destruct (progressAlert r m); [|done].
  by rewrite reverse_cons, <- (assoc_L app).
Qed.

Lemma foldl_foldl_concat {A B : Type} (step : B -> A -> B) (xss : list (list A)) :
  forall acc, foldl (fun a xs => foldl step a xs) acc xss = foldl step acc (concat xss).
Proof.
  induction xss as [|xs xss IH]; intros acc; simpl; [done|].
  by rewrite IH, foldl_app.
Qed.

(** The three tests of [handleAlerts] on one machine are the bands of
    [progressAlert]. *)
Lemma handleAlerts_machine (p0 : Page) (m : Machine) (acc : list AlertEl) :
  let body :=
    match m_job m with
    | None => mret tt
    | Some j =>
        let pr := progress_percent j in
        q ← get;
        let who := JS.opt_or (renamedMachines q !! m_id m) (m_name m) in
        if opt_geb pr 75 && opt_ltb pr 90
        then createAlert (who +:+ " reached 75% progress!") 1
        else if opt_geb pr 90 && opt_ltb pr 100
        then createAlert (who +:+ " reached 90% progress!") 2
        else if opt_geb pr 100
        then createAlert (who +:+ " completed!") 3
        else mret tt
    end in
  body (set_alerts_el (Some acc) p0)
  = (set_alerts_el (Some (add_alert (renamedMachines p0) acc m)) p0, Returns tt).
Proof.
  unfold add_alert, progressAlert, createAlert. js_unfold. cbv zeta.
  destruct (m_job m) as [j|]; simpl; [|done].
  destruct (progress_percent j) as [pr|]; simpl; [|done].
  fold (displayNameOf (renamedMachines p0) m).
  destruct (Qlt_le_dec pr 75) as [H75|H75].
  { assert (JS.geb pr 75 = false) as ->.
    { destruct (JS.geb pr 75) eqn:E; [|done]. apply geb_le in E. lra. }
    assert (JS.geb pr 90 = false) as ->.
    { destruct (JS.geb pr 90) eqn:E; [|done]. apply geb_le in E. lra. }
    assert (JS.geb pr 100 = false) as ->.
    { destruct (JS.geb pr 100) eqn:E; [|done]. apply geb_le in E. lra. }
    done. }
  assert (JS.geb pr 75 = true) as -> by (by apply geb_le).
  destruct (Qlt_le_dec pr 90) as [H90|H90].
  { assert (JS.ltb pr 90 = true) as -> by (by apply ltb_lt). done. }
  assert (JS.ltb pr 90 = false) as ->.
  { destruct (JS.ltb pr 90) eqn:E; [|done]. apply ltb_lt in E. lra. }
  assert (JS.geb pr 90 = true) as -> by (by apply geb_le).
  destruct (Qlt_le_dec pr 100) as [H100|H100].
  { assert (JS.ltb pr 100 = true) as -> by (by apply ltb_lt). done. }
  assert (JS.ltb pr 100 = false) as ->.
  { destruct (JS.ltb pr 100) eqn:E; [|done]. apply ltb_lt in E. lra. }
  assert (JS.geb pr 100 = true) as -> by (by apply geb_le).
  done.
Qed.

Lemma handleAlerts_run (data : Message) (locs : list Location) (p : Page)
    (l : list AlertEl) :
  alerts_el p = Some l ->
  locations data = Some locs ->
  handleAlerts data p
  = (set_alerts_el (Some (progressAlerts (renamedMachines p) locs)) p, Returns tt).
Proof.
  intros Hl Hd. unfold handleAlerts. rewrite bind_run. unfold get at 1. rewrite Hl.
  rewrite seq_run. unfold modify at 1. rewrite Hd.
  pose (J := fun (acc : list AlertEl) (q : Page) => q = set_alerts_el (Some acc) p).
  match goal with |- forEach ?xs ?f ?q = _ =>
    assert (H : hoare (J []) (forEach xs f)
                  (fun _ => J (foldl (fun a loc => foldl (add_alert (renamedMachines p)) a
                                                     (l_machines loc)) [] xs))
                  (fun _ _ => False))
  end.
  { apply hoare_forEach_fold. intros loc acc.
    apply (hoare_forEach_fold J). intros m acc' q ->.
    pose proof (handleAlerts_machine p m acc') as Hm. cbv zeta in Hm.
    unfold J. by rewrite Hm. }
  specialize (H (set_alerts_el (Some []) p) eq_refl).
  destruct (forEach _ _ _) as [q [[]|e]]; [|done].
  unfold J in H. subst q. f_equal. f_equal. f_equal. unfold progressAlerts.
  rewrite <- (app_nil_r (reverse _)), <- foldl_add_alert.
  rewrite <- foldl_foldl_concat. clear. generalize (@nil AlertEl).
  induction locs as [|loc locs IH]; intros acc; simpl; [done|]. apply IH.
Qed.

(** X6: When the alerts panel exists and the data carries [locations],
    [handleAlerts] returns normally and leaves in the panel exactly the
    progress alerts of the data, the last machine's first: one alert for
    each machine whose job is at 75 percent or more, in the band of its
    value, under the overlay name. What the panel held before is gone,
    and a second call on the same data changes nothing. *)
Theorem handleAlerts_rebuilds_panel (data : Message) (locs : list Location) (p : Page)
    (l : list AlertEl) :
  alerts_el p = Some l ->
  locations data = Some locs ->
  result (handleAlerts data) p = Returns tt
  ∧ exec (handleAlerts data) p
    = set_alerts_el (Some (progressAlerts (renamedMachines p) locs)) p
  ∧ exec (handleAlerts data) (exec (handleAlerts data) p) = exec (handleAlerts data) p.
Proof.
  intros Hl Hd. unfold exec, result.
  rewrite (handleAlerts_run data locs p l Hl Hd). simpl.
  split; [done|]. split; [done|].
  by rewrite (handleAlerts_run data locs
               (set_alerts_el (Some (progressAlerts (renamedMachines p) locs)) p)
               (progressAlerts (renamedMachines p) locs) eq_refl Hd).
Qed.

Lemma handleAlerts_rebuilds_panel_witness :
  result (handleAlerts Fixture.snapshot) Fixture.page_live = Returns tt
  ∧ exec (handleAlerts Fixture.snapshot) Fixture.page_live
    = set_alerts_el (Some (progressAlerts ∅ Fixture.modan)) Fixture.page_live
  ∧ exec (handleAlerts Fixture.snapshot) (exec (handleAlerts Fixture.snapshot) Fixture.page_live)
    = exec (handleAlerts Fixture.snapshot) Fixture.page_live.
Proof.
  apply (handleAlerts_rebuilds_panel Fixture.snapshot Fixture.modan Fixture.page_live []);
    reflexivity.
Defined.

(** *** What a render pass puts under #locations *)

Section RenderPass.
Local Open Scope list_scope.

Lemma headings_update_card (li ci : nat) (v : CardView) (les : list LocationEl) :
  le_heading <$> update_card li ci v les = le_heading <$> les.
Proof.
  unfold update_card. rewrite (list_fmap_alter le_heading _ id); [|by apply Forall_true].
  by apply list_alter_id.
Qed.

Lemma headings_append_card (li : nat) (c : CardEl) (les : list LocationEl) :
  le_heading <$> append_card li c les = le_heading <$> les.
Proof.
  unfold append_card. rewrite (list_fmap_alter le_heading _ id); [|by apply Forall_true].
  by apply list_alter_id.
Qed.

Lemma cards_update_card_elem (li ci : nat) (v : CardView) (les : list LocationEl)
    (c' : CardEl) :
  c' ∈ concat (le_grid <$> update_card li ci v les) ->
  c' ∈ concat (le_grid <$> les)
  ∨ exists le c0, les !! li = Some le ∧ le_grid le !! ci = Some c0
                  ∧ c' = {| card_id := card_id c0; card_class := card_class c0;
                            card_view := v |}.
Proof.
  intros H. apply concat_grid_elem in H as (le' & Hle & Hc).
  apply elem_of_alter in Hle as [Hle|(le & Hl & ->)].
  - left. apply concat_grid_elem. eauto.
  - simpl in Hc. apply elem_of_alter in Hc as [Hc|(c0 & Hc0 & ->)].
    + left. apply concat_grid_elem. exists le. split; [|done].
      apply list_elem_of_lookup. eauto.
    + right. eauto.
Qed.

Lemma cards_append_card_elem (li : nat) (c : CardEl) (les : list LocationEl) (c' : CardEl) :
  c' ∈ concat (le_grid <$> append_card li c les) ->
  c' ∈ concat (le_grid <$> les) ∨ c' = c.
Proof.
  intros H. apply concat_grid_elem in H as (le' & Hle & Hc).
  apply elem_of_alter in Hle as [Hle|(le & Hl & ->)].
  - left. apply concat_grid_elem. eauto.
  - simpl in Hc. apply elem_of_app in Hc as [Hc|Hc].
    + left. apply concat_grid_elem. exists le. split; [|done].
      apply list_elem_of_lookup. eauto.
    + right. by apply list_elem_of_singleton in Hc.
Qed.

Lemma elem_of_snoc_pair (pre : list (Location * list Machine)) (loc : Location)
    (ms : list Machine) (x : Location * list Machine) :
  x ∈ pre ++ [(loc, ms)] <-> x ∈ pre ∨ x = (loc, ms).
Proof. rewrite elem_of_app, list_elem_of_singleton. done. Qed.

Lemma createOrUpdateMachineCard_rendering (r : gmap string string) (u : User)
    (pre : list (Location * list Machine)) (loc : Location) (ms : list Machine)
    (m : Machine) :
  hoare (Rendering r u (pre ++ [(loc, ms)]))
    (createOrUpdateMachineCard m (l_name loc) (length pre))
    (fun _ => Rendering r u (pre ++ [(loc, ms ++ [m])])) (fun _ _ => False).
Proof.
  intros p (Hu & Hr & Hh & Hs & Hc).
  destruct (createOrUpdateMachineCard_run m (l_name loc) (length pre) p u Hu)
    as (H1 & H2 & H3).
  destruct (createOrUpdateMachineCard m (l_name loc) (length pre) p) as [p' o].
  cbn [fst snd] in *. subst o.
  unfold app_state in H2. inversion H2 as [[Eu Es Ec Er Efl Efs Esm Ea Ed]]. clear H2.
  assert (Hlen : (length pre < length (locations_el p))%nat).
  { unfold headings in Hh. apply (f_equal length) in Hh.
    rewrite !length_fmap, length_app in Hh. simpl in Hh. lia. }
  assert (Hgrow : forall x, x ∈ pre ++ [(loc, ms)] ->
            exists ms', (x.1, ms') ∈ pre ++ [(loc, ms ++ [m])]
                        ∧ forall y, y ∈ x.2 -> y ∈ ms').
  { intros [l0 ms0] Hx. apply elem_of_snoc_pair in Hx as [Hx|Hx].
    - exists ms0. split; [apply elem_of_snoc_pair; by left|done].
    - inversion Hx; subst. exists (ms ++ [m]). split; [apply elem_of_snoc_pair; by right|].
      intros y Hy. apply elem_of_app. by left. }
  assert (Hnew : (loc, ms ++ [m]) ∈ pre ++ [(loc, ms ++ [m])] ∧ m ∈ ms ++ [m]).
  { split; [apply elem_of_snoc_pair; by right|].
    apply elem_of_app. right. by apply list_elem_of_singleton. }
  assert (Hview : shows r u loc m
                    (card_of m (cardHTML (renamedMachines p) u m (l_name loc) (next_node p)))).
  { split; [done|]. exists (next_node p). by rewrite Hr. }
  split; [congruence|]. split; [congruence|]. split.
  { unfold headings in *. rewrite H3.
    destruct (find_card _ _ _) as [[li ci]|];
      rewrite ?headings_update_card, ?headings_append_card, Hh, !fmap_app; done. }
  split.
  - intros c Hc'. unfold cards in Hc'. rewrite H3 in Hc'.
    assert (Hold : c ∈ cards p -> exists loc0 ms0 m0,
              (loc0, ms0) ∈ pre ++ [(loc, ms ++ [m])] ∧ m0 ∈ ms0 ∧ shows r u loc0 m0 c).
    { intros Hin. destruct (Hs c Hin) as (l0 & ms0 & m0 & Hx & Hm0 & Hsh).
      destruct (Hgrow (l0, ms0) Hx) as (ms' & Hx' & Hsub).
      exists l0, ms', m0. split; [done|]. split; [by apply Hsub|done]. }
    destruct (find_card (m_id m) 0 (locations_el p)) as [[li ci]|] eqn:Ef.
    + apply cards_update_card_elem in Hc' as [Hc' | (le & c0 & Hle & Hc0 & ->)];
        [by apply Hold|].
      apply find_card_Some in Ef as (le1 & c1 & Hl1 & Hc1 & Hid1 & _).
      rewrite Nat.sub_0_r in Hl1.
      assert (le1 = le) as -> by congruence. assert (c1 = c0) as -> by congruence.
      exists loc, (ms ++ [m]), m. split; [apply Hnew|]. split; [apply Hnew|].
      split; [done|]. exists (next_node p). simpl. by rewrite Hr.
    + apply cards_append_card_elem in Hc' as [Hc' | ->]; [by apply Hold|].
      exists loc, (ms ++ [m]), m. split; [apply Hnew|]. split; [apply Hnew|]. exact Hview.
  - assert (Hsub : forall id, id ∈ card_ids p -> id ∈ card_ids p').
    { intros id Hid. unfold card_ids, cards in *. rewrite H3.
      destruct (find_card (m_id m) 0 (locations_el p)) as [[li ci]|].
      - by rewrite concat_ids_update_card.
      - rewrite concat_ids_append_card by done. by right. }
    assert (Hm : m_id m ∈ card_ids p').
    { unfold card_ids, cards. rewrite H3.
      destruct (find_card (m_id m) 0 (locations_el p)) as [[li ci]|] eqn:Ef.
      - rewrite concat_ids_update_card. by eapply find_card_elem.
      - rewrite concat_ids_append_card by done. by left. }
    intros l0 ms0 m0 Hx Hm0. apply elem_of_snoc_pair in Hx as [Hx|Hx].
    + apply Hsub. apply (Hc l0 ms0 m0); [|done]. apply elem_of_snoc_pair. by left.
    + inversion Hx; subst. apply elem_of_app in Hm0 as [Hm0|Hm0].
      * apply Hsub. apply (Hc loc ms m0); [|done]. apply elem_of_snoc_pair. by right.
      * apply list_elem_of_singleton in Hm0 as ->. done.
Qed.

Lemma foldl_snoc {A : Type} (xs : list A) :
  forall acc, foldl (fun a x => a ++ [x]) acc xs = acc ++ xs.
Proof.
  induction xs as [|x xs IH]; intros acc; simpl; [by rewrite app_nil_r|].
  by rewrite IH, <- (assoc_L app).
Qed.

Lemma renderLocation_rendering (r : gmap string string) (u : User)
    (pre : list (Location * list Machine)) (loc : Location) (ms : list Machine) :
  hoare (Rendering r u pre) (renderLocation (l_name loc) ms)
    (fun _ => Rendering r u (pre ++ [(loc, ms)])) (fun _ _ => False).
Proof.
  intros p HR. unfold renderLocation. rewrite bind_run. unfold get at 1. cbv zeta.
  rewrite seq_run. unfold modify at 1.
  assert (Hg : length (locations_el p) = length pre).
  { destruct HR as (_ & _ & Hh & _). unfold headings in Hh.
    apply (f_equal length) in Hh. by rewrite !length_fmap in Hh. }
  rewrite Hg.
  set (p1 := set_locations_el _ p).
  assert (H1 : Rendering r u (pre ++ [(loc, [])]) p1).
  { destruct HR as (Hu & Hr & Hh & Hs & Hc). unfold p1.
    assert (Hcards : cards (set_locations_el
                        (locations_el p ++ [{| le_heading := l_name loc; le_grid := [] |}]) p)
                     = cards p).
    { unfold cards. simpl. rewrite fmap_app, concat_app. simpl. by rewrite !app_nil_r. }
    split; [done|]. split; [done|]. split.
    { unfold headings in *. simpl. by rewrite !fmap_app, Hh. }
    split.
    - intros c Hin. rewrite Hcards in Hin.
      destruct (Hs c Hin) as (l0 & ms0 & m0 & Hx & Hm0 & Hsh).
      exists l0, ms0, m0. split; [|done]. apply elem_of_snoc_pair. by left.
    - intros l0 ms0 m0 Hx Hm0. unfold card_ids. rewrite Hcards.
      apply elem_of_snoc_pair in Hx as [Hx|Hx]; [by eapply Hc|].
      inversion Hx; subst. by apply elem_of_nil in Hm0. }
  pose proof (hoare_forEach_fold
                (fun done q => Rendering r u (pre ++ [(loc, done)]) q)
                (fun _ _ => False) (fun a x => a ++ [x]) ms
                (fun m => createOrUpdateMachineCard m (l_name loc) (length pre))) as Hloop.
  specialize (Hloop (fun m done => createOrUpdateMachineCard_rendering r u pre loc done m)
                [] p1 H1).
  by rewrite foldl_snoc in Hloop.
Qed.

Lemma renderDashboard_rendering (u : User) (locs : list Location) (p : Page) :
  currentUser p = Some u ->
  hoare (fun q => q = p) (renderDashboard (Some locs))
    (fun _ => Rendering (renamedMachines p) u
                ((fun loc => (loc, visibleMachines p loc)) <$> visibleLocations u p locs))
    (fun _ _ => False).
Proof.
  intros Hu q ->. unfold renderDashboard. rewrite bind_run. unfold get at 1. rewrite Hu.
  rewrite seq_run. unfold modify at 1. cbv zeta.
  fold (locFilterOf p) (statusFilterOf p) (searchFilterOf p).
  fold (visibleLocations u p locs).
  assert (H0 : Rendering (renamedMachines p) u [] (set_locations_el [] p)).
  { split; [done|]. split; [done|]. split; [done|]. split.
    - intros c Hc. by apply elem_of_nil in Hc.
    - intros l0 ms0 m0 Hx. by apply elem_of_nil in Hx. }
  pose proof (hoare_forEach_fold
                (fun (done : list Location) q =>
                   Rendering (renamedMachines p) u
                     ((fun loc => (loc, visibleMachines p loc)) <$> done) q)
                (fun _ _ => False) (fun a x => a ++ [x]) (visibleLocations u p locs)
                (fun loc => renderLocation (l_name loc)
                              (filterMachines (statusFilterOf p) (searchFilterOf p)
                                 (l_machines loc)))) as Hloop.
  assert (Hstep : forall (loc : Location) (done : list Location),
            hoare (Rendering (renamedMachines p) u
                     ((fun loc => (loc, visibleMachines p loc)) <$> done))
              (renderLocation (l_name loc)
                 (filterMachines (statusFilterOf p) (searchFilterOf p) (l_machines loc)))
              (fun _ => Rendering (renamedMachines p) u
                          ((fun loc => (loc, visibleMachines p loc)) <$> (done ++ [loc])))
              (fun _ _ => False)).
  { intros loc done. rewrite fmap_app. apply renderLocation_rendering. }
  specialize (Hloop Hstep [] (set_locations_el [] p) H0).
  by rewrite foldl_snoc in Hloop.
Qed.
End RenderPass.

(** *** Where a render pass puts the cards *)

Section Layout.
Local Open Scope list_scope.

Lemma card_ids_layout (p : Page) : card_ids p = concat (snd <$> layout p).
Proof.
  unfold card_ids, cards, layout. induction (locations_el p) as [|le les IH]; [done|].
  csimpl. by rewrite fmap_app, IH.
Qed.

Lemma find_card_absent (id : string) (les : list LocationEl) :
  id ∉ card_id <$> concat (le_grid <$> les) -> find_card id 0 les = None.
Proof.
  intros H. destruct (find_card id 0 les) as [[li ci]|] eqn:E; [|done].
  exfalso. apply H. by eapply find_card_elem.
Qed.

Lemma foldl_snoc_map {A B : Type} (g : A -> B) (xs : list A) :
  forall acc, foldl (fun a x => a ++ [g x]) acc xs = acc ++ (g <$> xs).
Proof.
  induction xs as [|x xs IH]; intros acc; simpl; [by rewrite app_nil_r|].
  by rewrite IH, <- (assoc_L app).
Qed.

Lemma createOrUpdateMachineCard_layout (u : User) (L : list (string * list string))
    (name loc : string) (ids : list string) (m : Machine) :
  hoare (fun q => currentUser q = Some u
                  ∧ length (locations_el q) = S (length L)
                  ∧ (NoDup (concat (snd <$> L) ++ ids) -> layout q = L ++ [(name, ids)]))
    (createOrUpdateMachineCard m loc (length L))
    (fun _ q => currentUser q = Some u
                ∧ length (locations_el q) = S (length L)
                ∧ (NoDup (concat (snd <$> L) ++ (ids ++ [m_id m])) ->
                   layout q = L ++ [(name, ids ++ [m_id m])]))
    (fun _ _ => False).
Proof.
  intros p (Hu & Hlen & Hlay).
  destruct (createOrUpdateMachineCard_run m loc (length L) p u Hu) as (H1 & H2 & H3).
  destruct (createOrUpdateMachineCard m loc (length L) p) as [p' o].
  cbn [fst snd] in *. subst o.
  unfold app_state in H2. inversion H2 as [[Eu Es Ec Er Efl Efs Esm Ea Ed]]. clear H2.
  split; [congruence|]. split.
  { rewrite H3. destruct (find_card _ _ _) as [[li ci]|];
      unfold update_card, append_card; by rewrite length_alter. }
  intros Hnd. rewrite (assoc_L app) in Hnd.
  apply NoDup_app in Hnd as (Hnd & Hnew & _).
  specialize (Hlay Hnd).
  assert (Hfresh : find_card (m_id m) 0 (locations_el p) = None).
  { apply find_card_absent. fold (cards p). fold (card_ids p).
    rewrite card_ids_layout, Hlay, fmap_app, concat_app. simpl. rewrite app_nil_r.
    intros Hin. apply (Hnew _ Hin). by apply list_elem_of_singleton. }
  rewrite Hfresh in H3. unfold layout in *. rewrite H3.
  apply fmap_app_inv in Hlay as (les0 & l1 & HL & Hl1 & Hles).
  destruct l1 as [|le [|le' l1]]; try done. simpl in Hl1. inversion Hl1 as [[Hn Hi]].
  rewrite Hles. unfold append_card.
  replace (length L) with (length les0 + 0)%nat by (rewrite HL, length_fmap; lia).
  rewrite alter_app_r. simpl. rewrite fmap_app. simpl.
  by rewrite fmap_app, HL.
Qed.

Lemma renderLocation_layout (u : User) (L : list (string * list string))
    (loc : string) (ms : list Machine) :
  hoare (fun q => currentUser q = Some u
                  ∧ length (locations_el q) = length L
                  ∧ (NoDup (concat (snd <$> L)) -> layout q = L))
    (renderLocation loc ms)
    (fun _ q => currentUser q = Some u
                ∧ length (locations_el q) = length (L ++ [(loc, m_id <$> ms)])
                ∧ (NoDup (concat (snd <$> (L ++ [(loc, m_id <$> ms)]))) ->
                   layout q = L ++ [(loc, m_id <$> ms)]))
    (fun _ _ => False).
Proof.
  intros p (Hu & Hlen & Hlay). unfold renderLocation. rewrite bind_run. unfold get at 1.
  cbv zeta. rewrite seq_run. unfold modify at 1. rewrite Hlen.
  set (p1 := set_locations_el _ p).
  pose proof (hoare_forEach_fold
                (fun ids q => currentUser q = Some u
                              ∧ length (locations_el q) = S (length L)
                              ∧ (NoDup (concat (snd <$> L) ++ ids) ->
                                 layout q = L ++ [(loc, ids)]))
                (fun _ _ => False) (fun a x => a ++ [m_id x]) ms
                (fun m => createOrUpdateMachineCard m loc (length L))) as Hloop.
  specialize (Hloop (fun m ids => createOrUpdateMachineCard_layout u L loc loc ids m) [] p1).
  rewrite foldl_snoc_map in Hloop. simpl in Hloop.
  rewrite length_app, fmap_app, concat_app. simpl. rewrite app_nil_r.
  replace (length L + 1)%nat with (S (length L)) by lia.
  apply Hloop. unfold p1. split; [done|]. split.
  { simpl. rewrite length_app. simpl. lia. }
  rewrite app_nil_r. intros Hnd. unfold layout in *. simpl.
  by rewrite fmap_app, (Hlay Hnd).
Qed.

Lemma concat_layoutOf (f : Location -> list Machine) (locs : list Location) :
  concat (snd <$> ((fun loc => (l_name loc, m_id <$> f loc)) <$> locs))
  = m_id <$> (locs ≫= f).
Proof.
  induction locs as [|l locs IH]; [done|]. csimpl. by rewrite fmap_app, IH.
Qed.

Lemma renderDashboard_layout (u : User) (locs : list Location) (p : Page) :
  currentUser p = Some u ->
  hoare (fun q => q = p) (renderDashboard (Some locs))
    (fun _ q => NoDup (m_id <$> (visibleLocations u p locs ≫= visibleMachines p)) ->
                layout q = layoutOf u p locs)
    (fun _ _ => False).
Proof.
  intros Hu q ->. unfold renderDashboard. rewrite bind_run. unfold get at 1. rewrite Hu.
  rewrite seq_run. unfold modify at 1. cbv zeta.
  fold (locFilterOf p) (statusFilterOf p) (searchFilterOf p).
  fold (visibleLocations u p locs).
  pose proof (hoare_forEach_fold
                (fun (L : list (string * list string)) q =>
                   currentUser q = Some u
                   ∧ length (locations_el q) = length L
                   ∧ (NoDup (concat (snd <$> L)) -> layout q = L))
                (fun _ _ => False)
                (fun a x => a ++ [(l_name x, m_id <$> visibleMachines p x)])
                (visibleLocations u p locs)
                (fun loc => renderLocation (l_name loc)
                              (filterMachines (statusFilterOf p) (searchFilterOf p)
                                 (l_machines loc)))) as Hloop.
  specialize (Hloop (fun loc L => renderLocation_layout u L (l_name loc)
                                    (visibleMachines p loc)) [] (set_locations_el [] p)).
  rewrite (foldl_snoc_map (fun x => (l_name x, m_id <$> visibleMachines p x))) in Hloop.
  simpl in Hloop.
  assert (H0 : currentUser (set_locations_el [] p) = Some u
               ∧ length (locations_el (set_locations_el [] p)) = 0%nat
               ∧ (NoDup (@nil string) -> layout (set_locations_el [] p) = [])) by done.
  specialize (Hloop H0).
  destruct (forEach _ _ _) as [p' [[]|e]]; [|done].
  destruct Hloop as (_ & _ & Hl). intros Hnd. apply Hl.
  by rewrite concat_layoutOf.
Qed.

End Layout.

(** *** The render pass, as the user sees it *)

Lemma elem_of_filterLocations (u : User) (locFilter : string) (locs : list Location)
    (loc : Location) :
  loc ∈ filterLocations u locFilter locs <->
  loc ∈ locs
  ∧ (location u <> "all" -> l_name loc = location u)
  ∧ (locFilter <> "all" -> l_name loc = locFilter).
Proof.
  unfold filterLocations. cbv zeta.
  destruct (bool_decide_reflect (location u = "all")) as [Hu|Hu];
    destruct (bool_decide_reflect (locFilter = "all")) as [Hf|Hf]; simpl;
    rewrite ?list_elem_of_filter; intuition congruence.
Qed.

Lemma elem_of_filterMachines (statusFilter searchFilter : string) (ms : list Machine)
    (m : Machine) :
  m ∈ filterMachines statusFilter searchFilter ms <->
  m ∈ ms
  ∧ (statusFilter <> "all" -> m_status m = statusFilter)
  ∧ (JS.truthy searchFilter = true -> matchesSearch searchFilter m = true).
Proof.
  unfold filterMachines. cbv zeta.
  destruct (bool_decide_reflect (statusFilter = "all")) as [Hs|Hs];
    destruct (JS.truthy searchFilter); simpl;
    rewrite ?list_elem_of_filter; intuition congruence.
Qed.

(** X7: A render pass for a logged-in user returns normally, leaves the
    application state alone and rebuilds #locations from the data: one
    heading per visible location, in order (also for a location with no
    visible machine); every card shows a visible machine, built by
    [cardHTML] from the data and the rename overlay; every visible
    machine has a card. *)
Theorem renderDashboard_shows_visible (u : User) (locs : list Location) (p : Page) :
  currentUser p = Some u ->
  let p' := exec (renderDashboard (Some locs)) p in
  result (renderDashboard (Some locs)) p = Returns tt
  ∧ app_state p' = app_state p
  ∧ headings p' = l_name <$> visibleLocations u p locs
  ∧ (forall c, c ∈ cards p' ->
       exists loc m, loc ∈ visibleLocations u p locs ∧ m ∈ visibleMachines p loc
                     ∧ shows (renamedMachines p) u loc m c)
  ∧ (forall loc m, loc ∈ visibleLocations u p locs -> m ∈ visibleMachines p loc ->
       m_id m ∈ card_ids p').
Proof.
  intros Hu p'.
  destruct (hoare_returns _ _ _ p (renderDashboard_rendering u locs p Hu) eq_refl)
    as ([] & Hr & (_ & _ & Hh & Hs & Hc)).
  fold p' in Hh, Hs, Hc.
  split; [done|]. split; [apply renderDashboard_app_state|]. split.
  { rewrite Hh, <- list_fmap_compose. done. }
  split.
  - intros c Hin. destruct (Hs c Hin) as (loc & ms & m & Hx & Hm & Hsh).
    apply list_elem_of_fmap in Hx as (loc' & Heq & Hloc'). inversion Heq; subst.
    eauto.
  - intros loc m Hl Hm. apply (Hc loc (visibleMachines p loc) m); [|done].
    apply list_elem_of_fmap. eauto.
Qed.

Lemma renderDashboard_shows_visible_witness :
  result (renderDashboard (Some Fixture.modan)) (Fixture.page_blank Fixture.operator "idle" "")
  = Returns tt
  ∧ headings (exec (renderDashboard (Some Fixture.modan))
                (Fixture.page_blank Fixture.operator "idle" "")) = ["Modan"].
Proof.
  destruct (renderDashboard_shows_visible Fixture.operator Fixture.modan
              (Fixture.page_blank Fixture.operator "idle" "") eq_refl)
    as (Hr & _ & Hh & _).
  split; [exact Hr|]. rewrite Hh. reflexivity.
Defined.

(** X8: When the visible machines have pairwise different ids, the
    render pass lays them out exactly as the data lists them: under each
    heading the cards of that location's visible machines, in order, and
    nothing else. *)
Theorem renderDashboard_lays_out (u : User) (locs : list Location) (p : Page) :
  currentUser p = Some u ->
  NoDup (m_id <$> (visibleLocations u p locs ≫= visibleMachines p)) ->
  layout (exec (renderDashboard (Some locs)) p) = layoutOf u p locs.
Proof.
  intros Hu Hnd.
  destruct (hoare_returns _ _ _ p (renderDashboard_layout u locs p Hu) eq_refl)
    as ([] & _ & H).
  by apply H.
Qed.

Lemma renderDashboard_lays_out_witness :
  layout (exec (renderDashboard (Some Fixture.modan))
            (Fixture.page_blank Fixture.operator "all" ""))
  = [("Modan", ["1"; "2"])].
Proof.
  apply (renderDashboard_lays_out Fixture.operator Fixture.modan
           (Fixture.page_blank Fixture.operator "all" "")); [reflexivity|].
  vm_compute. apply NoDup_cons. split; [|apply NoDup_singleton].
  intros H. apply list_elem_of_singleton in H. discriminate.
Defined.

(** X9: What a render pass never shows. Every card it leaves shows a
    machine of the data under its overlay name, inside the user's
    location (unless that is "all"), inside the chosen location and
    status filters; the edit button is there for an admin only, the
    controls for an operator only, and they address the card's own
    machine. *)
Theorem rendered_cards_in_scope (u : User) (locs : list Location) (p : Page) (c : CardEl) :
  currentUser p = Some u ->
  c ∈ cards (exec (renderDashboard (Some locs)) p) ->
  exists loc m,
    loc ∈ locs ∧ m ∈ l_machines loc
    ∧ card_id c = m_id m
    ∧ cv_title (card_view c) = displayNameOf (renamedMachines p) m
    ∧ (location u <> "all" -> l_name loc = location u)
    ∧ (locFilterOf p <> "all" -> l_name loc = locFilterOf p)
    ∧ (statusFilterOf p <> "all" -> m_status m = statusFilterOf p)
    ∧ cv_edit (card_view c)
      = (if bool_decide (role u = "admin")
         then Some (l_name loc, card_id c, cv_title (card_view c)) else None)
    ∧ cv_controls (card_view c)
      = (if bool_decide (role u = "operator") then Some (l_name loc, card_id c) else None).
Proof.
  intros Hu Hin.
  destruct (hoare_returns _ _ _ p (renderDashboard_rendering u locs p Hu) eq_refl)
    as ([] & _ & (_ & _ & _ & Hs & _)).
  destruct (Hs c Hin) as (loc0 & ms & m & Hx & Hm & Hid & node & Hv).
  apply list_elem_of_fmap in Hx as (loc & Heq & Hloc). inversion Heq; subst loc0 ms.
  apply elem_of_filterLocations in Hloc as (Hl1 & Hl2 & Hl3).
  apply elem_of_filterMachines in Hm as (Hm1 & Hm2 & _).
  exists loc, m. rewrite Hv, Hid. simpl. done.
Qed.

Lemma rendered_cards_in_scope_witness :
  exists loc m,
    loc ∈ Fixture.modan ∧ m ∈ l_machines loc
    ∧ card_id Scenario.card_B = m_id m
    ∧ cv_title (card_view Scenario.card_B) = displayNameOf (renamedMachines Scenario.page_idle) m
    ∧ (location Fixture.operator <> "all" -> l_name loc = location Fixture.operator)
    ∧ (locFilterOf Scenario.page_idle <> "all" -> l_name loc = locFilterOf Scenario.page_idle)
    ∧ (statusFilterOf Scenario.page_idle <> "all" ->
       m_status m = statusFilterOf Scenario.page_idle)
    ∧ cv_edit (card_view Scenario.card_B)
      = (if bool_decide (role Fixture.operator = "admin")
         then Some (l_name loc, card_id Scenario.card_B, cv_title (card_view Scenario.card_B))
         else None)
    ∧ cv_controls (card_view Scenario.card_B)
      = (if bool_decide (role Fixture.operator = "operator")
         then Some (l_name loc, card_id Scenario.card_B) else None).
Proof.
  apply (rendered_cards_in_scope Fixture.operator Fixture.modan Scenario.page_idle
           Scenario.card_B eq_refl).
  apply list_elem_of_lookup. exists 0%nat. reflexivity.
Defined.

(** *** Push messages and polls *)

Lemma renderDashboard_returns (data_locations : option (list Location)) (p : Page) :
  result (renderDashboard data_locations) p = Returns tt.
Proof.
  destruct (currentUser p) as [u|] eqn:Hu.
  - destruct data_locations as [locs|].
    + by destruct (hoare_returns _ _ _ p (renderDashboard_rendering u locs p Hu) eq_refl)
        as ([] & Hr & _).
    + unfold result, renderDashboard. rewrite bind_run. unfold get at 1. by rewrite Hu.
  - unfold result, renderDashboard. rewrite bind_run. unfold get at 1. by rewrite Hu.
Qed.

Lemma PushReady_app_state (u : User) (r : gmap string string) (p q : Page) :
  app_state q = app_state p -> PushReady u r p -> PushReady u r q.
Proof.
  unfold app_state, PushReady. intros H. inversion H. congruence.
Qed.

Lemma createOrUpdateMachineCard_push_ready (u : User) (r : gmap string string)
    (machine : Machine) (loc : string) (g : nat) :
  hoare (PushReady u r) (createOrUpdateMachineCard machine loc g)
    (fun _ => PushReady u r) (fun _ _ => False).
Proof.
  intros p Hp. pose proof Hp as (Hu & _).
  destruct (createOrUpdateMachineCard_run machine loc g p u Hu) as (H1 & H2 & _).
  destruct (createOrUpdateMachineCard machine loc g p) as [p' o]. simpl in *. subst o.
  by apply (PushReady_app_state u r p).
Qed.

Lemma handleNewJob_scan_push_ready (u : User) (r : gmap string string) (ev : NewJob)
    (locs : list Location) :
  forall k, hoare (PushReady u r) (handleNewJob_scan ev k locs)
              (fun _ => PushReady u r) (fun _ _ => False).
Proof.
  induction locs as [|loc rest IH]; intros k; simpl; [by apply hoare_ret|].
  destruct (list_find _ (l_machines loc)) as [[mi machine]|]; [|apply IH].
  cbv zeta. eapply hoare_bind.
  { apply (hoare_modify _ (fun _ => PushReady u r)).
    intros p (Hu & Hr & Ha & Hc). repeat split; try done.
    unfold write_machine. simpl. by apply fmap_is_Some. }
  intros tt0. eapply hoare_bind.
  { unfold getElementById_machine. eapply hoare_bind; [apply hoare_get|].
    intros q. apply (hoare_ret _ (fun _ => PushReady u r)). by intros p [Hp _]. }
  intros [[g ci]|]; [apply createOrUpdateMachineCard_push_ready|by apply hoare_ret].
Qed.

Lemma handleNewJob_push_ready (u : User) (r : gmap string string) (ev : NewJob) :
  hoare (PushReady u r) (handleNewJob ev) (fun _ => PushReady u r) (fun _ _ => False).
Proof.
  unfold handleNewJob. eapply hoare_bind; [apply hoare_get|].
  intros p0. eapply (hoare_bind _ (fun _ => PushReady u r)).
  - intros p [Hp ->]. pose proof Hp as (_ & _ & _ & [locs Hc]). rewrite Hc.
    by apply handleNewJob_scan_push_ready.
  - intros tt0. eapply hoare_bind; [apply hoare_get|]. intros q.
    intros p [(Hu & Hr & [l Hl] & Hc) ->]. unfold createAlert. rewrite bind_run.
    unfold get at 1. rewrite Hl. by repeat split.
Qed.

Lemma renderDashboard_push_ready (u : User) (r : gmap string string)
    (data_locations : option (list Location)) :
  hoare (PushReady u r) (renderDashboard data_locations)
    (fun _ => PushReady u r) (fun _ _ => False).
Proof.
  intros p Hp. pose proof (renderDashboard_returns data_locations p) as Hr.
  pose proof (renderDashboard_app_state data_locations p) as Ha.
  unfold result, exec in *. destruct (renderDashboard data_locations p) as [p' o].
  simpl in *. subst o. by apply (PushReady_app_state u r p).
Qed.

(** X10: A push message with [locations], taken while a user is logged
    in and the alerts panel exists, returns normally and leaves in the
    panel exactly the progress alerts of the cached snapshot, under the
    overlay names: whatever the panel held before, and the alert of a new
    job carried by the same message, are gone. *)
Theorem push_rebuilds_panel (p : Page) (data : Message) (u : User) (l : list AlertEl) :
  currentUser p = Some u ->
  suppressNextWSRender p = false ->
  alerts_el p = Some l ->
  is_Some (locations data) ->
  let p' := exec (socket_onmessage (Some data)) p in
  result (socket_onmessage (Some data)) p = Returns tt
  ∧ exists locs', locations (dashboardCache p') = Some locs'
                  ∧ alerts_el p' = Some (progressAlerts (renamedMachines p) locs').
Proof.
  intros Hu Hf Hl Hd.
  pose (Post := fun q : Page =>
          exists locs', locations (dashboardCache q) = Some locs'
                        ∧ alerts_el q = Some (progressAlerts (renamedMachines p) locs')).
  assert (Hrest : hoare (PushReady u (renamedMachines p))
                    (match new_job data with
                     | Some ev => handleNewJob ev
                     | None => mret tt
                     end;;
                     q ← get;
                     match locations (dashboardCache q) with
                     | Some locs => renderDashboard (Some locs)
                     | None => mret tt
                     end;;
                     q' ← get; handleAlerts (dashboardCache q'))
                    (fun _ => Post) (fun _ _ => False)).
  { eapply (hoare_bind _ (fun _ => PushReady u (renamedMachines p))).
    { destruct (new_job data); [apply handleNewJob_push_ready|by apply hoare_ret]. }
    intros tt1. eapply hoare_bind; [apply hoare_get|]. intros q.
    eapply (hoare_bind _ (fun _ => PushReady u (renamedMachines p))).
    { intros q0 [Hq ->]. destruct (locations (dashboardCache q0)); [|done].
      by apply renderDashboard_push_ready. }
    intros tt2. eapply hoare_bind; [apply hoare_get|]. intros q'.
    intros q0 [(Hu0 & Hr0 & [l0 Hl0] & [locs0 Hc0]) ->].
    rewrite (handleAlerts_run (dashboardCache q0) locs0 q0 l0 Hl0 Hc0).
    exists locs0. simpl. by rewrite Hr0. }
  assert (H : hoare (fun q => q = p) (socket_onmessage (Some data))
                (fun _ => Post) (fun _ _ => False)).
  { unfold socket_onmessage. apply (hoare_try_catch _ _ _ (fun _ _ => False));
      [|by intros e q []].
    eapply (hoare_bind _ (fun d q => d = data ∧ q = p)); [by apply hoare_ret|].
    intros d. eapply (hoare_bind _ (fun _ q => d = data
                                     ∧ suppressNextWSRender q = false
                                     ∧ PushReady u (renamedMachines p) q)).
    { apply hoare_modify. intros q [-> ->]. by repeat split. }
    intros tt0. eapply hoare_bind; [apply hoare_get|]. intros p0.
    intros q [(-> & Hfq & Hq) ->]. rewrite Hfq. by apply Hrest. }
  intros p'. destruct (hoare_returns _ _ _ p H eq_refl) as ([] & Hr & HP).
  split; [exact Hr|exact HP].
Qed.

Lemma push_rebuilds_panel_witness :
  result (socket_onmessage (Some {| locations := Some Fixture.modan;
                                    new_job := Some (Fixture.event_for "77") |}))
    Fixture.page_live = Returns tt
  ∧ exists locs',
      locations (dashboardCache
                   (exec (socket_onmessage (Some {| locations := Some Fixture.modan;
                                                    new_job := Some (Fixture.event_for "77") |}))
                      Fixture.page_live)) = Some locs'
      ∧ alerts_el (exec (socket_onmessage (Some {| locations := Some Fixture.modan;
                                                   new_job := Some (Fixture.event_for "77") |}))
                     Fixture.page_live)
        = Some (progressAlerts (renamedMachines Fixture.page_live) locs').
Proof.
  apply (push_rebuilds_panel Fixture.page_live
           {| locations := Some Fixture.modan; new_job := Some (Fixture.event_for "77") |}
           Fixture.operator []); [reflexivity | reflexivity | reflexivity | by eexists].
Defined.

Lemma handleAlerts_returns (data : Message) (p : Page) :
  is_Some (locations data) -> result (handleAlerts data) p = Returns tt.
Proof.
  intros [locs Hd].
  assert (H : hoare (fun _ => True) (handleAlerts data) (fun _ _ => True) (fun _ _ => False)).
  { by apply (handleAlerts_keeps (fun _ => True) data locs). }
  by destruct (hoare_returns _ _ _ p H I) as ([] & Hr & _).
Qed.

(** X11: On the page (globals, #locations, countdowns, alerts panel,
    dialogs) a push message without a new job does what a poll answer
    carrying the same snapshot does, followed by [handleAlerts]: the
    page after the push is the page after the poll with the alerts
    rebuilt, and both handlers return normally. (What the push path does
    besides, the request for the production log, is no part of the page
    and of this comparison.) *)
Theorem push_is_poll_then_alerts (p : Page) (data : Message) :
  suppressNextWSRender p = false ->
  new_job data = None ->
  is_Some (locations data) ->
  result (socket_onmessage (Some data)) p = Returns tt
  ∧ result (loadDashboard_done (Some data)) p = Returns tt
  ∧ exec (socket_onmessage (Some data)) p
    = exec (handleAlerts data) (exec (loadDashboard_done (Some data)) p).
Proof.
  intros Hf Hn [locs Hd].
  pose (p1 := set_dashboardCache data p).
  pose proof (renderDashboard_returns (Some locs) p1) as Hr.
  pose proof (renderDashboard_app_state (Some locs) p1) as Ha.
  assert (Hpoll : loadDashboard_done (Some data) p = renderDashboard (Some locs) p1).
  { unfold loadDashboard_done, try_catch. rewrite bind_run. unfold mret at 1, Js_ret at 1.
    rewrite seq_run. unfold modify at 1. rewrite Hd. fold p1.
    unfold result in Hr. by destruct (renderDashboard (Some locs) p1) as [p2 [[]|e]]. }
  assert (Hpush : socket_onmessage (Some data) p
                  = handleAlerts data (exec (renderDashboard (Some locs)) p1)).
  { unfold socket_onmessage, try_catch. rewrite bind_run. unfold mret at 1, Js_ret at 1.
    rewrite seq_run. unfold modify at 1. fold p1. rewrite bind_run. unfold get at 1.
    change (suppressNextWSRender p1) with (suppressNextWSRender p). rewrite Hf, Hn.
    rewrite seq_run. unfold mret at 1, Js_ret at 1. rewrite bind_run. unfold get at 1.
    change (dashboardCache p1) with data. rewrite Hd. rewrite seq_run.
    unfold result, exec in *. destruct (renderDashboard (Some locs) p1) as [p2 o].
    simpl in Hr, Ha. subst o. rewrite bind_run. unfold get at 1.
    assert (dashboardCache p2 = data) as ->.
    { unfold app_state in Ha. by inversion Ha. }
    simpl. pose proof (handleAlerts_returns data p2 (ex_intro _ locs Hd)) as Hh.
    unfold result in Hh. by destruct (handleAlerts data p2) as [p3 [[]|e]]. }
  unfold result, exec. rewrite Hpush, Hpoll.
  split; [|split; [exact Hr|done]].
  apply handleAlerts_returns. by exists locs.
Qed.

Lemma push_is_poll_then_alerts_witness :
  result (socket_onmessage (Some Fixture.snapshot)) Fixture.page_live = Returns tt
  ∧ result (loadDashboard_done (Some Fixture.snapshot)) Fixture.page_live = Returns tt
  ∧ exec (socket_onmessage (Some Fixture.snapshot)) Fixture.page_live
    = exec (handleAlerts Fixture.snapshot)
        (exec (loadDashboard_done (Some Fixture.snapshot)) Fixture.page_live).
Proof.
  apply (push_is_poll_then_alerts Fixture.page_live Fixture.snapshot);
    [reflexivity | reflexivity | by eexists].
Defined.

(** *** Login and logout *)

(** X12: The login form logs in entries of the table [users] only. After
    a submit, either [currentUser] is an entry whose username and
    password are the trimmed field values, and no dialog was opened; or
    no entry has these credentials, and the handler has done nothing but
    open the dialog "Invalid login". *)
Theorem login_submit_checks_table (username_value password_value : string) (p : Page) :
  let p' := exec (login_submit username_value password_value) p in
  (exists user,
     user ∈ users
     ∧ username user = JS.trim username_value ∧ password user = JS.trim password_value
     ∧ currentUser p' = Some user
     ∧ dialogs p' = dialogs p)
  ∨ ((forall user, user ∈ users ->
        ~ (username user = JS.trim username_value ∧ password user = JS.trim password_value))
     ∧ login_submit username_value password_value p
       = (set_dialogs (dialogs p ++ ["Invalid login"]) p, Returns tt)).
Proof.
  intros p'. unfold p', exec, login_submit. cbv zeta.
  destruct (list_find _ users) as [[i user]|] eqn:Ef.
  - left. apply list_find_Some in Ef as (Hi & [Hu Hp] & _).
    exists user. split; [apply list_elem_of_lookup; eauto|]. split; [done|]. split; [done|].
    rewrite seq_run. unfold modify at 1. unfold initFilters. rewrite bind_run.
    unfold get at 1. cbn [filter_location set_currentUser].
    destruct p as [cu fl dc rm ei floc fst fse les et nn al iv ni dl]; simpl.
    by destruct floc, fst, fse.
  - right. apply list_find_None in Ef. split; [|done].
    intros user Hin. by apply (proj1 (Forall_forall _ _) Ef).
Qed.

Lemma login_submit_checks_table_witness :
  currentUser (exec (login_submit " Admin" "12345 ") Scenario.page_loaded)
  = Some Fixture.admin.
Proof.
  destruct (login_submit_checks_table " Admin" "12345 " Scenario.page_loaded)
    as [(user & Hin & Hu & Hp & Hp' & _)|[Hno _]].
  - rewrite Hp'. f_equal. unfold users in Hin.
    repeat (apply elem_of_cons in Hin as [->|Hin]; [try discriminate Hu; try reflexivity|]).
    by apply elem_of_nil in Hin.
  - exfalso. apply (Hno Fixture.admin); [|by split].
    unfold users. do 3 (apply elem_of_cons; right). apply elem_of_cons. by left.
Defined.

(** X13: A successful reply to a machine action that arrives after the
    user has logged out, with the machine's card still in the document,
    is reported as a failure: the card is not re-rendered and the only
    change to the page is the dialog "<action> failed". *)
Theorem action_reply_after_logout (p : Page) (action loc id : string) (m : Machine)
    (g ci : nat) :
  currentUser p = None ->
  find_card id 0 (locations_el p) = Some (g, ci) ->
  machineAction_done action loc id (Some {| ar_ok := true; ar_machine := Some m |}) p
  = (set_dialogs (dialogs p ++ ["❌ " +:+ action +:+ " failed"]) p, Returns tt).
Proof.
  intros Hu Hf. rewrite (machineAction_done_success action loc id m p g ci Hf).
  unfold try_catch. by rewrite createOrUpdateMachineCard_logged_out.
Qed.

Lemma action_reply_after_logout_witness :
  machineAction_done "start" "Modan" "2" (Some Fixture.start_reply)
    (set_currentUser None Fixture.page_live)
  = (set_dialogs ["❌ start failed"] (set_currentUser None Fixture.page_live), Returns tt).
Proof.
  apply (action_reply_after_logout (set_currentUser None Fixture.page_live)
           "start" "Modan" "2" Fixture.machine_B_started 0%nat 1%nat); reflexivity.
Defined.

(** **** The document after logout *)

Lemma handleAlerts_closed (P : Page -> Prop) (data : Message) :
  (forall p a, P p -> P (set_alerts_el a p)) ->
  hoare P (handleAlerts data) (fun _ => P) (fun _ => P).
Proof.
  intros HP. destruct (locations data) as [locs|] eqn:Hd.
  - eapply hoare_conseq; [by apply (handleAlerts_keeps P data locs)|done|done|done].
  - unfold handleAlerts. eapply hoare_bind; [apply hoare_get|].
    intros p0 p [Hp ->]. destruct (alerts_el p); [|done].
    rewrite seq_run. unfold modify at 1. rewrite Hd. by apply HP.
Qed.

(** A property of a logged-out page that the writes to the cache, the
    flag, the alerts and the dialogs keep is kept by every handler that
    is neither a tick, a login nor a rename. *)
Section LoggedOut.
Variable F : Page -> Prop.
Hypothesis F_out : forall q, F q -> currentUser q = None.
Hypothesis F_cache : forall q c, F q -> F (set_dashboardCache c q).
Hypothesis F_flag : forall q b, F q -> F (set_suppressNextWSRender b q).
Hypothesis F_alerts : forall q a, F q -> F (set_alerts_el a q).
Hypothesis F_dialogs : forall q d, F q -> F (set_dialogs d q).
Hypothesis F_user : forall q, F q -> F (set_currentUser None q).

Lemma createOrUpdateMachineCard_out (machine : Machine) (loc : string) (g : nat) :
  hoare F (createOrUpdateMachineCard machine loc g) (fun _ => F) (fun _ => F).
Proof.
  intros p Hp. by rewrite createOrUpdateMachineCard_logged_out by by apply F_out.
Qed.

Lemma renderDashboard_out (data_locations : option (list Location)) :
  hoare F (renderDashboard data_locations) (fun _ => F) (fun _ => F).
Proof.
  intros p Hp. unfold renderDashboard. rewrite bind_run. unfold get at 1.
  by rewrite (F_out p Hp).
Qed.

Lemma createAlert_out (E : exn -> Page -> Prop) (message : string) (level : Z) :
  hoare F (createAlert message level) (fun _ => F) E.
Proof. apply createAlert_keeps. intros. by apply F_alerts. Qed.

Lemma handleNewJob_scan_out (ev : NewJob) (locs : list Location) :
  forall k, hoare F (handleNewJob_scan ev k locs) (fun _ => F) (fun _ => F).
Proof.
  induction locs as [|loc rest IH]; intros k; simpl; [by apply hoare_ret|].
  destruct (list_find _ (l_machines loc)) as [[mi machine]|]; [|apply IH].
  cbv zeta. eapply hoare_bind.
  { apply (hoare_modify _ (fun _ => F)). intros p Hp. by apply F_cache. }
  intros tt0. eapply hoare_bind.
  { unfold getElementById_machine. eapply hoare_bind; [apply hoare_get|].
    intros q. apply (hoare_ret _ (fun _ => F)). by intros p [Hp _]. }
  intros [[g ci]|]; [apply createOrUpdateMachineCard_out|by apply hoare_ret].
Qed.

Lemma handleNewJob_out (ev : NewJob) :
  hoare F (handleNewJob ev) (fun _ => F) (fun _ => F).
Proof.
  unfold handleNewJob. eapply hoare_bind; [apply hoare_get|].
  intros p0. eapply (hoare_bind _ (fun _ => F)).
  - intros p [Hp ->]. destruct (locations (dashboardCache p)) as [locs|]; [|done].
    by apply handleNewJob_scan_out.
  - intros tt0. eapply hoare_bind; [apply hoare_get|]. intros q.
    eapply (hoare_conseq _ F _ (fun _ => F) _ (fun _ => F));
      [apply createAlert_out | by intros ? [? _] | done | done].
Qed.

Lemma socket_onmessage_out (payload : option Message) :
  hoare F (socket_onmessage payload) (fun _ => F) (fun _ _ => False).
Proof.
  unfold socket_onmessage. apply (hoare_try_catch _ _ _ (fun _ => F)).
  2:{ intros e. apply createAlert_out. }
  eapply (hoare_bind _ (fun _ => F)).
  { destruct payload; [by apply hoare_ret|by apply hoare_throw]. }
  intros data. eapply (hoare_bind _ (fun _ => F)).
  { apply hoare_modify. intros p Hp. by apply F_cache. }
  intros tt0. eapply hoare_bind; [apply hoare_get|]. intros p0.
  destruct (suppressNextWSRender p0).
  { apply hoare_modify. intros p [Hp _]. by apply F_flag. }
  eapply (hoare_bind _ (fun _ => F)).
  { destruct (new_job data).
    - eapply hoare_conseq; [apply handleNewJob_out|by intros ? [? _]|done|done].
    - apply hoare_ret. by intros ? [? _]. }
  intros tt1. eapply hoare_bind; [apply hoare_get|]. intros q.
  eapply (hoare_bind _ (fun _ => F)).
  { intros p [Hp ->]. destruct (locations (dashboardCache p)); [|done].
    by apply renderDashboard_out. }
  intros tt2. eapply hoare_bind; [apply hoare_get|]. intros q'.
  eapply hoare_conseq; [apply (handleAlerts_closed F); intros; by apply F_alerts
                       | by intros ? [? _] | done | done].
Qed.

Lemma loadDashboard_done_out (response : option Message) :
  hoare F (loadDashboard_done response) (fun _ => F) (fun _ _ => False).
Proof.
  unfold loadDashboard_done. apply (hoare_try_catch _ _ _ (fun _ => F)).
  2:{ intros e. apply createAlert_out. }
  eapply (hoare_bind _ (fun _ => F)).
  { destruct response; [by apply hoare_ret|by apply hoare_throw]. }
  intros data. eapply (hoare_bind _ (fun _ => F)).
  { apply hoare_modify. intros p Hp. by apply F_cache. }
  intros tt0. apply renderDashboard_out.
Qed.

Lemma machineAction_done_out (action loc id : string) (response : option ActionReply) :
  hoare F (machineAction_done action loc id response) (fun _ => F) (fun _ _ => False).
Proof.
  unfold machineAction_done. apply (hoare_try_catch _ _ _ (fun _ => F)).
  2:{ intros e. apply hoare_modify. intros p Hp. by apply F_dialogs. }
  eapply (hoare_bind _ (fun _ => F)).
  { destruct response; [by apply hoare_ret|by apply hoare_throw]. }
  intros data. destruct (negb (ar_ok data)).
  { apply hoare_modify. intros p Hp. by apply F_dialogs. }
  eapply (hoare_bind _ (fun _ => F)).
  { unfold getElementById_machine. eapply hoare_bind; [apply hoare_get|].
    intros q. apply hoare_ret. by intros p [Hp _]. }
  intros [[g ci]|]; [|by apply hoare_ret].
  destruct (ar_machine data); [apply createOrUpdateMachineCard_out|by apply hoare_ret].
Qed.

Lemma dispatch_out (ev : Event) :
  unattended ev = true -> is_tick ev = false ->
  hoare F (dispatch ev) (fun _ => F) (fun _ _ => False).
Proof.
  intros Hev Htick. unfold dispatch.
  apply (hoare_try_catch _ _ _ (fun _ => F)); [|by intros e; apply hoare_ret].
  destruct ev; try discriminate Hev; try discriminate Htick; simpl.
  - eapply hoare_conseq; [apply socket_onmessage_out|done|done|done].
  - eapply hoare_conseq; [apply loadDashboard_done_out|done|done|done].
  - eapply hoare_conseq; [apply machineAction_done_out|done|done|done].
  - destruct sent; [apply createAlert_out|by apply hoare_throw].
  - apply createAlert_out.
  - apply createAlert_out.
  - unfold logout. apply hoare_modify. intros p Hp. by apply F_user.
Qed.

End LoggedOut.

Lemma dispatch_frozen (les : list LocationEl) (ev : Event) :
  unattended ev = true ->
  hoare (Frozen les) (dispatch ev) (fun _ => Frozen les) (fun _ _ => False).
Proof.
  intros Hev. destruct (is_tick ev) eqn:Htick.
  - destruct ev; try discriminate Htick. unfold dispatch. simpl.
    apply (hoare_try_catch _ _ _ (fun _ _ => False)); [|by intros e q []].
    intros p [Hu Hl]. destruct (eta_tick_frame h p) as (H1 & H2 & H3).
    destruct (eta_tick h p) as [p' o]. simpl in *. subst o.
    unfold app_state in H2. inversion H2. split; congruence.
  - apply dispatch_out; try done;
      first [by intros q [? ?] | by intros q ? [? ?]].
Qed.

Lemma dispatch_frozen_texts (les : list LocationEl) (texts : gmap nat string) (ev : Event) :
  unattended ev = true -> is_tick ev = false ->
  hoare (FrozenTexts les texts) (dispatch ev) (fun _ => FrozenTexts les texts)
    (fun _ _ => False).
Proof.
  intros Hev Htick. apply dispatch_out; try done;
    first [by intros q [[? ?] ?] | by intros q ? [[? ?] ?]].
Qed.

(** X14: While nobody is logged in, #locations keeps the headings and
    cards the last render pass left: no countdown tick, push message,
    poll answer, action reply, socket event or logout adds, removes,
    moves or re-renders a card or a heading, and none of them logs a user
    in. The one thing that still changes inside a card is the text of an
    ETA span, which the ticks of the countdowns still running rewrite;
    when no tick is among the events, the span texts stay as well. *)
Theorem logged_out_document_frozen (p : Page) (evs : list Event) :
  currentUser p = None ->
  Forall (fun ev => unattended ev = true) evs ->
  let p' := exec (forEach evs dispatch) p in
  result (forEach evs dispatch) p = Returns tt
  ∧ locations_el p' = locations_el p
  ∧ currentUser p' = None
  ∧ (Forall (fun ev => is_tick ev = false) evs -> eta_text p' = eta_text p).
Proof.
  intros Hu Hevs p'.
  assert (H : hoare (Frozen (locations_el p)) (forEach evs dispatch)
                (fun _ => Frozen (locations_el p)) (fun _ _ => False)).
  { apply hoare_forEach. intros ev Hin. apply dispatch_frozen.
    by apply (proj1 (Forall_forall _ _) Hevs). }
  destruct (hoare_returns _ _ _ p H (conj Hu eq_refl)) as ([] & Hr & Hu' & Hl).
  split; [done|]. split; [done|]. split; [done|].
  intros Hticks.
  assert (H' : hoare (FrozenTexts (locations_el p) (eta_text p)) (forEach evs dispatch)
                 (fun _ => FrozenTexts (locations_el p) (eta_text p)) (fun _ _ => False)).
  { apply hoare_forEach. intros ev Hin. apply dispatch_frozen_texts.
    - by apply (proj1 (Forall_forall _ _) Hevs).
    - by apply (proj1 (Forall_forall _ _) Hticks). }
  by destruct (hoare_returns _ _ _ p H' (conj (conj Hu eq_refl) eq_refl)) as (a & _ & _ & Ht).
Qed.

Lemma logged_out_document_frozen_witness :
  result (forEach [Tick 0; PushMessage (Some Fixture.snapshot_without_A);
                   ActionDone "stop" "Modan" "1" (Some Fixture.start_reply)] dispatch)
    Scenario.page_left = Returns tt
  ∧ locations_el (exec (forEach [Tick 0; PushMessage (Some Fixture.snapshot_without_A);
                                 ActionDone "stop" "Modan" "1" (Some Fixture.start_reply)]
                          dispatch)
                    Scenario.page_left)
    = locations_el Scenario.page_left
  ∧ currentUser (exec (forEach [Tick 0; PushMessage (Some Fixture.snapshot_without_A);
                                ActionDone "stop" "Modan" "1" (Some Fixture.start_reply)]
                         dispatch)
                   Scenario.page_left) = None.
Proof.
  destruct (logged_out_document_frozen Scenario.page_left
              [Tick 0; PushMessage (Some Fixture.snapshot_without_A);
               ActionDone "stop" "Modan" "1" (Some Fixture.start_reply)])
    as (H1 & H2 & H3 & _); [reflexivity|repeat constructor|].
  split; [exact H1|]. split; [exact H2|exact H3].
Defined.

(** *** New-job events and the cache *)

Lemma machine_at_cache (i j : nat) (p q : Page) :
  dashboardCache p = dashboardCache q -> machine_at i j p = machine_at i j q.
Proof. unfold machine_at. by intros ->. Qed.

Lemma write_machine_lookup_ne (li mi i j : nat) (m' : Machine) (p : Page) :
  (i, j) <> (li, mi) -> machine_at i j (write_machine li mi m' p) = machine_at i j p.
Proof.
  intros Hne. unfold machine_at, write_machine. simpl.
  destruct (locations (dashboardCache p)) as [locs|]; [|done]. simpl.
  destruct (decide (i = li)) as [->|Hi].
  - rewrite list_lookup_alter_eq. destruct (locs !! li) as [loc|]; [|done]. simpl.
    rewrite list_lookup_insert_ne; [done|]. congruence.
  - by rewrite list_lookup_alter_ne.
Qed.

Lemma write_machine_names (li mi : nat) (m' : Machine) (p : Page) :
  location_names (write_machine li mi m' p) = location_names p.
Proof.
  unfold location_names, write_machine. simpl.
  destruct (locations (dashboardCache p)) as [locs|]; [|done].
  simpl. f_equal. rewrite (list_fmap_alter l_name _ id); [|by apply Forall_true].
  by apply list_alter_id.
Qed.

(** X15: A new-job event changes at most one machine record of the
    cached snapshot. Locations keep their names and order, every machine
    keeps its position, and all records but one are what they were; the
    one that may differ carried the event's id and becomes the record
    [assignJob] builds from it. This holds also when the re-render of the
    card throws. *)
Theorem handleNewJob_touches_one_machine (p : Page) (ev : NewJob) (locs : list Location) :
  locations (dashboardCache p) = Some locs ->
  let p' := exec (handleNewJob ev) p in
  location_names p' = Some (l_name <$> locs)
  ∧ exists li mi,
      (forall i j, (i, j) <> (li, mi) -> machine_at i j p' = machine_at i j p)
      ∧ (machine_at li mi p' = machine_at li mi p
         ∨ exists m, machine_at li mi p = Some m ∧ m_id m = ev_machine_id ev
                     ∧ machine_at li mi p' = Some (assignJob ev m)).
Proof.
  intros Hc p'.
  destruct (list_find (fun loc => is_Some (list_find (fun m => m_id m = ev_machine_id ev)
                                             (l_machines loc))) locs)
    as [[li loc]|] eqn:Ef.
  - apply list_find_Some in Ef as (Hl & [[mi m] Hm] & Hbefore).
    apply list_find_Some in Hm as (Hm & Hid & Hfirst).
    assert (Hcache : dashboardCache p'
                     = dashboardCache (write_machine li mi (assignJob ev m) p)).
    { apply (handleNewJob_first_match p ev locs li mi loc m); try done.
      - intros li' loc' m' Hlt Hl' Hin Hid'.
        apply (Hbefore li' loc' Hl' Hlt).
        apply list_elem_of_lookup in Hin as [k Hk].
        destruct (list_find (fun m0 => m_id m0 = ev_machine_id ev) (l_machines loc'))
          eqn:En; [by eexists|].
        apply list_find_None in En.
        exfalso. apply (proj1 (Forall_forall _ _) En m'); [|done].
        apply list_elem_of_lookup. eauto.
      - intros mi' m' Hlt Hm'. by apply (Hfirst mi' m'). }
    split.
    { unfold location_names at 1. rewrite Hcache.
      fold (location_names (write_machine li mi (assignJob ev m) p)).
      rewrite write_machine_names. unfold location_names. by rewrite Hc. }
    exists li, mi. split.
    + intros i j Hne. rewrite (machine_at_cache i j p' _ Hcache).
      by apply write_machine_lookup_ne.
    + right. exists m. split; [|split; [done|]].
      * unfold machine_at. rewrite Hc. simpl. rewrite Hl. done.
      * rewrite (machine_at_cache li mi p' _ Hcache).
        by apply (write_machine_lookup li mi _ p locs loc m).
  - apply list_find_None in Ef.
    assert (Hcache : dashboardCache p' = dashboardCache p).
    { unfold p', exec. rewrite (handleNewJob_cache_after_scan ev p locs Hc).
      rewrite handleNewJob_scan_absent; [done|].
      intros loc m Hl Hm Hid. apply (proj1 (Forall_forall _ _) Ef loc Hl).
      destruct (list_find (fun m0 => m_id m0 = ev_machine_id ev) (l_machines loc))
        eqn:En; [by eexists|].
      apply list_find_None in En. exfalso.
      by apply (proj1 (Forall_forall _ _) En m). }
    split; [unfold location_names; by rewrite Hcache, Hc|].
    exists 0%nat, 0%nat. split.
    + intros i j _. by apply machine_at_cache.
    + left. by apply machine_at_cache.
Qed.

Lemma handleNewJob_touches_one_machine_witness :
  location_names (exec (handleNewJob (Fixture.event_for "2")) Fixture.page_live)
  = Some ["Modan"]
  ∧ exists li mi,
      (forall i j, (i, j) <> (li, mi) ->
         machine_at i j (exec (handleNewJob (Fixture.event_for "2")) Fixture.page_live)
         = machine_at i j Fixture.page_live)
      ∧ (machine_at li mi (exec (handleNewJob (Fixture.event_for "2")) Fixture.page_live)
         = machine_at li mi Fixture.page_live
         ∨ exists m, machine_at li mi Fixture.page_live = Some m
                     ∧ m_id m = "2"
                     ∧ machine_at li mi
                         (exec (handleNewJob (Fixture.event_for "2")) Fixture.page_live)
                       = Some (assignJob (Fixture.event_for "2") m)).
Proof.
  apply (handleNewJob_touches_one_machine Fixture.page_live (Fixture.event_for "2")
           Fixture.modan).
  reflexivity.
Defined.

(** *** Renames *)

Lemma card_at_set_title (li ci i j : nat) (text : string) (p : Page) :
  card_at i j (set_locations_el
                 (alter (fun le => {| le_heading := le_heading le;
                                      le_grid := alter (set_title text) ci (le_grid le) |})
                        li (locations_el p)) p)
  = if bool_decide ((i, j) = (li, ci)) then set_title text <$> card_at i j p
    else card_at i j p.
Proof.
  unfold card_at. simpl. destruct (bool_decide_reflect ((i, j) = (li, ci))) as [E|E].
  - inversion E; subst. rewrite list_lookup_alter_eq.
    destruct (locations_el p !! li) as [le|]; [|done]. simpl.
    by rewrite list_lookup_alter_eq.
  - destruct (decide (i = li)) as [->|Hi].
    + rewrite list_lookup_alter_eq. destruct (locations_el p !! li) as [le|]; [|done].
      simpl. rewrite list_lookup_alter_ne; [done|]. congruence.
    + by rewrite list_lookup_alter_ne.
Qed.

Lemma RenameFrame_refl (M : string) (p : Page) : RenameFrame M p p.
Proof. repeat split; try done. intros li ci. by left. Qed.

Lemma RenameFrame_dialogs (M : string) (p q : Page) (d : list string) :
  RenameFrame M p q -> RenameFrame M p (set_dialogs d q).
Proof. done. Qed.

Lemma RenameFrame_alerts (M : string) (p q : Page) (a : option (list AlertEl)) :
  RenameFrame M p q -> RenameFrame M p (set_alerts_el a q).
Proof. done. Qed.

Lemma write_title_frame (M : string) (p : Page) (li ci : nat) (text : string) :
  hoare (fun q => RenameFrame M p q ∧ find_card M 0 (locations_el q) = Some (li, ci))
    (write_title li ci text) (fun _ => RenameFrame M p) (fun _ => RenameFrame M p).
Proof.
  intros q [HQ Hf]. unfold write_title. rewrite bind_run. unfold get at 1.
  apply find_card_Some in Hf as (le & c0 & Hle & Hc0 & Hid & _).
  rewrite Nat.sub_0_r in Hle.
  assert (Hat : card_at li ci q = Some c0).
  { unfold card_at. rewrite Hle. done. }
  rewrite Hat. destruct (JS.truthy _).
  - unfold modify. destruct HQ as (H1 & H2 & H3 & H4 & H5 & H6 & H7).
    repeat split; try done.
    intros i j. rewrite card_at_set_title.
    destruct (bool_decide_reflect ((i, j) = (li, ci))) as [E|E]; [|apply H7].
    inversion E; subst. rewrite Hat. simpl. right.
    destruct (H7 li ci) as [H|(c & t & Hp & Hc & Hq)].
    + exists c0, text. by rewrite <- H.
    + exists c, text. split; [done|]. split; [done|].
      rewrite Hat in Hq. inversion Hq. done.
  - by destruct (cv_edit _).
Qed.

(** X16: A rename touches the renamed machine only. Whatever the answer
    to the prompt and the reply of the backend, the handler returns
    normally, leaves cache, user and timers alone, changes the overlay
    at the renamed id at most and changes no card except, in its title,
    a card of that id. When the prompt is cancelled or answered with the
    empty string or with a name that trims to the old one, nothing
    changes at all. *)
Theorem editMachineName_frame (loc M oldName : string) (answer : option string)
    (response : option bool) (p : Page) :
  result (editMachineName loc M oldName answer response) p = Returns tt
  ∧ RenameFrame M p (exec (editMachineName loc M oldName answer response) p)
  ∧ (answer = None ∨ answer = Some "" ∨ JS.trim <$> answer = Some oldName ->
     exec (editMachineName loc M oldName answer response) p = p).
Proof.
  assert (H : hoare (fun q => q = p) (editMachineName loc M oldName answer response)
                (fun _ => RenameFrame M p) (fun _ _ => False)).
  { unfold editMachineName. destruct answer as [newName|].
    2:{ apply hoare_ret. intros q ->. apply RenameFrame_refl. }
    destruct (negb (JS.truthy newName) || bool_decide (JS.trim newName = oldName)).
    { apply hoare_ret. intros q ->. apply RenameFrame_refl. }
    apply (hoare_try_catch _ _ _ (fun _ => RenameFrame M p)).
    2:{ intros e. apply hoare_modify. intros q Hq. by apply RenameFrame_dialogs. }
    eapply (hoare_bind _ (fun _ => RenameFrame M p)).
    { destruct response; [apply hoare_ret|apply hoare_throw];
        intros q ->; apply RenameFrame_refl. }
    intros ok. destruct (negb ok).
    { apply hoare_modify. intros q Hq. by apply RenameFrame_dialogs. }
    eapply (hoare_bind _ (fun _ => RenameFrame M p)).
    { apply hoare_modify. intros q (H1 & H2 & H3 & H4 & H5 & H6 & H7).
      repeat split; try done. intros id Hid. simpl.
      rewrite lookup_insert_ne by done. by apply H6. }
    intros tt0.
    eapply (hoare_bind _ (fun card q => RenameFrame M p q
                                        ∧ card = find_card M 0 (locations_el q))).
    { unfold getElementById_machine. eapply hoare_bind; [apply hoare_get|].
      intros q0. apply hoare_ret. by intros q [Hq ->]. }
    intros card. eapply (hoare_bind _ (fun _ => RenameFrame M p)).
    { destruct card as [[li ci]|].
      - eapply hoare_conseq; [apply (write_title_frame M p li ci)| |done|done].
        intros q [Hq Hc]. by split.
      - apply hoare_ret. by intros q [Hq _]. }
    intros tt1. apply createAlert_keeps. intros q a Hq. by apply RenameFrame_alerts. }
  destruct (hoare_returns _ _ _ p H eq_refl) as ([] & Hr & HQ).
  split; [exact Hr|]. split; [exact HQ|].
  intros [->|[->|Ht]]; [done|done|].
  destruct answer as [newName|]; [|done]. simpl in Ht. inversion Ht as [Ht'].
  unfold exec, editMachineName. rewrite Ht', bool_decide_true by done.
  by rewrite orb_true_r.
Qed.

Lemma editMachineName_frame_witness :
  exec (editMachineName "Modan" "1" "A1" (Some " A1 ") (Some true)) Fixture.page_admin
  = Fixture.page_admin.
Proof.
  destruct (editMachineName_frame "Modan" "1" "A1" (Some " A1 ") (Some true)
              Fixture.page_admin) as (_ & _ & H).
  apply H. right. right. reflexivity.
Defined.

(** *** The options of the location filter *)

Lemma initFilters_fold (xs : list User) :
  forall acc : list string,
    NoDup acc ->
    let opts := foldl (fun opts u => if bool_decide (location u ∈ opts) then opts
                                     else (opts ++ [location u])%list) acc xs in
    NoDup opts
    ∧ (exists rest, opts = (acc ++ rest)%list)
    ∧ (forall x, x ∈ opts <-> x ∈ acc ∨ exists u, u ∈ xs ∧ location u = x).
Proof.
  induction xs as [|u xs IH]; intros acc Hnd; simpl.
  - split; [done|]. split; [exists []; by rewrite app_nil_r|].
    intros x. split; [by left|]. intros [H|(u & Hu & _)]; [done|]. by apply elem_of_nil in Hu.
  - destruct (bool_decide_reflect (location u ∈ acc)) as [Hin|Hin].
    + destruct (IH acc Hnd) as (H1 & H2 & H3). split; [done|]. split; [done|].
      intros x. rewrite H3. split.
      * intros [H|(v & Hv & Hx)]; [by left|]. right. exists v. split; [by right|done].
      * intros [H|(v & Hv & Hx)]; [by left|].
        apply elem_of_cons in Hv as [->|Hv]; [left; by rewrite <- Hx|].
        right. eauto.
    + assert (Hnd' : NoDup (acc ++ [location u])%list).
      { apply NoDup_app. split; [done|]. split; [|apply NoDup_singleton].
        intros x Hx Hx'. apply list_elem_of_singleton in Hx'. by subst. }
      destruct (IH _ Hnd') as (H1 & [rest H2] & H3). split; [done|]. split.
      { exists (location u :: rest). rewrite H2. by rewrite <- (assoc_L app). }
      intros x. rewrite H3, elem_of_app, list_elem_of_singleton. split.
      * intros [[H|H]|(v & Hv & Hx)]; [by left| |].
        -- right. exists u. split; [by left|done].
        -- right. exists v. split; [by right|done].
      * intros [H|(v & Hv & Hx)]; [left; by left|].
        apply elem_of_cons in Hv as [->|Hv]; [left; by right|].
        right. eauto.
Qed.

(** X17: [initFilters] offers "all" first and then every location of the
    user table exactly once: the options have no duplicates, whatever
    the table, and a value is an option if and only if it is "all" or
    the location of some user. *)
Theorem initFilters_options_complete (us : list User) :
  NoDup (initFilters_options us)
  ∧ head (initFilters_options us) = Some "all"
  ∧ (forall x, x ∈ initFilters_options us <->
               x = "all" ∨ exists u, u ∈ us ∧ location u = x).
Proof.
  unfold initFilters_options.
  destruct (initFilters_fold (filter (fun u => location u <> "all") us) ["all"])
    as (H1 & [rest H2] & H3); [apply NoDup_singleton|].
  cbv zeta in *. split; [done|]. split; [by rewrite H2|].
  intros x. rewrite H3, list_elem_of_singleton. split.
  - intros [H|(u & Hu & Hx)]; [by left|]. right.
    apply list_elem_of_filter in Hu as [_ Hu]. eauto.
  - intros [H|(u & Hu & Hx)]; [by left|].
    destruct (decide (x = "all")) as [E|E]; [by left|].
    right. exists u. split; [|done]. apply list_elem_of_filter. split; [congruence|done].
Qed.

(** *** A new job for a machine the snapshot does not know *)




(** *** The blank rename *)

(** C3: after a machine has been given an overlay name, every later full
    snapshot still renders that name. [editMachineName] tests the answer
    to the prompt before trimming it and stores the trimmed answer. On
    the admin's page, with the backend accepting: the empty answer is
    refused and changes nothing; the answer of one blank is accepted,
    the overlay recorded for machine 1 is the empty name and the card is
    retitled at once (the answer followed by a blank); after the next
    full snapshot the card of machine 1 is titled "A1" again, the name
    the snapshot carries, since [renamedMachines[id] || machine.name]
    takes the empty overlay for none. *)
Theorem blank_rename_lost_on_refresh :
  editMachineName "Modan" "1" "A1" (Some "") (Some true) Fixture.page_admin
  = (Fixture.page_admin, Returns tt)
  ∧ rendered_titles Fixture.page_admin = ["A1"; "B2"]
  ∧ renamedMachines Fixture.page_blank_rename !! "1" = Some ""
  ∧ rendered_titles Fixture.page_blank_rename = ["  "; "B2"]
  ∧ rendered_titles Fixture.page_blank_refreshed = ["A1"; "B2"]
  ∧ ~ renders_overlay "1" Fixture.page_blank_refreshed.
Proof.
  split; [reflexivity|]. split; [vm_compute; reflexivity|].
  split; [vm_compute; reflexivity|]. split; [vm_compute; reflexivity|].
  split; [vm_compute; reflexivity|]. apply blank_rename_not_rendered.
Qed.

(** *** The text of the progress line *)

Lemma string_app_empty (s : string) : s +:+ "" = s.
Proof.
  induction s as [|a s IH]; [done|].
  change (String a (s +:+ "") = String a s). by rewrite IH.
Qed.

(** A whole number of percent is printed without a decimal. *)
Lemma showTenths_whole (k : Z) :
  (0 <= k)%Z -> showTenths (10 * k) = JS.showZ k.
Proof.
  intros Hk. unfold showTenths.
  assert ((10 * k <? 0)%Z = false) as -> by lia.
  rewrite Z.abs_eq by lia.
  replace (10 * k)%Z with (k * 10)%Z by lia.
  rewrite Z.div_mul by lia. rewrite Z.mod_mul by lia. simpl.
  apply string_app_empty.
Qed.

Lemma jv_progress_text_whole (jv : JobView) (k : Z) :
  (0 <= k)%Z -> (jv_progress jv == inject_Z k)%Q -> jv_progress_text jv = JS.showZ k.
Proof.
  intros Hk Hq. unfold jv_progress_text.
  assert (Qfloor (jv_progress jv * 10) = (10 * k)%Z) as ->.
  { rewrite Hq. replace (inject_Z k * 10)%Q with (inject_Z (k * 10)).
    - rewrite Qfloor_Z. lia.
    - rewrite inject_Z_mult. reflexivity. }
  by apply showTenths_whole.
Qed.

(** C9: the progress percent of a card is displayed as
    [min(progressPercent, 100)] with one decimal. The markup prints
    [progressPercent], which is [Math.min(x.toFixed(1), 100)]:
    [toFixed(1)] yields the string with one decimal and [Math.min] turns
    it back into a number, which is printed without a trailing zero. On
    the operator's page, a job at 90 percent gives the string "90.0"
    under [toFixed(1)] and the progress line "90"; 100.04 percent gives
    "100.0" and the line "100"; 82.34 percent gives the line "82.3". A
    progress that rounds to a whole number is always printed without a
    decimal. *)
Theorem progress_line_drops_decimal :
  toFixed1_text 90 = "90.0"
  ∧ Scenario.progress_line (Scenario.page_at_percent 90) = Some "90"
  ∧ toFixed1_text (10004 # 100) = "100.0"
  ∧ Scenario.progress_line (Scenario.page_at_percent (10004 # 100)) = Some "100"
  ∧ Scenario.progress_line (Scenario.page_at_percent (8234 # 100)) = Some "82.3"
  ∧ (forall (jv : JobView) (k : Z),
       (0 <= k)%Z -> (jv_progress jv == inject_Z k)%Q -> jv_progress_text jv = JS.showZ k).
Proof.
  split; [vm_compute; reflexivity|]. split; [vm_compute; reflexivity|].
  split; [vm_compute; reflexivity|]. split; [vm_compute; reflexivity|].
  split; [vm_compute; reflexivity|]. apply jv_progress_text_whole.
Qed.

(** *** Countdowns after a render pass *)

(** The timer tables after [setupETACountdown]. *)
Lemma setupETACountdown_tables (id : string) (s : Q) (p : Page) :
  let p0 := (setupETACountdown id s p).1 in
  let base := match etaIntervals p !! id with
              | Some k => delete k (intervals p)
              | None => intervals p
              end in
  locations_el p0 = locations_el p
  ∧ match first_some (eta_span_of id) (cards p) with
    | Some e =>
        intervals p0 = <[next_interval p := {| cd_id := id; cd_el := Some e; cd_t := s |}]> base
        ∧ etaIntervals p0 = <[id := next_interval p]> (etaIntervals p)
        ∧ next_interval p0 = S (next_interval p)
    | None =>
        intervals p0 = base ∧ etaIntervals p0 = etaIntervals p
        ∧ next_interval p0 = next_interval p
    end.
Proof.
  unfold setupETACountdown. js_unfold. unfold cards.
  destruct (etaIntervals p !! id) as [k|]; simpl;
    destruct (first_some _ _) as [e|]; simpl; done.
Qed.

Lemma RegistryOk_setupETACountdown (id : string) (s : Q) (p : Page) :
  RegistryOk p -> RegistryOk (setupETACountdown id s p).1.
Proof.
  intros Hr. destruct (setupETACountdown_tables id s p) as (_ & H). cbv zeta in H.
  destruct (first_some _ _) as [e|]; destruct H as (_ & He & Hn); intros i h;
    rewrite He, Hn; [|apply Hr].
  intros Hi. destruct (decide (id = i)) as [<-|Hne].
  - rewrite lookup_insert_eq in Hi. inversion Hi; subst. split; [lia|].
    intros i' Hi'. destruct (decide (id = i')) as [|Hne']; [done|].
    rewrite lookup_insert_ne in Hi' by done. destruct (Hr i' _ Hi') as [Hlt _]. lia.
  - rewrite lookup_insert_ne in Hi by done. destruct (Hr i h Hi) as [Hlt Hinj].
    split; [lia|]. intros i' Hi'. destruct (decide (id = i')) as [<-|Hne'].
    + rewrite lookup_insert_eq in Hi'. inversion Hi'. lia.
    + rewrite lookup_insert_ne in Hi' by done. by apply Hinj.
Qed.

Lemma RegistryOk_eta_tick (h : nat) (p : Page) : RegistryOk p -> RegistryOk (eta_tick h p).1.
Proof.
  intros Hr. unfold eta_tick. js_unfold.
  destruct (intervals p !! h) as [cd|]; [|done].
  destruct (cd_el cd); simpl.
  - destruct (JS.ltb _ _); simpl; [|done]. by destruct (etaIntervals p !! cd_id cd).
  - by destruct (etaIntervals p !! cd_id cd).
Qed.

(** A countdown of another machine survives [setupETACountdown]. *)
Lemma Running_setupETACountdown (id id' : string) (s t : Q) (h e : nat) (p : Page) :
  TimersOk p -> RegistryOk p -> id <> id' ->
  Running h id e t p -> Running h id e t (setupETACountdown id' s p).1.
Proof.
  intros Ht Hr Hne [Hi He].
  destruct (Ht h _ Hi) as [_ Hlt]. destruct (Hr id h He) as [_ Hinj].
  assert (Hbase : match etaIntervals p !! id' with
                  | Some k => delete k (intervals p)
                  | None => intervals p
                  end !! h = Some {| cd_id := id; cd_el := Some e; cd_t := t |}).
  { destruct (etaIntervals p !! id') as [k|] eqn:Ek; [|done].
    rewrite lookup_delete_ne; [done|]. intros ->. apply Hne. symmetry. by apply Hinj. }
  destruct (setupETACountdown_tables id' s p) as (_ & H). cbv zeta in H.
  destruct (first_some _ _) as [e'|]; destruct H as (Hi' & He' & _); split.
  - rewrite Hi', lookup_insert_ne by lia. exact Hbase.
  - by rewrite He', lookup_insert_ne.
  - by rewrite Hi'.
  - by rewrite He'.
Qed.

(** With one card per id, the span [eta-<id>] is the one of that card. *)
Lemma first_some_absent (id : string) (cs : list CardEl) :
  id ∉ card_id <$> cs -> first_some (eta_span_of id) cs = None.
Proof.
  induction cs as [|c cs IH]; intros H; simpl; [done|].
  unfold eta_span_of at 1. rewrite bool_decide_false.
  - apply IH. intros Hin. apply H. csimpl. by right.
  - intros Heq. apply H. csimpl. rewrite Heq. by left.
Qed.

Lemma first_some_unique (id : string) (cs : list CardEl) (c : CardEl) :
  NoDup (card_id <$> cs) -> c ∈ cs -> card_id c = id ->
  first_some (eta_span_of id) cs = jv_eta <$> cv_job (card_view c).
Proof.
  induction cs as [|c0 cs IH]; intros Hnd Hin Hid; [by apply elem_of_nil in Hin|].
  csimpl in Hnd. apply NoDup_cons in Hnd as [Hnot Hnd]. simpl.
  apply elem_of_cons in Hin as [->|Hin].
  - unfold eta_span_of at 1. rewrite bool_decide_true by done.
    destruct (jv_eta <$> cv_job (card_view c0)) eqn:E; [done|].
    apply first_some_absent. by rewrite <- Hid.
  - unfold eta_span_of at 1. rewrite bool_decide_false; [by apply IH|].
    intros Heq. apply Hnot. rewrite Heq, <- Hid. by apply list_elem_of_fmap_2.
Qed.
(** [createOrUpdateMachineCard] places the card and then starts the
    countdown; placing the card leaves the timer tables alone. *)
Lemma createOrUpdateMachineCard_split (machine : Machine) (loc : string) (g : nat)
    (p : Page) (u : User) :
  currentUser p = Some u ->
  exists p1,
    createOrUpdateMachineCard machine loc g p
    = match m_job machine ≫= remaining_time with
      | Some t => setupETACountdown (m_id machine) t p1
      | None => (p1, Returns tt)
      end
    ∧ currentUser p1 = Some u
    ∧ intervals p1 = intervals p
    ∧ etaIntervals p1 = etaIntervals p
    ∧ next_interval p1 = next_interval p
    ∧ locations_el p1 =
        match find_card (m_id machine) 0 (locations_el p) with
        | Some (li, ci) =>
            update_card li ci (cardHTML (renamedMachines p) u machine loc (next_node p))
              (locations_el p)
        | None =>
            append_card g (card_of machine
                             (cardHTML (renamedMachines p) u machine loc (next_node p)))
              (locations_el p)
        end.
Proof.
  intros Hu. unfold createOrUpdateMachineCard. js_unfold. rewrite Hu.
  destruct (m_job machine) as [j|] eqn:Ej; simpl;
    destruct (find_card (m_id machine) 0 (locations_el p)) as [[li ci]|] eqn:Ec; simpl;
    try destruct (remaining_time j); simpl; rewrite ?Hu;
    eexists; (split; [reflexivity|]); simpl; auto.
Qed.

Lemma elem_of_alter_here {A : Type} (f : A -> A) (i : nat) (l : list A) (y : A) :
  l !! i = Some y -> f y ∈ alter f i l.
Proof.
  intros H. apply list_elem_of_lookup. exists i. by rewrite list_lookup_alter_eq, H.
Qed.

Lemma elem_of_alter_other {A : Type} (f : A -> A) (i k : nat) (l : list A) (x : A) :
  l !! k = Some x -> i <> k -> x ∈ alter f i l.
Proof.
  intros H Hne. apply list_elem_of_lookup. exists k. by rewrite list_lookup_alter_ne.
Qed.

Lemma cards_update_card_new (li ci : nat) (v : CardView) (les : list LocationEl)
    (le : LocationEl) (c0 : CardEl) :
  les !! li = Some le -> le_grid le !! ci = Some c0 ->
  {| card_id := card_id c0; card_class := card_class c0; card_view := v |}
  ∈ concat (le_grid <$> update_card li ci v les).
Proof.
  intros Hle Hc. apply concat_grid_elem. eexists. split.
  - unfold update_card. by apply elem_of_alter_here.
  - simpl. by apply (elem_of_alter_here
                       (fun c => {| card_id := card_id c; card_class := card_class c;
                                    card_view := v |})).
Qed.

Lemma cards_update_card_old (li ci : nat) (v : CardView) (les : list LocationEl)
    (le : LocationEl) (c0 c : CardEl) :
  les !! li = Some le -> le_grid le !! ci = Some c0 ->
  c ∈ concat (le_grid <$> les) -> card_id c <> card_id c0 ->
  c ∈ concat (le_grid <$> update_card li ci v les).
Proof.
  intros Hle Hc0 Hin Hne. apply concat_grid_elem in Hin as (le' & Hl' & Hc).
  apply concat_grid_elem. apply list_elem_of_lookup in Hl' as [k Hk].
  destruct (decide (li = k)) as [->|Hlk].
  - assert (le' = le) as -> by congruence. eexists. split.
    + unfold update_card. by apply elem_of_alter_here.
    + simpl. apply list_elem_of_lookup in Hc as [j Hj].
      apply (elem_of_alter_other _ ci j); [done|]. intros ->.
      apply Hne. congruence.
  - exists le'. split; [|done]. unfold update_card. by apply (elem_of_alter_other _ li k).
Qed.

Lemma cards_append_card_new (li : nat) (c : CardEl) (les : list LocationEl) :
  (li < length les)%nat -> c ∈ concat (le_grid <$> append_card li c les).
Proof.
  intros Hlt. destruct (lookup_lt_is_Some_2 les li Hlt) as [le Hle].
  apply concat_grid_elem. eexists. split.
  - unfold append_card. by apply elem_of_alter_here.
  - simpl. apply elem_of_app. right. by apply list_elem_of_singleton.
Qed.

Lemma cards_append_card_old (li : nat) (c c' : CardEl) (les : list LocationEl) :
  c' ∈ concat (le_grid <$> les) -> c' ∈ concat (le_grid <$> append_card li c les).
Proof.
  intros Hin. apply concat_grid_elem in Hin as (le' & Hl' & Hc).
  apply concat_grid_elem. apply list_elem_of_lookup in Hl' as [k Hk].
  destruct (decide (li = k)) as [->|Hlk].
  - eexists. split.
    + unfold append_card. by apply elem_of_alter_here.
    + simpl. apply elem_of_app. by left.
  - exists le'. split; [|done]. unfold append_card. by apply (elem_of_alter_other _ li k).
Qed.
Lemma TimersOk_tables (p q : Page) :
  intervals q = intervals p -> etaIntervals q = etaIntervals p ->
  next_interval q = next_interval p -> TimersOk p -> TimersOk q.
Proof. intros Hi He Hn H h cd. rewrite Hi, He, Hn. apply H. Qed.

Lemma RegistryOk_tables (p q : Page) :
  etaIntervals q = etaIntervals p -> next_interval q = next_interval p ->
  RegistryOk p -> RegistryOk q.
Proof. intros He Hn H id h. rewrite He, Hn. apply H. Qed.

Lemma Counting_setupETACountdown (m : Machine) (id' : string) (s : Q) (p : Page) :
  TimersOk p -> RegistryOk p -> m_id m <> id' ->
  Counting m p -> Counting m (setupETACountdown id' s p).1.
Proof.
  intros Ht Hr Hne Hc j t Hj Hrt.
  destruct (Hc j t Hj Hrt) as (h & e & Hrun & c & Hin & Hid & He).
  exists h, e. split; [by apply Running_setupETACountdown|].
  exists c. destruct (setupETACountdown_tables id' s p) as (Hl & _).
  unfold cards. rewrite Hl. done.
Qed.

Lemma createOrUpdateMachineCard_counting (u : User) (g : nat) (done : list Machine)
    (m : Machine) (loc : string) :
  hoare (RenderTimers u (S g) done) (createOrUpdateMachineCard m loc g)
    (fun _ => RenderTimers u (S g) (done ++ [m])%list) (fun _ _ => False).
Proof.
  intros p (Hu & Hlen & Ht & Hr & Hnd & Hcount).
  destruct (createOrUpdateMachineCard_split m loc g p u Hu)
    as (p1 & Heq & Hu1 & Hi1 & He1 & Hn1 & Hl1).
  rewrite Heq. clear Heq.
  set (view := cardHTML (renamedMachines p) u m loc (next_node p)) in *.
  assert (Ht1 : TimersOk p1) by by apply (TimersOk_tables p).
  assert (Hr1 : RegistryOk p1) by by apply (RegistryOk_tables p).
  assert (Hlen1 : length (locations_el p1) = S g).
  { rewrite Hl1. destruct (find_card _ _ _) as [[li ci]|];
      unfold update_card, append_card; by rewrite length_alter. }
  assert (Hnd1 : NoDup (card_ids p1)).
  { unfold card_ids, cards in *. rewrite Hl1.
    destruct (find_card (m_id m) 0 (locations_el p)) as [[li ci]|] eqn:Ef.
    - by rewrite concat_ids_update_card.
    - rewrite concat_ids_append_card by lia. apply NoDup_cons. split; [|done].
      by apply (find_card_None _ _ 0%nat). }
  assert (Hnew : exists c, c ∈ cards p1 ∧ card_id c = m_id m ∧ card_view c = view).
  { unfold cards. rewrite Hl1.
    destruct (find_card (m_id m) 0 (locations_el p)) as [[li ci]|] eqn:Ef.
    - apply find_card_Some in Ef as (le & c0 & Hle & Hc0 & Hid & _).
      rewrite Nat.sub_0_r in Hle. eexists. split.
      + by apply (cards_update_card_new li ci view _ le c0).
      + done.
    - exists (card_of m view). split; [|done]. apply cards_append_card_new. lia. }
  assert (Hold : forall c, c ∈ cards p -> card_id c <> m_id m -> c ∈ cards p1).
  { intros c Hc Hne. unfold cards in *. rewrite Hl1.
    destruct (find_card (m_id m) 0 (locations_el p)) as [[li ci]|] eqn:Ef.
    - apply find_card_Some in Ef as (le & c0 & Hle & Hc0 & Hid & _).
      rewrite Nat.sub_0_r in Hle.
      apply (cards_update_card_old li ci view _ le c0); try done. by rewrite Hid.
    - by apply cards_append_card_old. }
  assert (Hcount1 : NoDup (m_id <$> (done ++ [m])%list) ->
                    forall m0, m0 ∈ done -> m_id m0 <> m_id m ∧ Counting m0 p1).
  { intros Hnd' m0 Hm0. rewrite fmap_app in Hnd'.
    apply NoDup_app in Hnd' as (Hnd0 & Hdis & _).
    assert (Hne : m_id m0 <> m_id m).
    { intros Heq. apply (Hdis (m_id m0)); [by apply list_elem_of_fmap_2|].
      simpl. rewrite Heq. by apply list_elem_of_singleton. }
    split; [done|]. intros j t Hj Hrt.
    destruct (Hcount Hnd0 m0 Hm0 j t Hj Hrt) as (h & e & [Hrun1 Hrun2] & c & Hin & Hid & He).
    exists h, e. split; [split; by rewrite ?Hi1, ?He1|].
    exists c. split; [|done]. apply Hold; [done|]. by rewrite Hid. }
  destruct (m_job m ≫= remaining_time) as [t|] eqn:Ert.
  - destruct (setupETACountdown_frame (m_id m) t p1) as (Hret & Hsame & Hloc).
    pose proof (TimersOk_setupETACountdown (m_id m) t p1 Ht1) as Ht2.
    pose proof (RegistryOk_setupETACountdown (m_id m) t p1 Hr1) as Hr2.
    destruct Hnew as (cnew & Hcin & Hcid & Hcv).
    destruct (m_job m) as [j|] eqn:Ej; [|done]. simpl in Ert.
    assert (Hspan : first_some (eta_span_of (m_id m)) (cards p1) = Some (next_node p)).
    { rewrite (first_some_unique (m_id m) (cards p1) cnew Hnd1 Hcin Hcid).
      rewrite Hcv. unfold view, cardHTML. simpl. by rewrite Ej. }
    destruct (setupETACountdown_present (m_id m) t (next_node p) p1 Hspan)
      as (_ & _ & Hrun & _).
    unfold exec in Hrun.
    assert (Hcards : cards (setupETACountdown (m_id m) t p1).1 = cards p1).
    { unfold cards. by rewrite Hloc. }
    assert (Hcount2 : NoDup (m_id <$> (done ++ [m])%list) ->
                      forall m0, m0 ∈ done ->
                        Counting m0 (setupETACountdown (m_id m) t p1).1).
    { intros Hnd' m0 Hm0. destruct (Hcount1 Hnd' m0 Hm0) as [Hne Hc0].
      by apply Counting_setupETACountdown. }
    destruct (setupETACountdown (m_id m) t p1) as [p2 o]. simpl in *. subst o.
    split.
    { unfold app_state in Hsame. inversion Hsame. congruence. }
    split; [by rewrite Hloc|]. split; [done|]. split; [done|].
    split; [unfold card_ids; by rewrite Hcards|].
    intros Hnd' m0 Hm0. apply elem_of_app in Hm0 as [Hm0|Hm0].
    + by apply Hcount2.
    + apply list_elem_of_singleton in Hm0 as ->. intros j' t' Hj' Hrt'.
      assert (j' = j) as -> by congruence. assert (t' = t) as -> by congruence.
      exists (next_interval p1), (next_node p). split; [done|].
      exists cnew. rewrite Hcards. split; [done|]. split; [done|].
      rewrite Hcv. unfold view, cardHTML. simpl. by rewrite Ej.
  - split; [done|]. split; [done|]. split; [done|]. split; [done|]. split; [done|].
    intros Hnd' m0 Hm0. apply elem_of_app in Hm0 as [Hm0|Hm0].
    + by destruct (Hcount1 Hnd' m0 Hm0).
    + apply list_elem_of_singleton in Hm0 as ->. intros j t Hj Hrt.
      rewrite Hj in Ert. simpl in Ert. congruence.
Qed.
Lemma renderLocation_counting (u : User) (g : nat) (done : list Machine) (loc : string)
    (ms : list Machine) :
  hoare (RenderTimers u g done) (renderLocation loc ms)
    (fun _ => RenderTimers u (S g) (done ++ ms)%list) (fun _ _ => False).
Proof.
  intros p (Hu & Hlen & Ht & Hr & Hnd & Hcount). unfold renderLocation.
  rewrite bind_run. unfold get at 1. cbv zeta. rewrite seq_run. unfold modify at 1.
  rewrite Hlen. set (p1 := set_locations_el _ p).
  assert (Hcards : cards p1 = cards p).
  { unfold p1, cards. simpl. rewrite fmap_app, concat_app. simpl. by rewrite !app_nil_r. }
  assert (H1 : RenderTimers u (S g) done p1).
  { split; [done|]. split.
    { unfold p1. simpl. rewrite length_app. simpl. lia. }
    split; [done|]. split; [done|]. split; [unfold card_ids; by rewrite Hcards|].
    intros Hnd' m Hm j t Hj Hrt.
    destruct (Hcount Hnd' m Hm j t Hj Hrt) as (h & e & Hrun & c & Hc).
    exists h, e. split; [done|]. exists c. by rewrite Hcards. }
  pose proof (hoare_forEach_fold (RenderTimers u (S g)) (fun _ _ => False)
                (fun a x => (a ++ [x])%list) ms
                (fun m => createOrUpdateMachineCard m loc g)) as Hloop.
  specialize (Hloop (fun m acc => createOrUpdateMachineCard_counting u g acc m loc)
                done p1 H1).
  by rewrite foldl_snoc in Hloop.
Qed.

Lemma renderDashboard_counting (u : User) (locs : list Location) (p : Page) :
  currentUser p = Some u -> TimersOk p -> RegistryOk p ->
  hoare (fun q => q = p) (renderDashboard (Some locs))
    (fun _ q => NoDup (m_id <$> (visibleLocations u p locs ≫= visibleMachines p)) ->
                forall loc m, loc ∈ visibleLocations u p locs -> m ∈ visibleMachines p loc ->
                              Counting m q)
    (fun _ _ => False).
Proof.
  intros Hu Ht Hr q ->. unfold renderDashboard. rewrite bind_run. unfold get at 1.
  rewrite Hu. rewrite seq_run. unfold modify at 1. cbv zeta.
  fold (locFilterOf p) (statusFilterOf p) (searchFilterOf p).
  fold (visibleLocations u p locs).
  pose proof (hoare_forEach_fold
                (fun (acc : list Location) q =>
                   RenderTimers u (length acc) (acc ≫= visibleMachines p) q)
                (fun _ _ => False) (fun a x => (a ++ [x])%list)
                (visibleLocations u p locs)
                (fun loc => renderLocation (l_name loc)
                              (filterMachines (statusFilterOf p) (searchFilterOf p)
                                 (l_machines loc)))) as Hloop.
  assert (Hstep : forall (loc : Location) (acc : list Location),
            hoare (RenderTimers u (length acc) (acc ≫= visibleMachines p))
              (renderLocation (l_name loc)
                 (filterMachines (statusFilterOf p) (searchFilterOf p) (l_machines loc)))
              (fun _ => RenderTimers u (length (acc ++ [loc])%list)
                          ((acc ++ [loc])%list ≫= visibleMachines p))
              (fun _ _ => False)).
  { intros loc acc. rewrite length_app, bind_app. simpl. rewrite app_nil_r.
    replace (length acc + 1)%nat with (S (length acc)) by lia.
    apply renderLocation_counting. }
  assert (H0 : RenderTimers u (length (@nil Location)) ([] ≫= visibleMachines p)
                 (set_locations_el [] p)).
  { split; [done|]. split; [done|]. split; [done|]. split; [done|].
    split; [constructor|]. intros _ m Hm. by apply elem_of_nil in Hm. }
  specialize (Hloop Hstep [] (set_locations_el [] p) H0).
  rewrite foldl_snoc in Hloop. simpl in Hloop.
  destruct (forEach _ _ _) as [p' [[]|e]]; [|done].
  destruct Hloop as (_ & _ & _ & _ & _ & Hc).
  intros Hnd loc m Hl Hm. apply (Hc Hnd). apply list_elem_of_bind. eauto.
Qed.

Lemma RegistryOk_createOrUpdateMachineCard (machine : Machine) (loc : string) (g : nat)
    (p : Page) :
  RegistryOk p -> RegistryOk (createOrUpdateMachineCard machine loc g p).1.
Proof.
  intros Hr. destruct (currentUser p) as [u|] eqn:Hu;
    [|by rewrite createOrUpdateMachineCard_logged_out].
  destruct (createOrUpdateMachineCard_split machine loc g p u Hu)
    as (p1 & Heq & _ & _ & He1 & Hn1 & _).
  rewrite Heq. assert (Hr1 : RegistryOk p1) by by apply (RegistryOk_tables p).
  destruct (m_job machine ≫= remaining_time); [|done].
  by apply RegistryOk_setupETACountdown.
Qed.

Lemma RegistryOk_events (evs : list Event) :
  hoare RegistryOk (forEach evs dispatch) (fun _ => RegistryOk) (fun _ _ => False).
Proof.
  apply dispatches_inv.
  - intros p q _ He Hn _ _. by apply RegistryOk_tables.
  - done.
  - done.
  - intros. by apply RegistryOk_createOrUpdateMachineCard.
  - intros. by apply RegistryOk_eta_tick.
Qed.

(** X18: A refresh starts the countdowns. Take a page whose timer
    tables are consistent (for instance a freshly loaded one), let any
    sequence of events pass, and let a render pass run for the logged-in
    user on data whose visible machines have pairwise different ids.
    Then every visible machine whose job has a remaining time [t] has a
    countdown running from [t], recorded in [etaIntervals] under its id
    and writing to the span inside its own card. *)
Theorem refresh_starts_countdowns (p0 : Page) (evs : list Event) (u : User)
    (locs : list Location) (loc : Location) (m : Machine) (j : Job) (t : Q) :
  TimersOk p0 -> RegistryOk p0 ->
  let p := exec (forEach evs dispatch) p0 in
  currentUser p = Some u ->
  NoDup (m_id <$> (visibleLocations u p locs ≫= visibleMachines p)) ->
  loc ∈ visibleLocations u p locs -> m ∈ visibleMachines p loc ->
  m_job m = Some j -> remaining_time j = Some t ->
  let p' := exec (renderDashboard (Some locs)) p in
  exists h e,
    Running h (m_id m) e t p'
    ∧ exists c, c ∈ cards p' ∧ card_id c = m_id m
                ∧ jv_eta <$> cv_job (card_view c) = Some e.
Proof.
  intros Ht0 Hr0 p Hu Hnd Hl Hm Hj Hrt p'.
  destruct (hoare_returns _ _ _ p0 (TimersOk_events evs) Ht0) as (a & _ & Ht).
  destruct (hoare_returns _ _ _ p0 (RegistryOk_events evs) Hr0) as (a' & _ & Hr).
  fold p in Ht, Hr.
  destruct (hoare_returns _ _ _ p (renderDashboard_counting u locs p Hu Ht Hr) eq_refl)
    as ([] & _ & H).
  by apply (H Hnd loc m Hl Hm j t).
Qed.

Lemma refresh_starts_countdowns_witness :
  exists h e,
    Running h (m_id Fixture.machine_A) e 3
      (exec (renderDashboard (Some Fixture.modan))
         (exec (forEach [PollDone (Some Fixture.modan)] dispatch)
            (Fixture.page_blank Fixture.operator "all" "")))
    ∧ exists c,
        c ∈ cards (exec (renderDashboard (Some Fixture.modan))
                     (exec (forEach [PollDone (Some Fixture.modan)] dispatch)
                        (Fixture.page_blank Fixture.operator "all" "")))
        ∧ card_id c = m_id Fixture.machine_A
        ∧ jv_eta <$> cv_job (card_view c) = Some e.
Proof.
  apply (refresh_starts_countdowns (Fixture.page_blank Fixture.operator "all" "")
           [PollDone (Some Fixture.modan)] Fixture.operator Fixture.modan
           {| l_name := "Modan"; l_machines := [Fixture.machine_A; Fixture.machine_B] |}
           Fixture.machine_A Fixture.job_A 3).
  - intros h cd H. simpl in H. by rewrite lookup_empty in H.
  - intros id h H. simpl in H. by rewrite lookup_empty in H.
  - vm_compute. reflexivity.
  - vm_compute. apply NoDup_cons. split; [|apply NoDup_singleton].
    intros H. apply list_elem_of_singleton in H. discriminate.
  - vm_compute. constructor.
  - vm_compute. constructor.
  - reflexivity.
  - reflexivity.
Defined.
